(** * Inbound webhook ingestion of the CRM server

    A shallow embedding of the two variants of the iClosed webhook
    controller ([controllers/iclosedWebhookController.js]) and of the
    automation service ([services/automationService.js]), with the
    properties of the ingestion pipeline stated over it.

    - Request bodies are loosely typed JSON: the type [json] with the
      language's property access, truthiness and [||]. A string holds the
      UTF-8 encoding of its text.
    - An [async] function is a computation [M A] over the [world] (the
      relational store, the clock and a schedule of storage failures); an
      exception keeps the state reached when it was thrown.
    - Every storage call consults the failure schedule first, so a theorem
      quantified over worlds covers every pattern of storage errors. *)

From Stdlib Require Import String Ascii List ZArith Bool Lia.
From Stdlib Require Import DecimalString.
Import ListNotations.
Open Scope string_scope.

Set Implicit Arguments.
Set Warnings "-register-all".

(** ** Loosely typed values *)

(** JSON values as the handlers see them after body parsing, together with
    [undefined]. Numbers are integers; fractional numbers are outside the
    model. *)
Inductive json : Type :=
| JUndefined
| JNull
| JBool (b : bool)
| JNum (n : Z)
| JStr (s : string)
| JArr (items : list json)
| JObj (fields : list (string * json)).

(** Truthiness of a value: what [if (v)], [!v] and [v || w] test. *)
Definition truthy (v : json) : bool :=
  match v with
  | JUndefined | JNull => false
  | JBool b => b
  | JNum n => negb (Z.eqb n 0)
  | JStr s => negb (String.eqb s "")
  | JArr _ | JObj _ => true
  end.

Definition nullish (v : json) : bool :=
  match v with
  | JUndefined | JNull => true
  | _ => false
  end.

Fixpoint assoc (k : string) (fs : list (string * json)) : json :=
  match fs with
  | [] => JUndefined
  | (k', v) :: rest => if String.eqb k k' then v else assoc k rest
  end.

(** [o.k] on a value that is neither [null] nor [undefined]: a field of an
    object, [undefined] on a missing field and on the fields the handlers
    read from a string, number, boolean or array. *)
Definition prop (o : json) (k : string) : json :=
  match o with
  | JObj fs => assoc k fs
  | _ => JUndefined
  end.

(** [a === b] between values one of which is a primitive: equal primitives
    are identical, an object or array is identical to nothing else. *)
Definition strict_eq (a b : json) : bool :=
  match a, b with
  | JUndefined, JUndefined => true
  | JNull, JNull => true
  | JBool x, JBool y => Bool.eqb x y
  | JNum x, JNum y => Z.eqb x y
  | JStr x, JStr y => String.eqb x y
  | _, _ => false
  end.

Definition is_str (v : json) (s : string) : bool := strict_eq v (JStr s).

(** [typeof v === 'string'] *)
Definition typeof_string (v : json) : bool :=
  match v with JStr _ => true | _ => false end.

(** ** Strings *)

Definition lower_ascii (c : ascii) : ascii :=
  let n := nat_of_ascii c in
  if andb (Nat.leb 65 n) (Nat.leb n 90) then ascii_of_nat (n + 32) else c.

(** Lower case of the ASCII letters, the other bytes kept: what
    [s.toLowerCase()] is on ASCII text. The handlers themselves use the
    runtime's [toLowerCase], below. *)
Fixpoint ascii_toLowerCase (s : string) : string :=
  match s with
  | EmptyString => EmptyString
  | String c rest => String (lower_ascii c) (ascii_toLowerCase rest)
  end.

Fixpoint starts_with (p s : string) : bool :=
  match p, s with
  | EmptyString, _ => true
  | String a p', String b s' => andb (Ascii.eqb a b) (starts_with p' s')
  | String _ _, EmptyString => false
  end.

(** [s.includes(p)] *)
Fixpoint includes (s p : string) : bool :=
  orb (starts_with p s)
      match s with
      | EmptyString => false
      | String _ rest => includes rest p
      end.

(** White space, as [trim()] and the pattern [\s] have it: the characters
    U+0009 to U+000D and U+0020 (one byte each), U+00A0 (two bytes), and
    U+1680, U+2000 to U+200A, U+2028, U+2029, U+202F, U+205F, U+3000 and
    U+FEFF (three bytes each). *)
Definition is_space (c : ascii) : bool :=
  let n := nat_of_ascii c in
  orb (Nat.eqb n 32) (andb (Nat.leb 9 n) (Nat.leb n 13)).

Definition is_space2 (c1 c2 : ascii) : bool :=
  andb (Nat.eqb (nat_of_ascii c1) 194) (Nat.eqb (nat_of_ascii c2) 160).

Definition is_space3 (c1 c2 c3 : ascii) : bool :=
  let n1 := nat_of_ascii c1 in
  let n2 := nat_of_ascii c2 in
  let n3 := nat_of_ascii c3 in
  orb (andb (Nat.eqb n1 225) (andb (Nat.eqb n2 154) (Nat.eqb n3 128)))
 (orb (andb (Nat.eqb n1 226)
            (andb (Nat.eqb n2 128)
                  (orb (andb (Nat.leb 128 n3) (Nat.leb n3 138))
                       (orb (Nat.eqb n3 168) (orb (Nat.eqb n3 169) (Nat.eqb n3 175))))))
 (orb (andb (Nat.eqb n1 226) (andb (Nat.eqb n2 129) (Nat.eqb n3 159)))
 (orb (andb (Nat.eqb n1 227) (andb (Nat.eqb n2 128) (Nat.eqb n3 128)))
      (andb (Nat.eqb n1 239) (andb (Nat.eqb n2 187) (Nat.eqb n3 191)))))).

(** The token read so far, if any, put before the tokens that follow. *)
Definition flush (cur : string) (l : list string) : list string :=
  if String.eqb cur "" then l else cur :: l.

(** The tokens of [s] between runs of white space; [cur] is the token
    being read. *)
Fixpoint tokens (cur : string) (s : string) : list string :=
  match s with
  | EmptyString => flush cur []
  | String c1 rest1 =>
      if is_space c1 then flush cur (tokens "" rest1)
      else
        match rest1 with
        | String c2 rest2 =>
            if is_space2 c1 c2 then flush cur (tokens "" rest2)
            else
              match rest2 with
              | String c3 rest3 =>
                  if is_space3 c1 c2 c3 then flush cur (tokens "" rest3)
                  else tokens (cur ++ String c1 EmptyString) rest1
              | EmptyString => tokens (cur ++ String c1 EmptyString) rest1
              end
        | EmptyString => tokens (cur ++ String c1 EmptyString) rest1
        end
  end.

(** [s.trim().split(/\s+/)]: never empty, a blank string gives [[""]]. *)
Definition trim_split (s : string) : list string :=
  match tokens "" s with
  | [] => [""]
  | l => l
  end.

Fixpoint join (sep : string) (l : list string) : string :=
  match l with
  | [] => ""
  | [x] => x
  | x :: rest => x ++ sep ++ join sep rest
  end.

(** The double quote character, as a string. *)
Definition dquote : string := String (ascii_of_nat 34) EmptyString.

(** The decimal digits of an integer. *)
Definition string_of_Z (z : Z) : string :=
  NilZero.string_of_int (Z.to_int z).

(** ** The host runtime

    The cryptographic digest, the JSON serializer, the relational
    operators on loosely typed operands, the lower case of a string (a
    mapping over all of Unicode) and the digits a number is printed with
    (a number is a double: exponent form from 1e21 on) are the runtime's;
    the handlers are stated for any runtime. *)
Class Runtime := {
  (** [crypto.createHash('sha256').update(s).digest('hex')] *)
  sha256_hex : string -> string;
  (** [JSON.stringify(v)] *)
  JSON_stringify : json -> string;
  (** [a <= b] *)
  js_lessEq : json -> json -> bool;
  (** [a >= b] *)
  js_greaterEq : json -> json -> bool;
  (** [s.toLowerCase()] *)
  toLowerCase : string -> string;
  toLowerCase_empty : toLowerCase "" = "";
  (** [String(n)] for a number [n] *)
  Number_toString : Z -> string }.

(** [String(v)], the coercion of template literals. *)
Fixpoint js_String `{Runtime} (v : json) : string :=
  match v with
  | JUndefined => "undefined"
  | JNull => "null"
  | JBool true => "true"
  | JBool false => "false"
  | JNum n => Number_toString n
  | JStr s => s
  | JArr items =>
      join "," (map (fun x => if nullish x then "" else js_String x) items)
  | JObj _ => "[object Object]"
  end.

(** [parseName]: first token and the rest joined by one space. *)
Definition parseName (fullName : json) : json * json :=
  match fullName with
  | JStr s =>
      if String.eqb s "" then (JNull, JNull)
      else match trim_split s with
           | [x] => (JStr x, JNull)
           | x :: rest => (JStr x, JStr (join " " rest))
           | [] => (JNull, JNull)
           end
  | _ => (JNull, JNull)
  end.

(** ** The store *)

Record user := { user_id : string }.

Record contact := {
  contact_id : string;
  contact_email : json;
  contact_firstName : json;
  contact_lastName : json;
  contact_phone : json;
  contact_userId : json }.

Record pipeline := {
  pipeline_id : string;
  pipeline_name : string;
  pipeline_userId : json }.

Record pipelineStage := {
  stage_id : string;
  stage_name : string;
  stage_order : Z;
  stage_pipelineId : string }.

Record deal := {
  deal_id : string;
  deal_title : json;
  deal_value : json;
  deal_stageId : json;
  deal_pipelineId : json;
  deal_contactId : json;
  deal_userId : json;
  deal_data : json }.

Record activity := {
  activity_id : string;
  activity_type : string;
  activity_note : string;
  activity_contactId : json;
  activity_dealId : json;
  activity_userId : json;
  activity_data : json }.

(** A row of the webhook log. The permissive variant keys it by
    [idempotencyKey], the secured one by [eventId]; [log_key] is that
    column. *)
Record webhookLog := {
  log_id : string;
  log_key : json;
  log_endpoint : string;
  log_payload : json;
  log_status : Z }.

Record workflowAction := {
  action_type : json;
  action_templateId : json;
  action_title : json;
  action_description : json;
  action_dueDate : json;
  action_tag : json;
  action_targetStage : json }.

Record workflow := {
  workflow_id : string;
  workflow_name : string;
  workflow_isActive : bool;
  workflow_triggers : list string;
  workflow_conditions : json;
  workflow_actions : list workflowAction }.

Record task := {
  task_id : string;
  task_title : json;
  task_description : json;
  task_dueDate : json;
  task_assignedTo : json;
  task_contactId : json }.

(** The store, the clock and the failure schedule. Tables are in insertion
    order; [users] is in order of creation. [faults] is consumed one entry
    per storage call: [true] makes that call throw (a connection error, a
    rejected value, a violated constraint), and an exhausted schedule means
    no further failure. *)
Record world := {
  users : list user;
  contacts : list contact;
  pipelines : list pipeline;
  stages : list pipelineStage;
  deals : list deal;
  activities : list activity;
  webhookLogs : list webhookLog;
  workflows : list workflow;
  tasks : list task;
  nextId : nat;
  clock : string;
  faults : list bool }.

(** ** Computations *)

Inductive exn : Type :=
| TypeError (msg : string)
| ReferenceError (msg : string)
| Error (msg : string)
| StorageError (msg : string).

(** [error.message] *)
Definition message (e : exn) : string :=
  match e with
  | TypeError m | ReferenceError m | Error m | StorageError m => m
  end.

Inductive result (A : Type) : Type :=
| Ok (a : A)
| Throw (e : exn).
Arguments Ok {A} a.
Arguments Throw {A} e.

Definition M (A : Type) : Type := world -> result A * world.

Definition ret {A} (a : A) : M A := fun w => (Ok a, w).

Definition throw {A} (e : exn) : M A := fun w => (Throw e, w).

Definition bind {A B} (m : M A) (k : A -> M B) : M B :=
  fun w =>
    match m w with
    | (Ok a, w') => k a w'
    | (Throw e, w') => (Throw e, w')
    end.

(** [try { body } catch (error) { handler }] *)
Definition try_catch {A} (body : M A) (handler : exn -> M A) : M A :=
  fun w =>
    match body w with
    | (Ok a, w') => (Ok a, w')
    | (Throw e, w') => handler e w'
    end.

Declare Scope js_scope.
Delimit Scope js_scope with js.
Notation "x <- m ;; k" := (bind m (fun x => k))
  (at level 61, m at next level, right associativity) : js_scope.
Notation "m ;;; k" := (bind m (fun _ => k))
  (at level 61, right associativity) : js_scope.
Open Scope js_scope.

(** ["undefined"] or ["null"]: how a TypeError names the value a property
    was read of. *)
Definition nullish_name (o : json) : string :=
  match o with
  | JNull => "null"
  | _ => "undefined"
  end.

(** [o.k], which throws on [null] and [undefined]. *)
Definition get (o : json) (k : string) : M json :=
  if nullish o
  then throw (TypeError ("Cannot read properties of " ++ nullish_name o
                           ++ " (reading '" ++ k ++ "')"))
  else ret (prop o k).

(** [o?.k] *)
Definition get_opt (o : json) (k : string) : json :=
  if nullish o then JUndefined else prop o k.

(** [a || b], the right operand evaluated only when needed. *)
Definition or_else (a : M json) (b : M json) : M json :=
  v <- a ;; if truthy v then ret v else b.
Notation "a ||> b" := (or_else a b) (at level 59, right associativity) : js_scope.

Definition js_or (a b : json) : json := if truthy a then a else b.

(** [v.toLowerCase()]: a method of strings only. [what] is the text of
    the expression [v], which the message of the TypeError quotes when [v]
    is a number, a boolean, an array or an object. *)
Definition toLowerCaseM `{Runtime} (what : string) (v : json) : M string :=
  match v with
  | JStr s => ret (toLowerCase s)
  | JUndefined | JNull =>
      throw (TypeError ("Cannot read properties of " ++ nullish_name v
                          ++ " (reading 'toLowerCase')"))
  | _ => throw (TypeError (what ++ ".toLowerCase is not a function"))
  end.

(** A function either returns a response early or goes on with a value. *)
Inductive flow (R A : Type) : Type :=
| Return (r : R)
| Next (a : A).
Arguments Return {R A} r.
Arguments Next {R A} a.

(** [res.status(code).json(body)] *)
Record response := {
  res_status : Z;
  res_body : list (string * json) }.

Definition body_field (r : response) (k : string) : json := assoc k (res_body r).

(** ** Storage calls *)

Definition set_faults (fs : list bool) (w : world) : world :=
  {| users := users w; contacts := contacts w; pipelines := pipelines w;
     stages := stages w; deals := deals w; activities := activities w;
     webhookLogs := webhookLogs w; workflows := workflows w; tasks := tasks w;
     nextId := nextId w; clock := clock w; faults := fs |}.

(** One storage call: it fails when the schedule says so, and otherwise
    runs [op] on the store. *)
Definition storage {A} (op : world -> A * world) : M A :=
  fun w =>
    match faults w with
    | true :: fs => (Throw (StorageError "storage call failed"), set_faults fs w)
    | false :: fs => let (a, w') := op (set_faults fs w) in (Ok a, w')
    | [] => let (a, w') := op w in (Ok a, w')
    end.

Definition query {A} (f : world -> A) : M A := storage (fun w => (f w, w)).

Definition fresh_id (w : world) : string :=
  "id" ++ NilZero.string_of_uint (Nat.to_uint (nextId w)).

(** A [where] condition on one column: an [undefined] value is no
    condition at all. *)
Definition where_eq (col v : json) : bool :=
  match v with
  | JUndefined => true
  | _ => strict_eq col v
  end.

(** [undefined] in the data of a [create] leaves the column [null]. *)
Definition stored (v : json) : json :=
  match v with JUndefined => JNull | _ => v end.

(** [undefined] in the data of an [update] leaves the column as it is. *)
Definition updated (old v : json) : json :=
  match v with JUndefined => old | _ => v end.

Definition set_contacts (l : list contact) (w : world) : world :=
  {| users := users w; contacts := l; pipelines := pipelines w;
     stages := stages w; deals := deals w; activities := activities w;
     webhookLogs := webhookLogs w; workflows := workflows w; tasks := tasks w;
     nextId := nextId w; clock := clock w; faults := faults w |}.

Definition set_pipelines (l : list pipeline) (w : world) : world :=
  {| users := users w; contacts := contacts w; pipelines := l;
     stages := stages w; deals := deals w; activities := activities w;
     webhookLogs := webhookLogs w; workflows := workflows w; tasks := tasks w;
     nextId := nextId w; clock := clock w; faults := faults w |}.

Definition set_stages (l : list pipelineStage) (w : world) : world :=
  {| users := users w; contacts := contacts w; pipelines := pipelines w;
     stages := l; deals := deals w; activities := activities w;
     webhookLogs := webhookLogs w; workflows := workflows w; tasks := tasks w;
     nextId := nextId w; clock := clock w; faults := faults w |}.

Definition set_deals (l : list deal) (w : world) : world :=
  {| users := users w; contacts := contacts w; pipelines := pipelines w;
     stages := stages w; deals := l; activities := activities w;
     webhookLogs := webhookLogs w; workflows := workflows w; tasks := tasks w;
     nextId := nextId w; clock := clock w; faults := faults w |}.

Definition set_activities (l : list activity) (w : world) : world :=
  {| users := users w; contacts := contacts w; pipelines := pipelines w;
     stages := stages w; deals := deals w; activities := l;
     webhookLogs := webhookLogs w; workflows := workflows w; tasks := tasks w;
     nextId := nextId w; clock := clock w; faults := faults w |}.

Definition set_webhookLogs (l : list webhookLog) (w : world) : world :=
  {| users := users w; contacts := contacts w; pipelines := pipelines w;
     stages := stages w; deals := deals w; activities := activities w;
     webhookLogs := l; workflows := workflows w; tasks := tasks w;
     nextId := nextId w; clock := clock w; faults := faults w |}.

Definition set_tasks (l : list task) (w : world) : world :=
  {| users := users w; contacts := contacts w; pipelines := pipelines w;
     stages := stages w; deals := deals w; activities := activities w;
     webhookLogs := webhookLogs w; workflows := workflows w; tasks := l;
     nextId := nextId w; clock := clock w; faults := faults w |}.

Definition bump (n : nat) (w : world) : world :=
  {| users := users w; contacts := contacts w; pipelines := pipelines w;
     stages := stages w; deals := deals w; activities := activities w;
     webhookLogs := webhookLogs w; workflows := workflows w; tasks := tasks w;
     nextId := nextId w + n; clock := clock w; faults := faults w |}.

(** [new Date().toISOString()] *)
Definition now : M string := fun w => (Ok (clock w), w).

(** Rows as the queries return them, with the relations a query includes.
    [ld_stage] is the [stage] relation and [ld_pipeline] the [pipeline]
    relation with its stages; a relation the query does not include is
    [None], as is one whose row is missing. *)
Record loadedDeal := {
  ld_deal : deal;
  ld_stage : option pipelineStage;
  ld_pipeline : option (pipeline * list pipelineStage) }.

Record loadedContact := {
  lc_contact : contact;
  lc_deals : list loadedDeal }.

Definition stages_of (pid : string) (w : world) : list pipelineStage :=
  filter (fun s => String.eqb (stage_pipelineId s) pid) (stages w).

Module prisma.

(** [prisma.user.findUnique({ where: { id } })] *)
Definition user_findUnique (id : json) : M (option user) :=
  query (fun w => find (fun u => is_str id (user_id u)) (users w)).

(** [prisma.user.findFirst({ orderBy: { createdAt: 'asc' } })] *)
Definition user_findFirst : M (option user) :=
  query (fun w => hd_error (users w)).

(** [prisma.contact.findUnique({ where: { email } })] *)
Definition contact_findUnique_email (email : json) : M (option contact) :=
  query (fun w => find (fun c => strict_eq (contact_email c) email) (contacts w)).

Definition contact_patch (firstName lastName phone userId : json) (c : contact)
  : contact :=
  {| contact_id := contact_id c;
     contact_email := contact_email c;
     contact_firstName := updated (contact_firstName c) firstName;
     contact_lastName := updated (contact_lastName c) lastName;
     contact_phone := updated (contact_phone c) phone;
     contact_userId := updated (contact_userId c) userId |}.

(** [prisma.contact.update({ where: { id }, data: { firstName, lastName,
    phone, userId } })]; it throws when no row has that id. *)
Definition contact_update (id : string) (firstName lastName phone userId : json)
  : M contact :=
  c <- storage (fun w =>
         (find (fun c => String.eqb (contact_id c) id) (contacts w),
          set_contacts
            (map (fun c => if String.eqb (contact_id c) id
                           then contact_patch firstName lastName phone userId c
                           else c) (contacts w)) w)) ;;
  match c with
  | Some c => ret (contact_patch firstName lastName phone userId c)
  | None => throw (StorageError "Record to update not found")
  end.

(** [prisma.contact.create({ data: { firstName, lastName, email, phone,
    userId } })] *)
Definition contact_create (firstName lastName email phone userId : json)
  : M contact :=
  storage (fun w =>
    let c := {| contact_id := fresh_id w;
                contact_email := stored email;
                contact_firstName := stored firstName;
                contact_lastName := stored lastName;
                contact_phone := stored phone;
                contact_userId := stored userId |} in
    (c, bump 1 (set_contacts (contacts w ++ [c]) w))).

(** [prisma.pipeline.findFirst({ where: { userId }, include: { stages:
    true } })] *)
Definition pipeline_findFirst (userId : json)
  : M (option (pipeline * list pipelineStage)) :=
  query (fun w =>
    match find (fun p => where_eq (pipeline_userId p) userId) (pipelines w) with
    | Some p => Some (p, stages_of (pipeline_id p) w)
    | None => None
    end).

(** [prisma.pipeline.findUnique({ where: { id }, include: { stages:
    true } })] *)
Definition pipeline_findUnique (id : json)
  : M (option (pipeline * list pipelineStage)) :=
  query (fun w =>
    match find (fun p => is_str id (pipeline_id p)) (pipelines w) with
    | Some p => Some (p, stages_of (pipeline_id p) w)
    | None => None
    end).

(** [prisma.pipeline.create({ data: { name, userId } })] *)
Definition pipeline_create (name : string) (userId : json) : M pipeline :=
  storage (fun w =>
    let p := {| pipeline_id := fresh_id w; pipeline_name := name;
                pipeline_userId := stored userId |} in
    (p, bump 1 (set_pipelines (pipelines w ++ [p]) w))).

Fixpoint number_stages (n : nat) (pid : string) (names : list (string * Z))
  : list pipelineStage :=
  match names with
  | [] => []
  | (name, order) :: rest =>
      {| stage_id := "id" ++ NilZero.string_of_uint (Nat.to_uint n);
         stage_name := name; stage_order := order; stage_pipelineId := pid |}
      :: number_stages (S n) pid rest
  end.

(** [prisma.pipelineStage.createMany({ data })], the rows given as
    (name, order) for one pipeline. *)
Definition pipelineStage_createMany (pid : string) (names : list (string * Z))
  : M unit :=
  storage (fun w =>
    (tt, bump (length names)
           (set_stages (stages w ++ number_stages (nextId w) pid names) w))).

(** [prisma.pipelineStage.findFirst({ where: { name, pipelineId } })] *)
Definition pipelineStage_findFirst (name pipelineId : json)
  : M (option pipelineStage) :=
  query (fun w =>
    find (fun s => andb (where_eq (JStr (stage_name s)) name)
                        (where_eq (JStr (stage_pipelineId s)) pipelineId))
         (stages w)).

(** [prisma.deal.findFirst({ where: { title, pipelineId, userId } })] *)
Definition deal_findFirst (title pipelineId userId : json) : M (option deal) :=
  query (fun w =>
    find (fun d => andb (where_eq (deal_title d) title)
                  (andb (where_eq (deal_pipelineId d) pipelineId)
                        (where_eq (deal_userId d) userId)))
         (deals w)).

Definition pipeline_of (d : deal) (w : world)
  : option (pipeline * list pipelineStage) :=
  match find (fun p => is_str (deal_pipelineId d) (pipeline_id p)) (pipelines w) with
  | Some p => Some (p, stages_of (pipeline_id p) w)
  | None => None
  end.

(** [prisma.deal.findFirst({ where: { id, userId }, include: { pipeline:
    { include: { stages: true } } } })]: the [stage] relation is not
    loaded. *)
Definition deal_findFirst_with_pipeline (id userId : json) : M (option loadedDeal) :=
  query (fun w =>
    match find (fun d => andb (where_eq (JStr (deal_id d)) id)
                              (where_eq (deal_userId d) userId)) (deals w) with
    | Some d => Some {| ld_deal := d; ld_stage := None;
                        ld_pipeline := pipeline_of d w |}
    | None => None
    end).

Definition deal_patch (value stageId contactId userId : json) (d : deal) : deal :=
  {| deal_id := deal_id d;
     deal_title := deal_title d;
     deal_value := updated (deal_value d) value;
     deal_stageId := updated (deal_stageId d) stageId;
     deal_pipelineId := deal_pipelineId d;
     deal_contactId := updated (deal_contactId d) contactId;
     deal_userId := updated (deal_userId d) userId;
     deal_data := deal_data d |}.

(** [prisma.deal.update({ where: { id }, data: { value, stageId,
    contactId, userId } })]; a column absent from [data] is passed as
    [JUndefined]. It throws when no row has that id. *)
Definition deal_update (id : json) (value stageId contactId userId : json)
  : M deal :=
  d <- storage (fun w =>
         (find (fun d => is_str id (deal_id d)) (deals w),
          set_deals
            (map (fun d => if is_str id (deal_id d)
                           then deal_patch value stageId contactId userId d
                           else d) (deals w)) w)) ;;
  match d with
  | Some d => ret (deal_patch value stageId contactId userId d)
  | None => throw (StorageError "Record to update not found")
  end.

(** [prisma.deal.create({ data: { title, value, stageId, pipelineId,
    contactId, userId, data } })] *)
Definition deal_create (title value stageId pipelineId contactId userId data : json)
  : M deal :=
  storage (fun w =>
    let d := {| deal_id := fresh_id w;
                deal_title := stored title;
                deal_value := stored value;
                deal_stageId := stored stageId;
                deal_pipelineId := stored pipelineId;
                deal_contactId := stored contactId;
                deal_userId := stored userId;
                deal_data := stored data |} in
    (d, bump 1 (set_deals (deals w ++ [d]) w))).

(** [prisma.activity.create({ data: { type, note, contactId, dealId,
    userId, data } })] *)
Definition activity_create (type note : string) (contactId dealId userId data : json)
  : M activity :=
  storage (fun w =>
    let a := {| activity_id := fresh_id w;
                activity_type := type;
                activity_note := note;
                activity_contactId := stored contactId;
                activity_dealId := stored dealId;
                activity_userId := stored userId;
                activity_data := stored data |} in
    (a, bump 1 (set_activities (activities w ++ [a]) w))).

(** [prisma.webhookLog.findUnique({ where: { idempotencyKey } })] and
    [{ where: { eventId } }] *)
Definition webhookLog_findUnique (key : json) : M (option webhookLog) :=
  query (fun w => find (fun l => strict_eq (log_key l) key) (webhookLogs w)).

(** [prisma.webhookLog.create({ data: { idempotencyKey | eventId,
    endpoint, payload, status, processedAt } })] *)
Definition webhookLog_create (key : json) (endpoint : string) (payload : json)
    (status : Z) : M webhookLog :=
  storage (fun w =>
    let l := {| log_id := fresh_id w; log_key := stored key;
                log_endpoint := endpoint; log_payload := payload;
                log_status := status |} in
    (l, bump 1 (set_webhookLogs (webhookLogs w ++ [l]) w))).

Definition load_deal (w : world) (d : deal) : loadedDeal :=
  {| ld_deal := d;
     ld_stage := find (fun s => is_str (deal_stageId d) (stage_id s)) (stages w);
     ld_pipeline :=
       match find (fun p => is_str (deal_pipelineId d) (pipeline_id p))
                  (pipelines w) with
       | Some p => Some (p, [])
       | None => None
       end |}.

(** [prisma.contact.findUnique({ where: { id }, include: { deals: {
    include: { stage: true, pipeline: true } }, user: true } })] *)
Definition contact_findUnique_with_deals (id : json) : M (option loadedContact) :=
  query (fun w =>
    match find (fun c => is_str id (contact_id c)) (contacts w) with
    | Some c =>
        Some {| lc_contact := c;
                lc_deals :=
                  map (load_deal w)
                      (filter (fun d => is_str (deal_contactId d) (contact_id c))
                              (deals w)) |}
    | None => None
    end).

(** [prisma.workflow.findMany({ where: { isActive: true, triggers: {
    some: { eventType } } }, include: { triggers: true, actions: true } })] *)
Definition workflow_findMany (eventName : string) : M (list workflow) :=
  query (fun w =>
    filter (fun f => andb (workflow_isActive f)
                          (existsb (String.eqb eventName) (workflow_triggers f)))
           (workflows w)).

(** [prisma.task.create({ data: { title, description, dueDate,
    assignedTo, contactId } })] *)
Definition task_create (title description dueDate assignedTo contactId : json)
  : M task :=
  storage (fun w =>
    let t := {| task_id := fresh_id w;
                task_title := stored title;
                task_description := stored description;
                task_dueDate := stored dueDate;
                task_assignedTo := stored assignedTo;
                task_contactId := stored contactId |} in
    (t, bump 1 (set_tasks (tasks w ++ [t]) w))).

End prisma.

(** [for (const x of l) { body }] *)
Fixpoint for_each {A} (l : list A) (body : A -> M unit) : M unit :=
  match l with
  | [] => ret tt
  | x :: rest => body x ;;; for_each rest body
  end.

(** [v.length] on a value that is neither [null] nor [undefined]. *)
Definition length_of (v : json) : json :=
  match v with
  | JArr items => JNum (Z.of_nat (List.length items))
  | JStr s => JNum (Z.of_nat (String.length s))
  | _ => prop v "length"
  end.

Fixpoint chars (s : string) : list json :=
  match s with
  | EmptyString => []
  | String c rest => JStr (String c EmptyString) :: chars rest
  end.

(** The elements a [for ... of] loop visits; only arrays and strings are
    iterable. [what] is the text of the expression, which the message of
    the TypeError quotes. *)
Definition iterate (what : string) (v : json) : M (list json) :=
  match v with
  | JArr items => ret items
  | JStr s => ret (chars s)
  | _ => throw (TypeError (what ++ " is not iterable"))
  end.

(** ** The automation service *)

Module Automation.
Section WithRuntime.
Context `{Runtime}.

Record triggerResult := { success : bool; result_message : string }.

(** The body of the loop of [evaluateWorkflowConditions]: [Some b] when
    the condition makes the function return [b], [None] when the loop
    goes on. *)
Definition evaluateCondition (contact : loadedContact) (condition : json)
  : M (option bool) :=
  field <- get condition "field" ;;
  if is_str field "deal_value" then
    let dealValue :=
      js_or (match hd_error (lc_deals contact) with
             | Some d => deal_value (ld_deal d)
             | None => JUndefined
             end) (JNum 0) in
    operator <- get condition "operator" ;;
    value <- get condition "value" ;;
    if andb (is_str operator "greater_than") (js_lessEq dealValue value)
    then ret (Some false)
    else if andb (is_str operator "less_than") (js_greaterEq dealValue value)
    then ret (Some false)
    else ret None
  else if is_str field "deal_stage" then
    let dealStage :=
      match hd_error (lc_deals contact) with
      | Some d => match ld_stage d with
                  | Some s => JStr (stage_name s)
                  | None => JUndefined
                  end
      | None => JUndefined
      end in
    operator <- get condition "operator" ;;
    value <- get condition "value" ;;
    if andb (is_str operator "equals") (negb (strict_eq dealStage value))
    then ret (Some false)
    else if andb (is_str operator "contains")
                 (negb (match dealStage with
                        | JStr s => includes s (js_String value)
                        | _ => false
                        end))
    then ret (Some false)
    else ret None
  else ret None.

Fixpoint evaluateConditions (contact : loadedContact) (conditions : list json)
  : M bool :=
  match conditions with
  | [] => ret true
  | condition :: rest =>
      r <- evaluateCondition contact condition ;;
      match r with
      | Some b => ret b
      | None => evaluateConditions contact rest
      end
  end.

Definition evaluateWorkflowConditions (workflow : workflow) (contact : loadedContact)
  : M bool :=
  let conditions := workflow_conditions workflow in
  if negb (truthy conditions) then ret true
  else if negb (truthy (prop conditions "conditions")) then ret true
  else if strict_eq (length_of (prop conditions "conditions")) (JNum 0) then ret true
  else
    l <- iterate "workflow.conditions.conditions" (prop conditions "conditions") ;;
    evaluateConditions contact l.

(** The [switch] of [executeWorkflowActions] for one action: the entry
    it pushes on [results], if any. *)
Definition executeAction (contact : loadedContact) (action : workflowAction)
  : M (list json) :=
  let c := lc_contact contact in
  if is_str (action_type action) "send_email" then
    ret [JObj [("actionType", JStr "send_email"); ("status", JStr "simulated")]]
  else if is_str (action_type action) "create_task" then
    task <- prisma.task_create
              (js_or (action_title action)
                     (JStr ("Task for " ++ js_String (contact_firstName c) ++ " "
                              ++ js_String (contact_lastName c))))
              (js_or (action_description action) (JStr ""))
              (if truthy (action_dueDate action) then action_dueDate action
               else JNull)
              (contact_userId c)
              (JStr (contact_id c)) ;;
    ret [JObj [("actionType", JStr "create_task"); ("status", JStr "success");
               ("taskId", JStr (task_id task))]]
  else if is_str (action_type action) "add_tag" then
    ret [JObj [("actionType", JStr "add_tag"); ("status", JStr "simulated");
               ("tag", action_tag action)]]
  else if is_str (action_type action) "move_deal_stage" then
    match lc_deals contact with
    | deal :: _ =>
        targetStage <- prisma.pipelineStage_findFirst
                         (action_targetStage action)
                         (deal_pipelineId (ld_deal deal)) ;;
        match targetStage with
        | Some targetStage =>
            prisma.deal_update (JStr (deal_id (ld_deal deal)))
              JUndefined (JStr (stage_id targetStage)) JUndefined JUndefined ;;;
            match ld_stage deal with
            | Some stage =>
                ret [JObj [("actionType", JStr "move_deal_stage");
                           ("status", JStr "success");
                           ("fromStage", JStr (stage_name stage));
                           ("toStage", JStr (stage_name targetStage))]]
            | None =>
                throw (TypeError "Cannot read properties of null (reading 'name')")
            end
        | None =>
            ret [JObj [("actionType", JStr "move_deal_stage");
                       ("status", JStr "failed");
                       ("error", JStr "Target stage not found")]]
        end
    | [] => ret []
    end
  else
    ret [JObj [("actionType", action_type action); ("status", JStr "unknown")]].

Fixpoint executeActions (contact : loadedContact) (actions : list workflowAction)
    (results : list json) : M (list json) :=
  match actions with
  | [] => ret results
  | action :: rest =>
      pushed <- try_catch (executeAction contact action)
                  (fun error =>
                     ret [JObj [("actionType", action_type action);
                                ("status", JStr "failed");
                                ("error", JStr (message error))]]) ;;
      executeActions contact rest (results ++ pushed)
  end.

Definition executeWorkflowActions (workflow : workflow) (contact : loadedContact)
  : M json :=
  results <- executeActions contact (workflow_actions workflow) [] ;;
  ret (JObj [("results", JArr results)]).

(** The [try] block of the loop of [triggerWorkflow] for one workflow. *)
Definition runWorkflow (eventName : string) (contact : loadedContact)
    (workflow : workflow) : M unit :=
  conditionsMet <- evaluateWorkflowConditions workflow contact ;;
  if conditionsMet : bool then
    executionResult <- executeWorkflowActions workflow contact ;;
    prisma.activity_create "workflow_executed"
      ("Workflow '" ++ workflow_name workflow
         ++ "' executed successfully for event '" ++ eventName ++ "'")
      (JStr (contact_id (lc_contact contact))) JUndefined
      (contact_userId (lc_contact contact))
      (JObj [("workflowId", JStr (workflow_id workflow));
             ("eventName", JStr eventName);
             ("executionResult", executionResult)]) ;;;
    ret tt
  else ret tt.

(** The [catch] block of that loop. *)
Definition recordFailure (eventName : string) (contact : loadedContact)
    (workflow : workflow) (error : exn) : M unit :=
  prisma.activity_create "workflow_failed"
    ("Workflow '" ++ workflow_name workflow ++ "' failed to execute for event '"
       ++ eventName ++ "': " ++ message error)
    (JStr (contact_id (lc_contact contact))) JUndefined
    (contact_userId (lc_contact contact))
    (JObj [("workflowId", JStr (workflow_id workflow));
           ("eventName", JStr eventName);
           ("error", JStr (message error))]) ;;;
  ret tt.

Definition triggerWorkflow (eventName : string) (contactId : json)
  : M triggerResult :=
  try_catch
    (contact <- prisma.contact_findUnique_with_deals contactId ;;
     match contact with
     | None => ret {| success := false; result_message := "Contact not found" |}
     | Some contact =>
         workflows <- prisma.workflow_findMany eventName ;;
         for_each workflows
           (fun workflow =>
              try_catch (runWorkflow eventName contact workflow)
                        (recordFailure eventName contact workflow)) ;;;
         ret {| success := true;
                result_message :=
                  "Processed "
                    ++ NilZero.string_of_uint (Nat.to_uint (List.length workflows))
                    ++ " workflows for event '" ++ eventName ++ "'" |}
     end)
    (fun error => ret {| success := false; result_message := message error |}).

End WithRuntime.
End Automation.

(** [l.find(pred)] with a callback that may throw. *)
Fixpoint findM {A} (pred : A -> M bool) (l : list A) : M (option A) :=
  match l with
  | [] => ret None
  | x :: rest =>
      b <- pred x ;;
      if b : bool then ret (Some x) else findM pred rest
  end.

(** A reference to a [const] inside its own initializer. *)
Definition before_initialization (name : string) : M json :=
  throw (ReferenceError ("Cannot access '" ++ name ++ "' before initialization")).

Definition respond (code : Z) (body : list (string * json)) : response :=
  {| res_status := code; res_body := body |}.

Definition endpoint : string := "/api/v1/webhooks/iclosed".

(** ** The permissive variant of the controller *)

Module Permissive.
Section WithRuntime.
Context `{Runtime}.

Definition generateIdempotencyKey (payload : json) : M string :=
  timestamp <- now ;;
  ret (sha256_hex (JSON_stringify payload ++ substring 0 10 timestamp)).

Definition isWebhookProcessed (idempotencyKey : string) : M bool :=
  try_catch
    (existingLog <- prisma.webhookLog_findUnique (JStr idempotencyKey) ;;
     ret (match existingLog with Some _ => true | None => false end))
    (fun _ => ret false).

Definition logProcessedWebhook (idempotencyKey : string) (payload : json)
    (status : string) : M unit :=
  try_catch
    (prisma.webhookLog_create (JStr idempotencyKey) endpoint payload
       (if String.eqb status "success" then 200%Z else 500%Z) ;;;
     ret tt)
    (fun _ => ret tt).

Definition received : response :=
  respond 200 [("status", JStr "success"); ("message", JStr "Webhook received")].

(** The user the rows are attached to: the first [try] block of the
    handler. *)
Definition findUser (payload : json) : M (flow response user) :=
  try_catch
    (userId <- get payload "userId" ;;
     user <- (if truthy userId then prisma.user_findUnique userId else ret None) ;;
     user <- match user with
             | Some u => ret (Some u)
             | None => prisma.user_findFirst
             end ;;
     match user with
     | Some u => ret (Next u)
     | None => ret (Return received)
     end)
    (fun _ => ret (Return received)).

(** The contact upsert: [if (email && typeof email === 'string' &&
    email.includes('@')) { try { ... } catch { } }]. *)
Definition processContact (email name phone : json) (user : user) : M unit :=
  match email with
  | JStr e =>
      if andb (truthy email) (includes e "@") then
        try_catch
          (let (firstName, lastName) := parseName name in
           existingContact <- prisma.contact_findUnique_email email ;;
           match existingContact with
           | Some existingContact =>
               prisma.contact_update (contact_id existingContact)
                 (js_or firstName (contact_firstName existingContact))
                 (js_or lastName (contact_lastName existingContact))
                 (js_or phone (contact_phone existingContact))
                 (JStr (user_id user)) ;;;
               ret tt
           | None =>
               prisma.contact_create firstName lastName email phone
                 (JStr (user_id user)) ;;;
               ret tt
           end)
          (fun _ => ret tt)
      else ret tt
  | _ => ret tt
  end.

(** The contact of the deal: looked up by the deal's contact email and
    created when it is missing and that email is not the main one.
    [explicit] is the email the deal itself carries; without it the
    deal's contact email is the main [email] itself. *)
Definition findDealContact (dealData explicit email : json) (user : user)
  : M (option contact) :=
  let dealContactEmail := js_or explicit email in
  if truthy dealContactEmail then
    dealContact <- prisma.contact_findUnique_email dealContactEmail ;;
    match dealContact with
    | Some c => ret (Some c)
    | None =>
        if andb (truthy explicit) (negb (strict_eq explicit email)) then
          contactName <- (get dealData "contactName" ||> get dealData "contact_name"
                            ||> get dealData "ContactName") ;;
          let (firstName, lastName) := parseName contactName in
          contactPhone <- (get dealData "contactPhone" ||> get dealData "contact_phone"
                             ||> get dealData "ContactPhone") ;;
          c <- prisma.contact_create firstName lastName dealContactEmail
                 contactPhone (JStr (user_id user)) ;;
          ret (Some c)
        else ret None
    end
  else ret None.

Definition defaultStages : list (string * Z) :=
  [("Lead", 1%Z); ("Qualified", 2%Z); ("Proposal", 3%Z); ("Negotiation", 4%Z);
   ("Closed Won", 5%Z); ("Closed Lost", 6%Z)].

(** The user's first pipeline with its stages, created with the default
    stages when the user has none. *)
Definition findPipeline (user : user) : M (option (pipeline * list pipelineStage)) :=
  pipeline <- prisma.pipeline_findFirst (JStr (user_id user)) ;;
  match pipeline with
  | Some p => ret (Some p)
  | None =>
      defaultPipeline <- prisma.pipeline_create "Default Pipeline"
                           (JStr (user_id user)) ;;
      prisma.pipelineStage_createMany (pipeline_id defaultPipeline) defaultStages ;;;
      prisma.pipeline_findUnique (JStr (pipeline_id defaultPipeline))
  end.

(** The stage of the deal: by the name in [new_status] on a
    [lead_status_changed] event, else by [dealStageId], else the first
    stage of the pipeline ([undefined], here [None], when it has none). *)
Definition resolveTargetStage (event new_status dealStageId : json)
    (pipelineStages : list pipelineStage) : M (option pipelineStage) :=
  targetStage <-
    (if andb (is_str event "lead_status_changed") (truthy new_status) then
       findM (fun stage =>
                wanted <- toLowerCaseM "dealData.new_status" new_status ;;
                if includes (toLowerCase (stage_name stage)) wanted then ret true
                else
                  wanted' <- toLowerCaseM "dealData.new_status" new_status ;;
                  ret (String.eqb (toLowerCase (stage_name stage)) wanted'))
             pipelineStages
     else ret None) ;;
  let targetStage :=
    match targetStage with
    | Some s => Some s
    | None =>
        if truthy dealStageId
        then find (fun stage => is_str dealStageId (stage_id stage)) pipelineStages
        else None
    end in
  ret (match targetStage with
       | Some s => Some s
       | None => hd_error pipelineStages
       end).

(** [targetStage.id] *)
Definition id_of (targetStage : option pipelineStage) : M json :=
  match targetStage with
  | Some s => ret (JStr (stage_id s))
  | None => throw (TypeError "Cannot read properties of undefined (reading 'id')")
  end.

Definition contact_id_or_null (dealContact : option contact) : json :=
  match dealContact with
  | Some c => JStr (contact_id c)
  | None => JNull
  end.

(** The deal upsert of the handler: find by (title, pipelineId, userId),
    then update or create, with the activity and the automation that
    follow ([email] is only written to the console). *)
Definition upsertDeal (payload dealTitle dealValue email : json)
    (targetStage : option pipelineStage) (pipeline : pipeline)
    (dealContact : option contact) (user : user) : M unit :=
  existingDeal <- prisma.deal_findFirst dealTitle (JStr (pipeline_id pipeline))
                    (JStr (user_id user)) ;;
  match existingDeal with
  | Some existingDeal =>
      stageId <- id_of targetStage ;;
      prisma.deal_update (JStr (deal_id existingDeal)) dealValue stageId
        (contact_id_or_null dealContact) (JStr (user_id user)) ;;;
      match dealContact with
      | Some c =>
          Automation.triggerWorkflow "pipeline_stage_changed" (JStr (contact_id c)) ;;;
          ret tt
      | None => ret tt
      end
  | None =>
      stageId <- id_of targetStage ;;
      prisma.deal_create dealTitle dealValue stageId (JStr (pipeline_id pipeline))
        (contact_id_or_null dealContact) (JStr (user_id user)) JUndefined ;;;
      event <- get payload "event" ;;
      match dealContact with
      | Some c =>
          (if is_str event "call_booked" then
             booking_details <- get payload "booking_details" ;;
             prisma.activity_create "APPOINTMENT_BOOKED"
               ("Appointment booked for " ++ js_String dealTitle)
               (JStr (contact_id c)) JUndefined (JStr (user_id user))
               (JObj [("source", JStr "iClosed via Zapier");
                      ("deal_name", dealTitle);
                      ("booking_details",
                       js_or booking_details (JStr "Details from iClosed payload"))]) ;;;
             ret tt
           else ret tt) ;;;
          Automation.triggerWorkflow "deal_created" (JStr (contact_id c)) ;;;
          ret tt
      | None => ret tt
      end
  end.

(** The body of [if (payload.deal) { try { ... } catch { } }]. *)
Definition processDealBody (payload dealData email : json) (user : user)
  : M (flow response unit) :=
  dealTitle <- (get dealData "title" ||> get dealData "name"
                  ||> get dealData "Title" ||> get dealData "Name") ;;
  dealValue <- (get dealData "value"
                  ||> (dealValue <- before_initialization "dealValue" ;;
                       get dealValue "amount")
                  ||> get dealData "Value" ||> get dealData "Amount"
                  ||> ret (JNum 0)) ;;
  dealStageId <- (get dealData "stageId" ||> get dealData "pipeline_stage_id"
                    ||> get dealData "StageId" ||> get dealData "Pipeline_Stage_Id") ;;
  explicit <- (get dealData "contactEmail" ||> get dealData "contact_email"
                 ||> get dealData "ContactEmail") ;;
  if negb (truthy dealTitle) then ret (Return received)
  else
    dealContact <- findDealContact dealData explicit email user ;;
    pipeline <- findPipeline user ;;
    match pipeline with
    | None =>
        throw (TypeError "Cannot read properties of null (reading 'stages')")
    | Some (pipeline, pipelineStages) =>
        event <- get payload "event" ;;
        new_status <- (if is_str event "lead_status_changed"
                       then get dealData "new_status" else ret JUndefined) ;;
        targetStage <- resolveTargetStage event new_status dealStageId
                         pipelineStages ;;
        upsertDeal payload dealTitle dealValue email targetStage pipeline
          dealContact user ;;;
        ret (Next tt)
    end.

Definition processDeal (payload email : json) (user : user)
  : M (flow response unit) :=
  dealData <- get payload "deal" ;;
  if truthy dealData then
    try_catch (processDealBody payload dealData email user)
              (fun _ => ret (Next tt))
  else ret (Next tt).

(** The [try] block of the handler. *)
Definition handle (body : json) : M response :=
  payload <- (get body "data" ||> get body "payload" ||> ret body) ;;
  idempotencyKey <- generateIdempotencyKey payload ;;
  alreadyProcessed <- isWebhookProcessed idempotencyKey ;;
  if alreadyProcessed : bool then
    ret (respond 200 [("status", JStr "success");
                      ("message", JStr "Duplicate webhook - already processed");
                      ("idempotencyKey", JStr idempotencyKey)])
  else
    email <- ((c <- get payload "contact" ;; ret (get_opt c "email"))
                ||> get payload "email" ||> get payload "Email") ;;
    name <- ((c <- get payload "contact" ;; ret (get_opt c "name"))
               ||> get payload "name" ||> get payload "Name"
               ||> get payload "full_name" ||> get payload "Full_Name") ;;
    phone <- ((c <- get payload "contact" ;; ret (get_opt c "phone"))
                ||> get payload "phone" ||> get payload "Phone"
                ||> get payload "phone_number" ||> get payload "Phone_Number") ;;
    found <- findUser payload ;;
    match found with
    | Return r => ret r
    | Next user =>
        processContact email name phone user ;;;
        done <- processDeal payload email user ;;
        match done with
        | Return r => ret r
        | Next _ =>
            logProcessedWebhook idempotencyKey payload "success" ;;;
            ret (respond 200 [("status", JStr "success");
                              ("message", JStr "Webhook received");
                              ("idempotencyKey", JStr idempotencyKey)])
        end
    end.

(** [handleIncomingWebhook]. In the [catch] block [idempotencyKey] and
    [payload], declared inside the [try] block, are not in scope: the
    call that would log the failure throws before it is made. *)
Definition handleIncomingWebhook (body : json) : M response :=
  try_catch (handle body)
    (fun error =>
       throw (ReferenceError "idempotencyKey is not defined")).

End WithRuntime.
End Permissive.

(** ** The secured variant of the controller *)

Module Secured.
Section WithRuntime.
Context `{Runtime}.

(** A request: the [x-webhook-secret] header, if any, and the parsed
    body. *)
Record request := {
  x_webhook_secret : option string;
  body : json }.

(** [upsertContact], [createDeal], [updateDealStage], [logActivity] and
    [markProcessed] wrap their body in a [try] whose [catch] logs the error
    and throws it again; that wrapper changes nothing and is left out. *)
Definition upsertContact (email firstName lastName phone userId : json)
  : M contact :=
  if negb (truthy email)
  then throw (Error "Email is required for contact operations")
  else
    existingContact <- prisma.contact_findUnique_email email ;;
    match existingContact with
    | Some existingContact =>
        prisma.contact_update (contact_id existingContact)
          (js_or firstName (contact_firstName existingContact))
          (js_or lastName (contact_lastName existingContact))
          (js_or phone (contact_phone existingContact))
          userId
    | None => prisma.contact_create firstName lastName email phone userId
    end.

Definition defaultStages : list (string * Z) :=
  [("New", 1%Z); ("Qualified", 2%Z); ("Proposal", 3%Z); ("Negotiation", 4%Z);
   ("Closed Won", 5%Z); ("Closed Lost", 6%Z)].

Definition createDeal (title value stageId pipelineId contactId userId source : json)
  : M deal :=
  targetPipelineId <-
    (if negb (truthy pipelineId) then
       pipeline <- prisma.pipeline_findFirst userId ;;
       match pipeline with
       | None =>
           defaultPipeline <- prisma.pipeline_create "Default Pipeline" userId ;;
           prisma.pipelineStage_createMany (pipeline_id defaultPipeline)
             defaultStages ;;;
           ret (JStr (pipeline_id defaultPipeline))
       | Some (pipeline, _) => ret (JStr (pipeline_id pipeline))
       end
     else ret pipelineId) ;;
  targetStageId <-
    (if negb (truthy stageId) then
       pipeline <- prisma.pipeline_findUnique targetPipelineId ;;
       match pipeline with
       | Some (_, first :: _) => ret (JStr (stage_id first))
       | _ => ret stageId
       end
     else ret stageId) ;;
  prisma.deal_create title (js_or value (JNum 0)) targetStageId targetPipelineId
    contactId userId (JObj [("source", js_or source (JStr "iClosed"))]).

Definition updateDealStage (dealId stageId : json) : M deal :=
  prisma.deal_update dealId JUndefined stageId JUndefined JUndefined.

Definition logActivity (type note : string) (contactId dealId userId data : json)
  : M activity :=
  prisma.activity_create type note contactId dealId userId data.

Definition isProcessed (eventId : json) : M bool :=
  try_catch
    (if negb (truthy eventId) then ret false
     else
       existingLog <- prisma.webhookLog_findUnique eventId ;;
       ret (match existingLog with Some _ => true | None => false end))
    (fun _ => ret false).

Definition markProcessed (eventId payload : json) : M webhookLog :=
  prisma.webhookLog_create eventId endpoint payload 200%Z.

Definition handleAppointmentBooked (payload : json) (user : user) : M unit :=
  contactData <- (get payload "contact"
                    ||> (d <- get payload "data" ;; ret (get_opt d "contact"))
                    ||> ret (JObj [])) ;;
  email <- (get contactData "email" ||> get payload "email") ;;
  name <- (get contactData "name" ||> get contactData "full_name") ;;
  phone <- (get contactData "phone" ||> get contactData "phone_number") ;;
  let (firstName, lastName) := parseName name in
  contact <- upsertContact email firstName lastName phone (JStr (user_id user)) ;;
  dealData <- (get payload "deal"
                 ||> (d <- get payload "data" ;; ret (get_opt d "deal"))
                 ||> ret (JObj [])) ;;
  dealTitle <- (get dealData "title" ||> get dealData "name"
                  ||> ret (JStr ("Appointment with " ++ js_String name))) ;;
  dealValue <- (get dealData "value" ||> get dealData "amount" ||> ret (JNum 0)) ;;
  deal <- createDeal dealTitle dealValue JUndefined JUndefined
            (JStr (contact_id contact)) (JStr (user_id user)) (JStr "iClosed") ;;
  appointmentTime <- (get payload "appointment_time"
                        ||> (d <- get payload "data" ;;
                             ret (get_opt d "appointment_time"))
                        ||> (t <- now ;; ret (JStr t))) ;;
  bookingDetails <- (get payload "booking_details"
                       ||> (d <- get payload "data" ;;
                            ret (get_opt d "booking_details"))
                       ||> ret (JObj [])) ;;
  logActivity "APPOINTMENT_BOOKED"
    ("Appointment booked for " ++ js_String appointmentTime)
    (JStr (contact_id contact)) (JStr (deal_id deal)) (JStr (user_id user))
    (JObj [("source", JStr "iClosed"); ("appointmentTime", appointmentTime);
           ("dealName", dealTitle); ("bookingDetails", bookingDetails)]) ;;;
  ret tt.

(** The stage whose name is [newStatus] or contains it, in lower case. *)
Definition findStageByStatus (newStatus : json) (pipelineStages : list pipelineStage)
  : M (option pipelineStage) :=
  findM (fun stage =>
           wanted <- toLowerCaseM "newStatus" newStatus ;;
           if String.eqb (toLowerCase (stage_name stage)) wanted then ret true
           else
             wanted' <- toLowerCaseM "newStatus" newStatus ;;
             ret (includes (toLowerCase (stage_name stage)) wanted'))
        pipelineStages.

Definition handleStatusChanged (payload : json) (user : user) : M unit :=
  dealData <- (get payload "deal"
                 ||> (d <- get payload "data" ;; ret (get_opt d "deal"))
                 ||> ret (JObj [])) ;;
  dealId <- (get dealData "id" ||> get dealData "deal_id") ;;
  newStatus <- (get dealData "new_status" ||> get payload "new_status") ;;
  if negb (truthy dealId)
  then throw (Error "Deal ID is required for status_changed event")
  else
    deal <- prisma.deal_findFirst_with_pipeline dealId (JStr (user_id user)) ;;
    match deal with
    | None => throw (Error ("Deal with ID " ++ js_String dealId ++ " not found"))
    | Some deal =>
        pipelineStages <-
          match ld_pipeline deal with
          | Some (_, l) => ret l
          | None =>
              throw (TypeError "Cannot read properties of null (reading 'stages')")
          end ;;
        targetStage <- findStageByStatus newStatus pipelineStages ;;
        match targetStage with
        | None =>
            throw (Error ("Stage with status " ++ dquote ++ js_String newStatus
                            ++ dquote ++ " not found in pipeline"))
        | Some targetStage =>
            updateDealStage dealId (JStr (stage_id targetStage)) ;;;
            previousStatus <-
              match ld_stage deal with
              | Some stage => ret (JStr (stage_name stage))
              | None =>
                  throw (TypeError
                           "Cannot read properties of undefined (reading 'name')")
              end ;;
            changedAt <- now ;;
            logActivity "DEAL_STATUS_CHANGED"
              ("Deal status changed to: " ++ js_String newStatus)
              JUndefined (JStr (deal_id (ld_deal deal))) (JStr (user_id user))
              (JObj [("source", JStr "iClosed");
                     ("previousStatus", previousStatus);
                     ("newStatus", newStatus);
                     ("changedAt", JStr changedAt)]) ;;;
            ret tt
        end
    end.

Definition unauthorized : response :=
  respond 401 [("status", JStr "error");
               ("message", JStr "Unauthorized: Invalid or missing secret token")].

Definition bad_request : response :=
  respond 400 [("status", JStr "error");
               ("message", JStr "Bad Request: Missing event in payload")].

(** [!secretToken || secretToken !== expectedSecret] *)
Definition secret_rejected (secretToken expectedSecret : option string) : bool :=
  match secretToken with
  | None => true
  | Some s =>
      orb (String.eqb s "")
          (match expectedSecret with
           | Some e => negb (String.eqb s e)
           | None => true
           end)
  end.

Definition findUser (payload : json) : M (flow response user) :=
  try_catch
    (userId <- get payload "userId" ;;
     user <- (if truthy userId then prisma.user_findUnique userId else ret None) ;;
     user <- match user with
             | Some u => ret (Some u)
             | None => prisma.user_findFirst
             end ;;
     match user with
     | Some u => ret (Next u)
     | None =>
         ret (Return (respond 500
                [("status", JStr "error");
                 ("message", JStr "Internal Server Error: No users found")]))
     end)
    (fun _ =>
       ret (Return (respond 500
              [("status", JStr "error");
               ("message", JStr "Internal Server Error: Failed to find user")]))).

(** The [switch] on the event type. *)
Definition dispatch (payload event : json) (user : user) : M (flow response unit) :=
  if is_str event "appointment_booked" then
    handleAppointmentBooked payload user ;;; ret (Next tt)
  else if is_str event "status_changed" then
    handleStatusChanged payload user ;;; ret (Next tt)
  else
    ret (Return (respond 200
           [("status", JStr "success");
            ("message", JStr ("Event type " ++ js_String event
                                ++ " received but not processed"))])).

(** The handler after the check of the secret. *)
Definition handle (payload : json) : M response :=
  if negb (truthy payload) then ret bad_request
  else
    event <- get payload "event" ;;
    if negb (truthy event) then ret bad_request
    else
      eventId <- (get payload "event_id"
                    ||> (d <- get payload "data" ;; ret (get_opt d "event_id"))) ;;
      alreadyProcessed <- (if truthy eventId then isProcessed eventId
                           else ret false) ;;
      if alreadyProcessed : bool then
        ret (respond 200 [("status", JStr "success");
                          ("message", JStr "Duplicate event - already processed");
                          ("eventId", eventId)])
      else
        found <- findUser payload ;;
        match found with
        | Return r => ret r
        | Next user =>
            done <- dispatch payload event user ;;
            match done with
            | Return r => ret r
            | Next _ =>
                (if truthy eventId then markProcessed eventId payload ;;; ret tt
                 else ret tt) ;;;
                ret (respond 200
                       [("status", JStr "success");
                        ("message", JStr "Webhook processed successfully");
                        ("eventId", eventId)])
            end
        end.

(** [handleIncomingWebhook]; [ICLOSED_SECRET] is the configured secret,
    [process.env.ICLOSED_SECRET]. *)
Definition handleIncomingWebhook (ICLOSED_SECRET : option string) (req : request)
  : M response :=
  try_catch
    (if secret_rejected (x_webhook_secret req) ICLOSED_SECRET
     then ret unauthorized
     else handle (body req))
    (fun error =>
       ret (respond 500
              [("status", JStr "error");
               ("message", JStr "Internal Server Error: Failed to process webhook");
               ("error", JStr (message error))])).

End WithRuntime.
End Secured.

(** ** A runtime for the examples

    The theorems below hold for every runtime. The examples evaluate the
    handlers with this one: the digest is the identity, the serializer
    prints the value without escaping, the relational operators compare
    numbers, the lower case is that of the ASCII letters, and a number is
    printed with all its digits. *)
Fixpoint serialize (v : json) : string :=
  match v with
  | JUndefined => "undefined"
  | JNull => "null"
  | JBool true => "true"
  | JBool false => "false"
  | JNum n => string_of_Z n
  | JStr s => dquote ++ s ++ dquote
  | JArr items => "[" ++ join "," (map serialize items) ++ "]"
  | JObj fields =>
      "{" ++ join "," (map (fun kv => let (k, x) := kv : string * json in
                                      dquote ++ k ++ dquote ++ ":" ++ serialize x)
                           fields) ++ "}"
  end.

Definition exampleRuntime : Runtime :=
  {| sha256_hex := fun s => s;
     JSON_stringify := serialize;
     js_lessEq := fun a b =>
       match a, b with JNum x, JNum y => Z.leb x y | _, _ => false end;
     js_greaterEq := fun a b =>
       match a, b with JNum x, JNum y => Z.leb y x | _, _ => false end;
     toLowerCase := ascii_toLowerCase;
     toLowerCase_empty := eq_refl;
     Number_toString := string_of_Z |}.

(** The examples and the instances of the theorems are run with it; every
    theorem binds the runtime it is stated for. *)
#[local] Existing Instance exampleRuntime.

(** A store with one user, one pipeline of two stages, and no other row. *)
Definition smallWorld : world :=
  {| users := [{| user_id := "u1" |}];
     contacts := [];
     pipelines := [{| pipeline_id := "p1"; pipeline_name := "Test Pipeline";
                      pipeline_userId := JStr "u1" |}];
     stages := [{| stage_id := "s1"; stage_name := "New"; stage_order := 1;
                   stage_pipelineId := "p1" |};
                {| stage_id := "s2"; stage_name := "Proposal Sent"; stage_order := 2;
                   stage_pipelineId := "p1" |}];
     deals := [];
     activities := [];
     webhookLogs := [];
     workflows := [];
     tasks := [];
     nextId := 0;
     clock := "2025-09-01T10:00:00.000Z";
     faults := [] |}.

Unset Implicit Arguments.

(** * Reasoning about computations *)

(** [wp m Q w]: running [m] in [w] ends in a result and a world that
    satisfy [Q]. *)
Definition wp {A} (m : M A) (Q : result A -> world -> Prop) (w : world) : Prop :=
  Q (fst (m w)) (snd (m w)).

(** [unchanged w w']: the same store and clock; only the failure schedule
    may have been consumed. *)
Definition unchanged (w w' : world) : Prop := exists fs, w' = set_faults fs w.

(** [keeps f w w']: the part [f] of the world is the same. *)
Definition keeps {X} (f : world -> X) (w w' : world) : Prop := f w' = f w.

(** [preserves R m]: whatever [m] does, and however it ends, the world it
    leaves is related by [R] to the one it started in. *)
Definition preserves {A} (R : world -> world -> Prop) (m : M A) : Prop :=
  forall w, R w (snd (m w)).

(** A relation between worlds that computations can be framed by. *)
Class Frame (R : world -> world -> Prop) : Prop := {
  frame_refl : forall w, R w w;
  frame_trans : forall w1 w2 w3, R w1 w2 -> R w2 w3 -> R w1 w3;
  frame_faults : forall fs w, R w (set_faults fs w) }.

Lemma set_faults_same (w : world) : set_faults (faults w) w = w.
Proof. destruct w; reflexivity. Qed.

#[export] Instance Frame_unchanged : Frame unchanged.
Proof.
  split.
  - intros w. exists (faults w). symmetry. apply set_faults_same.
  - intros w1 w2 w3 [fs ->] [fs' ->]. exists fs'. reflexivity.
  - intros fs w. exists fs. reflexivity.
Qed.

Lemma Frame_keeps {X} (f : world -> X) :
  (forall fs w, f (set_faults fs w) = f w) -> Frame (keeps f).
Proof.
  intros Hf. split; unfold keeps.
  - reflexivity.
  - intros w1 w2 w3 H12 H23. congruence.
  - apply Hf.
Qed.

#[export] Instance Frame_contacts : Frame (keeps contacts).
Proof. apply Frame_keeps. reflexivity. Qed.
#[export] Instance Frame_deals : Frame (keeps deals).
Proof. apply Frame_keeps. reflexivity. Qed.
#[export] Instance Frame_activities : Frame (keeps activities).
Proof. apply Frame_keeps. reflexivity. Qed.
#[export] Instance Frame_webhookLogs : Frame (keeps webhookLogs).
Proof. apply Frame_keeps. reflexivity. Qed.

Lemma unchanged_keeps {X} (f : world -> X) (w w' : world) :
  (forall fs w, f (set_faults fs w) = f w) -> unchanged w w' -> f w' = f w.
Proof. intros Hf [fs ->]. apply Hf. Qed.

Section Rules.
Context `{Runtime}.
Context {A B : Type}.

Lemma wp_ret (a : A) Q w : Q (Ok a) w -> wp (ret a) Q w.
Proof. exact (fun q => q). Qed.

Lemma wp_throw (e : exn) (Q : result A -> world -> Prop) w :
  Q (Throw e) w -> wp (throw e) Q w.
Proof. exact (fun q => q). Qed.

Lemma wp_bind (m : M A) (k : A -> M B) Q w :
  wp m (fun r w' => match r with
                    | Ok a => wp (k a) Q w'
                    | Throw e => Q (Throw e) w'
                    end) w ->
  wp (bind m k) Q w.
Proof. unfold wp, bind. destruct (m w) as [[a|e] w']; simpl; auto. Qed.

Lemma wp_try (m : M A) (h : exn -> M A) Q w :
  wp m (fun r w' => match r with
                    | Ok a => Q (Ok a) w'
                    | Throw e => wp (h e) Q w'
                    end) w ->
  wp (try_catch m h) Q w.
Proof. unfold wp, try_catch. destruct (m w) as [[a|e] w']; simpl; auto. Qed.

Lemma wp_conseq (m : M A) (Q Q' : result A -> world -> Prop) w :
  wp m Q w -> (forall r w', Q r w' -> Q' r w') -> wp m Q' w.
Proof. unfold wp. auto. Qed.

(** A storage call either fails, leaving the store as it is, or runs the
    operation on the store. *)
Lemma wp_storage (op : world -> A * world) Q w :
  (forall w0, unchanged w w0 -> Q (Throw (StorageError "storage call failed")) w0) ->
  (forall w0, unchanged w w0 -> Q (Ok (fst (op w0))) (snd (op w0))) ->
  wp (storage op) Q w.
Proof.
  intros Hfail Hrun. unfold wp, storage.
  destruct (faults w) as [|[|] fs] eqn:E.
  - specialize (Hrun w (frame_refl w)). destruct (op w); exact Hrun.
  - apply Hfail. apply frame_faults.
  - specialize (Hrun (set_faults fs w) (frame_faults fs w)).
    destruct (op (set_faults fs w)); exact Hrun.
Qed.

Lemma wp_query (f : world -> A) Q w :
  (forall w0, unchanged w w0 -> Q (Throw (StorageError "storage call failed")) w0) ->
  (forall w0, unchanged w w0 -> Q (Ok (f w0)) w0) ->
  wp (query f) Q w.
Proof. intros Hfail Hrun. apply wp_storage; simpl; auto. Qed.

(** With an empty failure schedule a storage call runs the operation. *)
Lemma storage_no_faults (op : world -> A * world) w :
  faults w = [] -> storage op w = (Ok (fst (op w)), snd (op w)).
Proof. intros E. unfold storage. rewrite E. destruct (op w); reflexivity. Qed.

Context (R : world -> world -> Prop) `{!Frame R}.

Lemma preserves_ret (a : A) : preserves R (ret a).
Proof. intros w. apply frame_refl. Qed.

Lemma preserves_throw (e : exn) : preserves R (@throw A e).
Proof. intros w. apply frame_refl. Qed.

Lemma preserves_bind (m : M A) (k : A -> M B) :
  preserves R m -> (forall a, preserves R (k a)) -> preserves R (bind m k).
Proof.
  intros Hm Hk w. unfold bind. specialize (Hm w).
  destruct (m w) as [[a|e] w']; simpl in *; auto.
  eapply frame_trans; [exact Hm | apply Hk].
Qed.

Lemma preserves_try (m : M A) (h : exn -> M A) :
  preserves R m -> (forall e, preserves R (h e)) -> preserves R (try_catch m h).
Proof.
  intros Hm Hh w. unfold try_catch. specialize (Hm w).
  destruct (m w) as [[a|e] w']; simpl in *; auto.
  eapply frame_trans; [exact Hm | apply Hh].
Qed.

Lemma preserves_storage (op : world -> A * world) :
  (forall w, R w (snd (op w))) -> preserves R (storage op).
Proof.
  intros Hop w. unfold storage.
  destruct (faults w) as [|[|] fs].
  - specialize (Hop w). destruct (op w); exact Hop.
  - apply frame_faults.
  - eapply frame_trans; [apply (frame_faults fs) |].
    specialize (Hop (set_faults fs w)). destruct (op (set_faults fs w)); exact Hop.
Qed.

Lemma preserves_query (f : world -> A) : preserves R (query f).
Proof. apply preserves_storage. intros w. apply frame_refl. Qed.

End Rules.

Lemma preserves_get (R : world -> world -> Prop) `{!Frame R} o k :
  preserves R (get o k).
Proof. unfold get. destruct (nullish o); [apply preserves_throw | apply preserves_ret]; auto. Qed.

Lemma preserves_now (R : world -> world -> Prop) `{!Frame R} : preserves R now.
Proof. intros w. apply frame_refl. Qed.

Lemma preserves_toLowerCaseM `{Runtime} (R : world -> world -> Prop) `{!Frame R}
    what v :
  preserves R (toLowerCaseM what v).
Proof. destruct v; simpl; first [apply preserves_throw | apply preserves_ret]; auto. Qed.

Lemma preserves_for_each (R : world -> world -> Prop) `{!Frame R} {A}
    (l : list A) (body : A -> M unit) :
  (forall x, preserves R (body x)) -> preserves R (for_each l body).
Proof.
  intros Hb. induction l as [|x l IH]; simpl.
  - apply preserves_ret; auto.
  - apply preserves_bind; auto.
Qed.

Lemma preserves_findM (R : world -> world -> Prop) `{!Frame R} {A}
    (pred : A -> M bool) (l : list A) :
  (forall x, preserves R (pred x)) -> preserves R (findM pred l).
Proof.
  intros Hp. induction l as [|x l IH]; simpl.
  - apply preserves_ret; auto.
  - apply preserves_bind; auto. intros [|]; [apply preserves_ret|]; auto.
Qed.

(** One step of a frame proof: the structure of the computation first,
    then a case analysis on what it branches on. *)
Ltac frame_step :=
  first
    [ apply preserves_ret; solve [auto with typeclass_instances]
    | apply preserves_throw; solve [auto with typeclass_instances]
    | apply preserves_get; solve [auto with typeclass_instances]
    | apply preserves_now; solve [auto with typeclass_instances]
    | apply preserves_toLowerCaseM; solve [auto with typeclass_instances]
    | apply preserves_query; solve [auto with typeclass_instances]
    | apply preserves_bind; [auto with typeclass_instances | | intros ?]
    | apply preserves_try; [auto with typeclass_instances | | intros ?]
    | apply preserves_for_each; [auto with typeclass_instances | intros ?]
    | apply preserves_findM; [auto with typeclass_instances | intros ?]
    | apply preserves_storage;
      [auto with typeclass_instances | intros ?; reflexivity]
    | match goal with
      | |- preserves _ (match ?x with _ => _ end) => destruct x
      | |- preserves _ (if ?x then _ else _) => destruct x
      end ].

Ltac frame := repeat frame_step.

Create HintDb js.

#[export] Hint Unfold
  prisma.user_findUnique prisma.user_findFirst prisma.contact_findUnique_email
  prisma.contact_update prisma.contact_create prisma.pipeline_findFirst
  prisma.pipeline_findUnique prisma.pipeline_create prisma.pipelineStage_createMany
  prisma.pipelineStage_findFirst prisma.deal_findFirst
  prisma.deal_findFirst_with_pipeline prisma.deal_update prisma.deal_create
  prisma.activity_create prisma.webhookLog_findUnique prisma.webhookLog_create
  prisma.contact_findUnique_with_deals prisma.workflow_findMany prisma.task_create
  or_else : js.

(** ** The automation service *)

Section AutomationFacts.
Context `{Runtime}.

(** The automation never touches a table other than deals, tasks and
    activities, and of a deal it changes the stage only. *)
Section Frame.
Context `{Runtime}.
Context (R : world -> world -> Prop) `{!Frame R}.
Hypothesis R_deal_update : forall id stageId w,
  R w (set_deals
         (map (fun d => if is_str id (deal_id d)
                        then prisma.deal_patch JUndefined stageId JUndefined JUndefined d
                        else d) (deals w)) w).
Hypothesis R_tasks : forall l w, R w (bump 1 (set_tasks l w)).
Hypothesis R_activities : forall l w, R w (bump 1 (set_activities l w)).

Lemma preserves_evaluateConditions contact l :
  preserves R (Automation.evaluateConditions contact l).
Proof.
  induction l as [|c l IH]; simpl.
  - frame.
  - apply preserves_bind; auto.
    + unfold Automation.evaluateCondition. autounfold with js. frame.
    + intros [b|]; [frame | exact IH].
Qed.

Lemma preserves_evaluateWorkflowConditions workflow contact :
  preserves R (Automation.evaluateWorkflowConditions workflow contact).
Proof.
  unfold Automation.evaluateWorkflowConditions, iterate.
  repeat match goal with
         | |- preserves _ (if ?x then _ else _) => destruct x
         end; try solve [frame].
  apply preserves_bind; auto.
  - frame.
  - intros l. apply preserves_evaluateConditions.
Qed.

Lemma preserves_executeAction contact action :
  preserves R (Automation.executeAction contact action).
Proof.
  unfold Automation.executeAction. autounfold with js.
  repeat first
    [ apply preserves_storage;
      [auto | intros ?; cbn [snd fst];
              first [apply R_deal_update | apply R_tasks | apply R_activities
                    | apply frame_refl]]
    | frame_step ].
Qed.

Lemma preserves_executeActions contact actions results :
  preserves R (Automation.executeActions contact actions results).
Proof.
  revert results. induction actions as [|a l IH]; intros results; simpl.
  - frame.
  - apply preserves_bind; auto.
    apply preserves_try; auto.
    + apply preserves_executeAction.
    + intros e. frame.
Qed.

Lemma preserves_triggerWorkflow eventName contactId :
  preserves R (Automation.triggerWorkflow eventName contactId).
Proof.
  unfold Automation.triggerWorkflow, Automation.runWorkflow, Automation.recordFailure,
    Automation.executeWorkflowActions.
  autounfold with js.
  repeat first
    [ apply preserves_evaluateWorkflowConditions
    | apply preserves_executeActions
    | apply preserves_storage;
      [auto | intros ?; cbn [snd fst];
              first [apply R_deal_update | apply R_tasks | apply R_activities
                    | apply frame_refl]]
    | frame_step ].
Qed.

End Frame.

(** [triggerWorkflow] returns a result object whatever happens inside. *)
Lemma triggerWorkflow_returns eventName contactId w :
  exists r, fst (Automation.triggerWorkflow eventName contactId w) = Ok r.
Proof.
  unfold Automation.triggerWorkflow, try_catch.
  match goal with |- context [match ?m w with _ => _ end] => destruct (m w) as [[r|e] w'] end;
    simpl; eauto.
Qed.

End AutomationFacts.

(** One step of a [wp] proof, chosen by the shape of the computation. *)
Ltac wp_step :=
  lazymatch goal with
  | |- wp (ret _) _ _ => apply wp_ret
  | |- wp (throw _) _ _ => apply wp_throw
  | |- wp (bind _ _) _ _ => apply wp_bind
  | |- wp (try_catch _ _) _ _ => apply wp_try
  | |- wp (query _) _ _ => apply wp_query; intros ? ?
  | |- wp (get _ _) _ _ => unfold get
  | |- wp (or_else _ _) _ _ => unfold or_else
  | |- wp (if ?x then _ else _) _ _ => destruct x eqn:?
  | |- wp (match ?x with _ => _ end) _ _ => destruct x eqn:?
  | |- wp _ _ _ => progress autounfold with js
  end;
  cbv beta iota.

Ltac wp_steps := repeat wp_step.

(** Replaces every world known to be [unchanged] from an earlier one by
    that world with another failure schedule. *)
Ltac chain :=
  repeat match goal with
         | U : unchanged _ _ |- _ => destruct U as [? ->]
         end.

Lemma unchanged_refl w : unchanged w w.
Proof. apply frame_refl. Qed.

(** Closes a goal [unchanged w w'] once [chain] has run. *)
Ltac unch := first [apply unchanged_refl | eexists; reflexivity].

Lemma wp_frame {A} (R : world -> world -> Prop) (m : M A)
    (Q : result A -> world -> Prop) w :
  preserves R m -> (forall r w', R w w' -> Q r w') -> wp m Q w.
Proof. intros Hm HQ. apply HQ. apply Hm. Qed.

(** A computation whose outcome does not matter for what follows. *)
Lemma wp_bind_any {A B} (m : M A) (k : A -> M B) (Q : result B -> world -> Prop) w :
  (forall e w', Q (Throw e) w') -> (forall a w', wp (k a) Q w') ->
  wp (bind m k) Q w.
Proof.
  intros He Hk. apply wp_bind. unfold wp at 1.
  destruct (fst (m w)); [apply Hk | apply He].
Qed.

(** ** The secured variant *)

Section SecuredFacts.
Context `{Runtime}.

Lemma secret_rejected_iff secretToken expectedSecret :
  secretToken = None \/ secretToken <> expectedSecret ->
  Secured.secret_rejected secretToken expectedSecret = true.
Proof.
  unfold Secured.secret_rejected. intros [-> | Hne]; [reflexivity|].
  destruct secretToken as [s|]; [|reflexivity].
  destruct expectedSecret as [e|]; [|apply orb_true_r].
  destruct (String.eqb_spec s e) as [->|]; [congruence|]. apply orb_true_r.
Qed.

End SecuredFacts.

(** C3. A request to the secured endpoint whose [x-webhook-secret] header
    is missing or differs from the configured secret is answered with
    HTTP 401 and the body [{status: "error", message: "Unauthorized: ..."}];
    the world is returned as it was: no storage call is made, so no Contact,
    Deal, Activity or WebhookLog row is created and nothing else changes. *)
Theorem secured_rejects_bad_secret `{RT : Runtime} :
  forall (ICLOSED_SECRET : option string) (req : Secured.request) (w : world),
    Secured.x_webhook_secret req = None
    \/ Secured.x_webhook_secret req <> ICLOSED_SECRET ->
    exists r,
      Secured.handleIncomingWebhook ICLOSED_SECRET req w = (Ok r, w)
      /\ res_status r = 401%Z
      /\ body_field r "status" = JStr "error"
      /\ body_field r "message"
         = JStr ("Unauthorized" ++ ": Invalid or missing secret token").
Proof.
  intros secret req w Hbad.
  exists Secured.unauthorized.
  unfold Secured.handleIncomingWebhook, try_catch.
  rewrite (secret_rejected_iff _ _ Hbad).
  repeat split.
Qed.

Lemma secured_rejects_bad_secret_witness :
  (Some "wrong-secret" <> Some "test-secret")
  /\ exists r,
      Secured.handleIncomingWebhook (Some "test-secret")
        {| Secured.x_webhook_secret := Some "wrong-secret";
           Secured.body := JObj [("event", JStr "appointment_booked")] |}
        smallWorld = (Ok r, smallWorld)
      /\ res_status r = 401%Z
      /\ body_field r "status" = JStr "error"
      /\ body_field r "message"
         = JStr ("Unauthorized" ++ ": Invalid or missing secret token").
Proof.
  split; [discriminate|].
  apply (secured_rejects_bad_secret (Some "test-secret")
           {| Secured.x_webhook_secret := Some "wrong-secret";
              Secured.body := JObj [("event", JStr "appointment_booked")] |}
           smallWorld).
  right. simpl. discriminate.
Defined.

(** Storage calls under an empty failure schedule. *)
Lemma wp_query_ok {A} (f : world -> A) Q w :
  faults w = [] -> Q (Ok (f w)) w -> wp (query f) Q w.
Proof.
  intros E HQ. unfold wp, query. rewrite storage_no_faults by exact E. exact HQ.
Qed.

Lemma wp_storage_ok {A} (op : world -> A * world) Q w :
  faults w = [] -> Q (Ok (fst (op w))) (snd (op w)) -> wp (storage op) Q w.
Proof.
  intros E HQ. unfold wp. rewrite storage_no_faults by exact E. exact HQ.
Qed.

(** One step of a [wp] proof in a world whose failure schedule is empty. *)
Ltac wp_ok_step :=
  lazymatch goal with
  | |- wp (ret _) _ _ => apply wp_ret
  | |- wp (throw _) _ _ => apply wp_throw
  | |- wp (bind _ _) _ _ => apply wp_bind
  | |- wp (try_catch _ _) _ _ => apply wp_try
  | |- wp (query _) _ _ => apply wp_query_ok; [solve [simpl; assumption] |]
  | |- wp (storage _) _ _ => apply wp_storage_ok; [solve [simpl; assumption] |]
  | |- wp (get _ _) _ _ => unfold get
  | |- wp (or_else _ _) _ _ => unfold or_else
  | |- wp (if ?x then _ else _) _ _ => destruct x eqn:?
  | |- wp (match ?x with _ => _ end) _ _ => destruct x eqn:?
  | |- wp _ _ _ => progress autounfold with js
  end;
  cbv beta iota.

Section SecuredSpecs.
Context `{Runtime}.

Lemma isProcessed_spec eventId w :
  wp (Secured.isProcessed eventId)
     (fun r w' => (exists b, r = Ok b) /\ unchanged w w') w.
Proof.
  unfold Secured.isProcessed. autounfold with js.
  wp_steps; chain; split; eauto; unch.
Qed.

Lemma findUser_spec payload w :
  wp (Secured.findUser payload)
     (fun r w' =>
        unchanged w w'
        /\ ((exists u, r = Ok (Next u))
            \/ (exists resp, r = Ok (Return resp) /\ res_status resp = 500%Z
                             /\ body_field resp "error" = JUndefined))) w.
Proof.
  unfold Secured.findUser. autounfold with js.
  wp_steps; chain;
    (split; [unch |]);
    first [ left; eexists; reflexivity
          | right; eexists; repeat split ].
Qed.

Lemma handleAppointmentBooked_keeps_logs payload user :
  preserves (keeps webhookLogs) (Secured.handleAppointmentBooked payload user).
Proof.
  unfold Secured.handleAppointmentBooked, Secured.upsertContact, Secured.createDeal,
    Secured.logActivity.
  autounfold with js. frame.
Qed.

Lemma findStageByStatus_frame R `{!Frame R} newStatus l :
  preserves R (Secured.findStageByStatus newStatus l).
Proof. unfold Secured.findStageByStatus. frame. Qed.

Lemma handleStatusChanged_keeps_logs payload user :
  preserves (keeps webhookLogs) (Secured.handleStatusChanged payload user).
Proof.
  unfold Secured.handleStatusChanged, Secured.updateDealStage, Secured.logActivity,
    Secured.findStageByStatus.
  autounfold with js. frame.
Qed.

End SecuredSpecs.

Section SecuredHandler.
Context `{Runtime}.

Lemma dispatch_spec payload event user w :
  wp (Secured.dispatch payload event user)
     (fun r w' =>
        webhookLogs w' = webhookLogs w
        /\ forall resp, r = Ok (Return resp) ->
             body_field resp "error" = JUndefined /\ unchanged w w') w.
Proof.
  unfold Secured.dispatch.
  destruct (is_str event "appointment_booked").
  - apply wp_bind.
    apply (wp_frame (keeps webhookLogs)); [apply handleAppointmentBooked_keeps_logs|].
    intros [a|e] w' Hk; [apply wp_ret|]; split; auto; discriminate.
  - destruct (is_str event "status_changed").
    + apply wp_bind.
      apply (wp_frame (keeps webhookLogs)); [apply handleStatusChanged_keeps_logs|].
      intros [a|e] w' Hk; [apply wp_ret|]; split; auto; discriminate.
    + apply wp_ret. split; [reflexivity|].
      intros resp [= <-]. split; [reflexivity | apply unchanged_refl].
Qed.

(** What [handle] ends in: a response that embeds no error, or an
    exception thrown before any row of the webhook log was written. *)
Lemma handle_spec payload w :
  wp (Secured.handle payload)
     (fun r w' =>
        match r with
        | Ok resp => body_field resp "error" = JUndefined
        | Throw _ => webhookLogs w' = webhookLogs w
        end) w.
Proof.
  unfold Secured.handle.
  destruct (negb (truthy payload)); [apply wp_ret; reflexivity|].
  apply wp_bind. unfold get at 1.
  destruct (nullish payload) eqn:Hn; [apply wp_throw; reflexivity|].
  apply wp_ret.
  destruct (negb (truthy (prop payload "event"))); [apply wp_ret; reflexivity|].
  apply wp_bind. unfold or_else, get. rewrite Hn.
  apply wp_bind, wp_ret.
  set (eventId := if truthy (prop payload "event_id") then _ else _).
  assert (Hid : wp (if truthy (prop payload "event_id")
                    then ret (prop payload "event_id")
                    else d <- ret (prop payload "data") ;;
                         ret (get_opt d "event_id"))
                   (fun r w' => exists v, r = Ok v /\ w' = w) w).
  { destruct (truthy (prop payload "event_id")); [apply wp_ret; eauto|].
    apply wp_bind, wp_ret, wp_ret. eauto. }
  eapply wp_conseq; [exact Hid|]. clear Hid. cbv beta.
  intros r w' (v & -> & ->). clear eventId.
  apply wp_bind.
  assert (Hp : wp (if truthy v then Secured.isProcessed v else ret false)
                  (fun r w' => (exists b, r = Ok b) /\ unchanged w w') w).
  { destruct (truthy v); [apply isProcessed_spec|].
    apply wp_ret. split; [eauto | apply unchanged_refl]. }
  eapply wp_conseq; [exact Hp|]. clear Hp. cbv beta.
  intros r w1 [[b ->] U1].
  destruct b; [apply wp_ret; reflexivity|].
  apply wp_bind.
  eapply wp_conseq; [apply findUser_spec|]. cbv beta.
  intros r w2 [U2 [[u ->] | (resp & -> & _ & Herr)]]; [|apply wp_ret; exact Herr].
  apply wp_bind.
  eapply wp_conseq; [apply dispatch_spec|]. cbv beta.
  intros r w3 [K3 Hret].
  assert (Hlogs : webhookLogs w3 = webhookLogs w).
  { rewrite K3. chain. reflexivity. }
  destruct r as [[resp|[]]|e]; [apply wp_ret; apply (Hret resp eq_refl) | | exact Hlogs].
  apply wp_bind.
  destruct (truthy v).
  - apply wp_bind. unfold Secured.markProcessed, prisma.webhookLog_create.
    apply wp_storage; intros w4 U4.
    + chain. exact Hlogs.
    + apply wp_ret. apply wp_ret. reflexivity.
  - apply wp_ret. apply wp_ret. reflexivity.
Qed.

(** The secured handler always answers, and an answer that embeds an
    error is a 500 given before any row of the webhook log was written. *)
Lemma secured_answers ICLOSED_SECRET req w :
  exists r w',
    Secured.handleIncomingWebhook ICLOSED_SECRET req w = (Ok r, w')
    /\ (body_field r "error" <> JUndefined ->
        res_status r = 500%Z /\ body_field r "status" = JStr "error"
        /\ webhookLogs w' = webhookLogs w).
Proof.
  unfold Secured.handleIncomingWebhook, try_catch.
  destruct (Secured.secret_rejected _ _).
  - simpl. do 2 eexists. split; [reflexivity|]. intros Hne. exfalso. apply Hne. reflexivity.
  - pose proof (handle_spec (Secured.body req) w) as Hh. unfold wp in Hh.
    destruct (Secured.handle (Secured.body req) w) as [[resp|e] w']; simpl in Hh.
    + do 2 eexists. split; [reflexivity|]. intros Hne. contradiction.
    + simpl. do 2 eexists. split; [reflexivity|]. intros _. repeat split. exact Hh.
Qed.

End SecuredHandler.

(** [payload.event_id || payload.data?.event_id] *)
Definition event_id_of (payload : json) : json :=
  js_or (prop payload "event_id") (get_opt (prop payload "data") "event_id").

(** [payload.deal || payload.data?.deal || {}] *)
Definition deal_data_of (payload : json) : json :=
  js_or (prop payload "deal") (js_or (get_opt (prop payload "data") "deal") (JObj [])).

Section SecuredRuns.
Context `{Runtime}.

Lemma find_all_false {A} (p : A -> bool) (l : list A) :
  (forall x, In x l -> p x = false) -> find p l = None.
Proof.
  induction l as [|x l IH]; simpl; intros Hp; [reflexivity|].
  rewrite (Hp x) by auto. apply IH. auto.
Qed.

Lemma wp_event_id payload w :
  nullish payload = false ->
  wp (get payload "event_id"
        ||> (d <- get payload "data" ;; ret (get_opt d "event_id")))
     (fun r w' => r = Ok (event_id_of payload) /\ w' = w) w.
Proof.
  intros Hn. unfold or_else, get, event_id_of, js_or. rewrite Hn.
  apply wp_bind, wp_ret.
  destruct (truthy (prop payload "event_id")); [apply wp_ret; auto|].
  apply wp_bind, wp_ret, wp_ret. auto.
Qed.

Lemma wp_deal_data payload w :
  nullish payload = false ->
  wp (get payload "deal"
        ||> (d <- get payload "data" ;; ret (get_opt d "deal"))
        ||> ret (JObj []))
     (fun r w' => r = Ok (deal_data_of payload) /\ w' = w) w.
Proof.
  intros Hn. unfold or_else, get, deal_data_of, js_or. rewrite Hn.
  apply wp_bind, wp_ret.
  destruct (truthy (prop payload "deal")); [apply wp_ret; auto|].
  apply wp_bind, wp_bind, wp_ret, wp_ret.
  destruct (truthy (get_opt (prop payload "data") "deal")); apply wp_ret; auto.
Qed.

(** Without storage failures and without a log row for the event, the
    duplicate check lets the delivery through. *)
Lemma not_processed payload w :
  faults w = [] ->
  find (fun l => strict_eq (log_key l) (event_id_of payload)) (webhookLogs w) = None ->
  wp (if truthy (event_id_of payload)
      then Secured.isProcessed (event_id_of payload) else ret false)
     (fun r w' => r = Ok false /\ w' = w) w.
Proof.
  intros Hf Hnone.
  destruct (truthy (event_id_of payload)) eqn:Ht; [|apply wp_ret; auto].
  unfold Secured.isProcessed. rewrite Ht. simpl negb. cbv iota.
  autounfold with js.
  apply wp_try, wp_bind, wp_query_ok; [exact Hf|]. cbv beta iota.
  rewrite Hnone. apply wp_ret. auto.
Qed.

(** Without storage failures and with a user in the store, a user is
    found. *)
Lemma findUser_ok payload w :
  nullish payload = false -> faults w = [] -> users w <> [] ->
  wp (Secured.findUser payload)
     (fun r w' => (exists u, r = Ok (Next u)) /\ w' = w) w.
Proof.
  intros Hn Hf Hu. unfold Secured.findUser, get. rewrite Hn. autounfold with js.
  destruct (users w) as [|u0 us] eqn:E; [congruence|].
  repeat (wp_ok_step; rewrite ?E in *; simpl hd_error in *); try discriminate;
    split; eauto.
Qed.

End SecuredRuns.

(** The user a delivery is attached to when the storage works: the one
    whose id the payload carries, else the first one. *)
Definition resolve_user (payload : json) (w : world) : option user :=
  match (if truthy (prop payload "userId")
         then find (fun u => is_str (prop payload "userId") (user_id u)) (users w)
         else None) with
  | Some u => Some u
  | None => hd_error (users w)
  end.

Section ResolveUser.
Context `{Runtime}.

Lemma truthy_not_nullish v : truthy v = true -> nullish v = false.
Proof. destruct v; simpl; congruence. Qed.

Lemma findUser_resolves payload w :
  nullish payload = false -> faults w = [] ->
  forall u, resolve_user payload w = Some u ->
  Secured.findUser payload w = (Ok (Next u), w).
Proof.
  intros Hn Hf u Hu.
  enough (wp (Secured.findUser payload) (fun r w' => r = Ok (Next u) /\ w' = w) w) as Hwp.
  { unfold wp in Hwp. destruct (Secured.findUser payload w) as [r w'].
    simpl in Hwp. destruct Hwp as [-> ->]. reflexivity. }
  unfold resolve_user in Hu.
  unfold Secured.findUser, get. rewrite Hn.
  apply wp_try, wp_bind, wp_ret, wp_bind.
  destruct (truthy (prop payload "userId")).
  - unfold prisma.user_findUnique. apply wp_query_ok; [exact Hf|]. cbv beta iota.
    destruct (find _ (users w)) as [u'|].
    + injection Hu as ->. apply wp_bind, wp_ret, wp_ret. auto.
    + apply wp_bind. unfold prisma.user_findFirst.
      apply wp_query_ok; [exact Hf|]. rewrite Hu. apply wp_ret. auto.
  - apply wp_ret, wp_bind. unfold prisma.user_findFirst.
    apply wp_query_ok; [exact Hf|]. rewrite Hu. apply wp_ret. auto.
Qed.

Lemma resolve_user_some payload w :
  users w <> [] -> exists u, resolve_user payload w = Some u.
Proof.
  intros Hu. unfold resolve_user.
  destruct (if truthy (prop payload "userId") then _ else _); [eauto|].
  destruct (users w); [congruence | simpl; eauto].
Qed.

End ResolveUser.

Section SecuredDispatch.
Context `{Runtime}.

(** Without storage failures, for a delivery that is no duplicate, [handle]
    comes to the dispatch on the event type with the resolved user, in the
    world it started in. *)
Lemma handle_dispatches payload w user Q :
  truthy payload = true -> truthy (prop payload "event") = true ->
  faults w = [] -> resolve_user payload w = Some user ->
  find (fun l => strict_eq (log_key l) (event_id_of payload)) (webhookLogs w) = None ->
  wp (done <- Secured.dispatch payload (prop payload "event") user ;;
      match done with
      | Return r => ret r
      | Next _ =>
          (if truthy (event_id_of payload)
           then Secured.markProcessed (event_id_of payload) payload ;;; ret tt
           else ret tt) ;;;
          ret (respond 200
                 [("status", JStr "success");
                  ("message", JStr "Webhook processed successfully");
                  ("eventId", event_id_of payload)])
      end) Q w ->
  wp (Secured.handle payload) Q w.
Proof.
  intros Hp He Hf Hu Hlog Hrest.
  pose proof (truthy_not_nullish _ Hp) as Hn.
  unfold Secured.handle. rewrite Hp. simpl negb. cbv iota.
  apply wp_bind. unfold get at 1. rewrite Hn. apply wp_ret.
  rewrite He. simpl negb. cbv iota.
  apply wp_bind.
  eapply wp_conseq; [apply wp_event_id; exact Hn|]. cbv beta.
  intros r w' [-> ->].
  apply wp_bind.
  eapply wp_conseq; [apply not_processed; assumption|]. cbv beta.
  intros r w' [-> ->].
  apply wp_bind. unfold wp at 1.
  rewrite (findUser_resolves payload w Hn Hf user Hu). simpl fst. simpl snd.
  cbv iota. exact Hrest.
Qed.

(** Without storage failures, a status change for a deal id that no deal
    of the store has throws "not found" and leaves the world as it is. *)
Lemma handleStatusChanged_missing_deal payload user w :
  truthy payload = true -> faults w = [] ->
  truthy (prop (deal_data_of payload) "id") = true ->
  (forall d, In d (deals w) ->
             is_str (prop (deal_data_of payload) "id") (deal_id d) = false) ->
  Secured.handleStatusChanged payload user w
  = (Throw (Error ("Deal with ID " ++ js_String (prop (deal_data_of payload) "id")
                     ++ " not found")), w).
Proof.
  intros Hp Hf Hid Hnone.
  pose proof (truthy_not_nullish _ Hp) as Hn.
  set (dealId := prop (deal_data_of payload) "id") in *.
  enough (wp (Secured.handleStatusChanged payload user)
             (fun r w' => r = Throw (Error ("Deal with ID " ++ js_String dealId
                                              ++ " not found")) /\ w' = w) w) as Hwp.
  { unfold wp in Hwp.
    destruct (Secured.handleStatusChanged payload user w) as [r w'].
    simpl in Hwp. destruct Hwp as [-> ->]. reflexivity. }
  unfold Secured.handleStatusChanged.
  apply wp_bind.
  eapply wp_conseq; [apply wp_deal_data; exact Hn|]. cbv beta.
  intros r w' [-> ->].
  assert (Hdn : nullish (deal_data_of payload) = false).
  { destruct (deal_data_of payload); simpl in *; try reflexivity;
      subst dealId; simpl in Hid; discriminate. }
  apply wp_bind. unfold or_else at 1. apply wp_bind.
  unfold get at 1. rewrite Hdn. apply wp_ret. fold dealId. rewrite Hid. apply wp_ret.
  apply wp_bind. unfold or_else at 1. apply wp_bind.
  unfold get at 1. rewrite Hdn. apply wp_ret.
  assert (Hns : forall Q,
             (forall v, Q (Ok v) w) ->
             wp (if truthy (prop (deal_data_of payload) "new_status")
                 then ret (prop (deal_data_of payload) "new_status")
                 else get payload "new_status") Q w).
  { intros Q HQ.
    destruct (truthy (prop (deal_data_of payload) "new_status"));
      [apply wp_ret; apply HQ|].
    unfold get. rewrite Hn. apply wp_ret. apply HQ. }
  apply Hns. intros newStatus. cbv beta iota.
  rewrite Hid. simpl negb. cbv iota.
  autounfold with js.
  apply wp_bind, wp_query_ok; [exact Hf|]. cbv beta iota.
  rewrite find_all_false; [apply wp_throw; auto|].
  intros d Hd. apply andb_false_intro1.
  specialize (Hnone d Hd). unfold is_str in Hnone.
  unfold where_eq. destruct dealId; simpl in *; try discriminate; try reflexivity.
  rewrite String.eqb_sym. exact Hnone.
Qed.

End SecuredDispatch.

(** The answer of the [catch] of the secured handler. *)
Definition failed_to_process (error : exn) : response :=
  respond 500 [("status", JStr "error");
               ("message", JStr "Internal Server Error: Failed to process webhook");
               ("error", JStr (message error))].

(** A [wp] fact that fixes the result and the world, read as an equation. *)
Lemma wp_equation {A} (m : M A) (r : result A) (w w' : world) :
  wp m (fun r0 w0 => r0 = r /\ w0 = w') w -> m w = (r, w').
Proof.
  unfold wp. destruct (m w) as [r0 w0]. simpl. intros [-> ->]. reflexivity.
Qed.

Section SecuredThrows.
Context `{Runtime}.

(** An exception of the event handlers leaves [handle] as it is, with the
    world the handler reached. *)
Lemma handle_throws_in_dispatch payload w w0 user w1 e w2 :
  truthy payload = true -> truthy (prop payload "event") = true ->
  (if truthy (event_id_of payload) then Secured.isProcessed (event_id_of payload)
   else ret false) w = (Ok false, w0) ->
  Secured.findUser payload w0 = (Ok (Next user), w1) ->
  Secured.dispatch payload (prop payload "event") user w1 = (Throw e, w2) ->
  Secured.handle payload w = (Throw e, w2).
Proof.
  intros Hp He Hproc Huser Hdisp.
  pose proof (truthy_not_nullish _ Hp) as Hn.
  apply wp_equation. unfold Secured.handle. rewrite Hp. simpl negb. cbv iota.
  apply wp_bind. unfold get at 1. rewrite Hn. apply wp_ret.
  rewrite He. simpl negb. cbv iota.
  apply wp_bind.
  eapply wp_conseq; [apply wp_event_id; exact Hn|]. cbv beta.
  intros r w' [-> ->].
  apply wp_bind. unfold wp at 1. rewrite Hproc. cbn [fst snd].
  apply wp_bind. unfold wp at 1. rewrite Huser. cbn [fst snd].
  apply wp_bind. unfold wp. rewrite Hdisp. cbn [fst snd]. auto.
Qed.

(** So does a failure of the write of the log row. *)
Lemma handle_throws_at_log payload w w0 user w1 w2 e w3 :
  truthy payload = true -> truthy (prop payload "event") = true ->
  truthy (event_id_of payload) = true ->
  Secured.isProcessed (event_id_of payload) w = (Ok false, w0) ->
  Secured.findUser payload w0 = (Ok (Next user), w1) ->
  Secured.dispatch payload (prop payload "event") user w1 = (Ok (Next tt), w2) ->
  Secured.markProcessed (event_id_of payload) payload w2 = (Throw e, w3) ->
  Secured.handle payload w = (Throw e, w3).
Proof.
  intros Hp He Hid Hproc Huser Hdisp Hlog.
  pose proof (truthy_not_nullish _ Hp) as Hn.
  apply wp_equation. unfold Secured.handle. rewrite Hp. simpl negb. cbv iota.
  apply wp_bind. unfold get at 1. rewrite Hn. apply wp_ret.
  rewrite He. simpl negb. cbv iota.
  apply wp_bind.
  eapply wp_conseq; [apply wp_event_id; exact Hn|]. cbv beta.
  intros r w' [-> ->]. rewrite Hid.
  apply wp_bind. unfold wp at 1. rewrite Hproc. cbn [fst snd].
  apply wp_bind. unfold wp at 1. rewrite Huser. cbn [fst snd].
  apply wp_bind. unfold wp at 1. rewrite Hdisp. cbn [fst snd].
  apply wp_bind, wp_bind. unfold wp. rewrite Hlog. cbn [fst snd]. auto.
Qed.

(** The [catch] of the handler: an exception of [handle] is answered with
    its message. *)
Lemma secured_catches ICLOSED_SECRET req w e w' :
  Secured.secret_rejected (Secured.x_webhook_secret req) ICLOSED_SECRET = false ->
  Secured.handle (Secured.body req) w = (Throw e, w') ->
  Secured.handleIncomingWebhook ICLOSED_SECRET req w = (Ok (failed_to_process e), w')
  /\ webhookLogs w' = webhookLogs w.
Proof.
  intros Hs Hrun. split.
  - unfold Secured.handleIncomingWebhook, try_catch. rewrite Hs, Hrun. reflexivity.
  - pose proof (handle_spec (Secured.body req) w) as Hh. unfold wp in Hh.
    rewrite Hrun in Hh. exact Hh.
Qed.

End SecuredThrows.

(** A booking that the examples run against a failing storage. *)
Definition failingBooking : Secured.request :=
  {| Secured.x_webhook_secret := Some "test-secret";
     Secured.body :=
       JObj [("event", JStr "appointment_booked");
             ("event_id", JStr "E9");
             ("contact", JObj [("email", JStr "a@x.com");
                               ("name", JStr "Ada Lovelace")]);
             ("deal", JObj [("title", JStr "D1"); ("value", JNum 1000)])] |}.

(** C1, as the code has it. In the secured variant every delivery is
    answered, and an answer that embeds an error string is HTTP 500 with
    status "error", given without any row written to the webhook log.
    A delivery that passes the check of the secret and then hits an
    exception [e] is answered with HTTP 500, status "error" and the message
    of [e] in the field [error], and no row is written to the webhook log:
    this holds for every exception that leaves the body of the handler, in
    particular for one thrown by the event handler in the middle of its
    writes (the world is the one the event handler reached: what it wrote
    before the exception remains) and for a failure of the write of the log
    row itself. For instance (storage working, no log row for the event, a
    user in the store) a [status_changed] payload whose deal id no deal has
    is answered with HTTP 500 and the message of the exception, and the
    world is left as it was: no Activity and no stage mutation. *)
Theorem secured_exception_is_500 `{RT : Runtime} :
  (forall ICLOSED_SECRET req w,
      exists r w',
        Secured.handleIncomingWebhook ICLOSED_SECRET req w = (Ok r, w')
        /\ (body_field r "error" <> JUndefined ->
            res_status r = 500%Z /\ body_field r "status" = JStr "error"
            /\ webhookLogs w' = webhookLogs w))
  /\ (forall ICLOSED_SECRET req w e w',
         Secured.secret_rejected (Secured.x_webhook_secret req) ICLOSED_SECRET = false ->
         Secured.handle (Secured.body req) w = (Throw e, w') ->
         Secured.handleIncomingWebhook ICLOSED_SECRET req w
         = (Ok (respond 500
                  [("status", JStr "error");
                   ("message", JStr "Internal Server Error: Failed to process webhook");
                   ("error", JStr (message e))]), w')
         /\ webhookLogs w' = webhookLogs w)
  /\ (forall ICLOSED_SECRET req w w0 user w1 e w2,
         Secured.secret_rejected (Secured.x_webhook_secret req) ICLOSED_SECRET = false ->
         truthy (Secured.body req) = true ->
         truthy (prop (Secured.body req) "event") = true ->
         (if truthy (event_id_of (Secured.body req))
          then Secured.isProcessed (event_id_of (Secured.body req))
          else ret false) w = (Ok false, w0) ->
         Secured.findUser (Secured.body req) w0 = (Ok (Next user), w1) ->
         Secured.dispatch (Secured.body req) (prop (Secured.body req) "event") user w1
         = (Throw e, w2) ->
         Secured.handleIncomingWebhook ICLOSED_SECRET req w
         = (Ok (failed_to_process e), w2)
         /\ webhookLogs w2 = webhookLogs w)
  /\ (forall ICLOSED_SECRET req w w0 user w1 w2 e w3,
         Secured.secret_rejected (Secured.x_webhook_secret req) ICLOSED_SECRET = false ->
         truthy (Secured.body req) = true ->
         truthy (prop (Secured.body req) "event") = true ->
         truthy (event_id_of (Secured.body req)) = true ->
         Secured.isProcessed (event_id_of (Secured.body req)) w = (Ok false, w0) ->
         Secured.findUser (Secured.body req) w0 = (Ok (Next user), w1) ->
         Secured.dispatch (Secured.body req) (prop (Secured.body req) "event") user w1
         = (Ok (Next tt), w2) ->
         Secured.markProcessed (event_id_of (Secured.body req)) (Secured.body req) w2
         = (Throw e, w3) ->
         Secured.handleIncomingWebhook ICLOSED_SECRET req w
         = (Ok (failed_to_process e), w3)
         /\ webhookLogs w3 = webhookLogs w)
  /\ (forall ICLOSED_SECRET req w,
         Secured.secret_rejected (Secured.x_webhook_secret req) ICLOSED_SECRET = false ->
         faults w = [] -> users w <> [] ->
         find (fun l => strict_eq (log_key l) (event_id_of (Secured.body req)))
              (webhookLogs w) = None ->
         prop (Secured.body req) "event" = JStr "status_changed" ->
         truthy (prop (deal_data_of (Secured.body req)) "id") = true ->
         (forall d, In d (deals w) ->
            is_str (prop (deal_data_of (Secured.body req)) "id") (deal_id d) = false) ->
         Secured.handleIncomingWebhook ICLOSED_SECRET req w
         = (Ok (respond 500
                  [("status", JStr "error");
                   ("message", JStr "Internal Server Error: Failed to process webhook");
                   ("error",
                    JStr ("Deal with ID "
                            ++ js_String (prop (deal_data_of (Secured.body req)) "id")
                            ++ " not found"))]), w)).
Proof.
  split; [apply secured_answers|].
  split; [intros secret req w e w' Hs Hrun; apply secured_catches; assumption|].
  split.
  { intros secret req w w0 user w1 e w2 Hs Hp He Hproc Huser Hdisp.
    apply secured_catches; [exact Hs|].
    apply (handle_throws_in_dispatch _ w w0 user w1 e w2); assumption. }
  split.
  { intros secret req w w0 user w1 w2 e w3 Hs Hp He Hid Hproc Huser Hdisp Hlog.
    apply secured_catches; [exact Hs|].
    apply (handle_throws_at_log _ w w0 user w1 w2 e w3); assumption. }
  intros secret req w Hs Hf Hu Hlog Hev Hid Hnone.
  assert (Hp : truthy (Secured.body req) = true).
  { destruct (Secured.body req); simpl in Hev; try discriminate; reflexivity. }
  unfold Secured.handleIncomingWebhook. rewrite Hs.
  enough (wp (Secured.handle (Secured.body req))
             (fun r w' =>
                r = Throw (Error ("Deal with ID "
                            ++ js_String (prop (deal_data_of (Secured.body req)) "id")
                            ++ " not found")) /\ w' = w) w) as Hwp.
  { unfold wp in Hwp. unfold try_catch.
    destruct (Secured.handle (Secured.body req) w) as [r w'].
    simpl in Hwp. destruct Hwp as [-> ->]. reflexivity. }
  destruct (resolve_user_some (Secured.body req) w Hu) as [user Huser].
  apply (handle_dispatches _ _ user); try assumption.
  { rewrite Hev. reflexivity. }
  rewrite Hev. unfold Secured.dispatch. simpl is_str. cbv iota.
  apply wp_bind, wp_bind. unfold wp.
  rewrite handleStatusChanged_missing_deal by assumption.
  simpl. auto.
Qed.

Lemma secured_exception_is_500_witness :
  Secured.handleIncomingWebhook (Some "test-secret")
    {| Secured.x_webhook_secret := Some "test-secret";
       Secured.body := JObj [("event", JStr "status_changed");
                             ("event_id", JStr "E7");
                             ("deal", JObj [("id", JStr "missing");
                                            ("new_status", JStr "New")])] |}
    smallWorld
  = (Ok (respond 500
           [("status", JStr "error");
            ("message", JStr "Internal Server Error: Failed to process webhook");
            ("error", JStr "Deal with ID missing not found")]), smallWorld)
  /\ (exists w2,
        Secured.handleIncomingWebhook (Some "test-secret") failingBooking
          (set_faults [false; false; false; false; true] smallWorld)
        = (Ok (failed_to_process (StorageError "storage call failed")), w2)
        /\ webhookLogs w2 = [])
  /\ (exists w3,
        Secured.handleIncomingWebhook (Some "test-secret") failingBooking
          (set_faults [false; false; false; false; false; false; false; false; true]
             smallWorld)
        = (Ok (failed_to_process (StorageError "storage call failed")), w3)
        /\ webhookLogs w3 = []).
Proof.
  split; [|split].
  - apply (proj2 (proj2 (proj2 (proj2 secured_exception_is_500))) (Some "test-secret")
             {| Secured.x_webhook_secret := Some "test-secret";
                Secured.body := JObj [("event", JStr "status_changed");
                                      ("event_id", JStr "E7");
                                      ("deal", JObj [("id", JStr "missing");
                                                     ("new_status", JStr "New")])] |}
             smallWorld);
      try reflexivity.
    + discriminate.
    + intros d [].
  - eexists.
    eapply (proj1 (proj2 (proj2 secured_exception_is_500)) (Some "test-secret")
              failingBooking
              (set_faults [false; false; false; false; true] smallWorld));
      vm_compute; reflexivity.
  - eexists.
    eapply (proj1 (proj2 (proj2 (proj2 secured_exception_is_500))) (Some "test-secret")
              failingBooking
              (set_faults [false; false; false; false; false; false; false; false; true]
                 smallWorld));
      vm_compute; reflexivity.
Defined.

(** C1, as stated, fails: the delivery below passes authentication and
    shape validation and references a deal id that does not exist; the
    answer is HTTP 500, not 200, and no row is written to the webhook
    log. *)
Lemma missing_deal_is_answered_500 :
  let run :=
    Secured.handleIncomingWebhook (Some "test-secret")
      {| Secured.x_webhook_secret := Some "test-secret";
         Secured.body := JObj [("event", JStr "status_changed");
                               ("deal", JObj [("id", JStr "no-such-deal");
                                              ("new_status", JStr "Proposal Sent")])] |}
      smallWorld in
  fst run
  = Ok (respond 500
          [("status", JStr "error");
           ("message", JStr "Internal Server Error: Failed to process webhook");
           ("error", JStr "Deal with ID no-such-deal not found")])
  /\ webhookLogs (snd run) = [].
Proof. vm_compute. split; reflexivity. Qed.

(** The booking again, the storage failing at the fifth call, after the
    contact is written: the answer is HTTP 500, the contact stays, and
    there is no deal and no log row. *)
Example failed_booking_keeps_contact :
  let run :=
    Secured.handleIncomingWebhook (Some "test-secret") failingBooking
      (set_faults [false; false; false; false; true] smallWorld) in
  fst run = Ok (failed_to_process (StorageError "storage call failed"))
  /\ map contact_email (contacts (snd run)) = [JStr "a@x.com"]
  /\ deals (snd run) = [] /\ webhookLogs (snd run) = [].
Proof. vm_compute. repeat split. Qed.

Section SecuredRule.
Context `{Runtime}.

Definition duplicate_event (eventId : json) : response :=
  respond 200 [("status", JStr "success");
               ("message", JStr "Duplicate event - already processed");
               ("eventId", eventId)].

Definition processed_event (eventId : json) : response :=
  respond 200 [("status", JStr "success");
               ("message", JStr "Webhook processed successfully");
               ("eventId", eventId)].

(** The handler after the duplicate check and the user lookup. *)
Definition dispatch_and_commit (payload : json) (user : user) : M response :=
  done <- Secured.dispatch payload (prop payload "event") user ;;
  match done with
  | Return r => ret r
  | Next _ =>
      (if truthy (event_id_of payload)
       then Secured.markProcessed (event_id_of payload) payload ;;; ret tt
       else ret tt) ;;;
      ret (processed_event (event_id_of payload))
  end.

(** The ways through [handle], under any storage failures: a 400, the
    duplicate answer, a 500 from the user lookup, or the dispatch; before
    the dispatch only the failure schedule is consumed. *)
Lemma handle_rule payload w (Q : result response -> world -> Prop) :
  (truthy payload = false \/ truthy (prop payload "event") = false ->
   Q (Ok Secured.bad_request) w) ->
  (forall w1, unchanged w w1 -> truthy (event_id_of payload) = true ->
              Q (Ok (duplicate_event (event_id_of payload))) w1) ->
  (forall w1 resp, unchanged w w1 -> res_status resp = 500%Z ->
                   body_field resp "error" = JUndefined -> Q (Ok resp) w1) ->
  (forall w1 user, unchanged w w1 -> truthy payload = true ->
                   truthy (prop payload "event") = true ->
                   wp (dispatch_and_commit payload user) Q w1) ->
  wp (Secured.handle payload) Q w.
Proof.
  intros Hbad Hdup Huser Hrest.
  unfold Secured.handle.
  destruct (truthy payload) eqn:Hp; simpl negb; cbv iota;
    [|apply wp_ret; auto].
  pose proof (truthy_not_nullish _ Hp) as Hn.
  apply wp_bind. unfold get at 1. rewrite Hn. apply wp_ret.
  destruct (truthy (prop payload "event")) eqn:He; simpl negb; cbv iota;
    [|apply wp_ret; auto].
  apply wp_bind.
  eapply wp_conseq; [apply wp_event_id; exact Hn|]. cbv beta.
  intros r w' [-> ->].
  apply wp_bind.
  assert (Hproc : wp (if truthy (event_id_of payload)
                      then Secured.isProcessed (event_id_of payload) else ret false)
                     (fun r w' => (exists b, r = Ok b) /\ unchanged w w'
                                  /\ (r = Ok true -> truthy (event_id_of payload) = true))
                     w).
  { destruct (truthy (event_id_of payload)).
    - eapply wp_conseq; [apply isProcessed_spec|]. cbv beta. intuition.
    - apply wp_ret. split; [eauto|]. split; [apply unchanged_refl | discriminate]. }
  eapply wp_conseq; [exact Hproc|]. clear Hproc. cbv beta.
  intros r w1 ([b ->] & U1 & Ht).
  destruct b; [apply wp_ret; apply Hdup; auto|].
  apply wp_bind.
  eapply wp_conseq; [apply findUser_spec|]. cbv beta.
  intros r w2 [U2 [[u ->] | (resp & -> & Hst & Herr)]].
  - apply Hrest; auto. eapply frame_trans; eassumption.
  - apply wp_ret. apply Huser; auto. eapply frame_trans; eassumption.
Qed.

Lemma map_no_match {A} (p : A -> bool) (f : A -> A) (l : list A) :
  find p l = None -> map (fun x => if p x then f x else x) l = l.
Proof.
  induction l as [|x l IH]; simpl; [reflexivity|].
  destruct (p x); [discriminate|]. intros Hn. rewrite IH by exact Hn. reflexivity.
Qed.

Lemma findStageByStatus_world newStatus l w :
  snd (Secured.findStageByStatus newStatus l w) = w.
Proof.
  unfold Secured.findStageByStatus.
  induction l as [|s l IH]; simpl; [reflexivity|].
  unfold bind. destruct newStatus; simpl; try reflexivity.
  destruct (String.eqb _ _); simpl; [reflexivity|].
  destruct (includes _ _); simpl; [reflexivity|]. exact IH.
Qed.

Definition stage_is_undefined : exn :=
  TypeError "Cannot read properties of undefined (reading 'name')".

(** [handleStatusChanged] never completes: it throws on every path, it
    never writes an activity or a log row, and when it has changed the
    deals the exception is the TypeError of [deal.stage.name]. *)
Lemma handleStatusChanged_spec payload user w :
  wp (Secured.handleStatusChanged payload user)
     (fun r w' =>
        activities w' = activities w /\ webhookLogs w' = webhookLogs w
        /\ (exists e, r = Throw e)
        /\ (deals w' <> deals w -> r = Throw stage_is_undefined)) w.
Proof.
  unfold Secured.handleStatusChanged.
  assert (Hstop : forall (e : exn) w0, unchanged w w0 ->
             activities w0 = activities w /\ webhookLogs w0 = webhookLogs w
             /\ (exists e', @Throw unit e = Throw e')
             /\ (deals w0 <> deals w -> @Throw unit e = Throw stage_is_undefined)).
  { intros e w0 U. chain. repeat split; eauto. intros Hne. contradiction Hne. reflexivity. }
  pose proof (unchanged_refl w) as U0.
  repeat (wp_step; try solve [apply Hstop; assumption]).
  all: match goal with
       | Hl : match find ?q (deals ?w1) with _ => _ end = Some ?l |- _ =>
           destruct (find q (deals w1)) as [d|] eqn:Hfind; [|discriminate Hl];
           injection Hl as <-
       end.
  all: match goal with
       | |- wp (Secured.findStageByStatus ?ns ?l) _ ?w1 =>
           pose proof (findStageByStatus_world ns l w1) as Hw;
           unfold wp at 1;
           destruct (Secured.findStageByStatus ns l w1) as [[[t|]|e] w2];
           simpl in Hw; subst w2; simpl fst; simpl snd; cbv beta iota
       end.
  all: try solve [apply Hstop; assumption].
  all: try solve [apply wp_throw; apply Hstop; assumption].
  all: apply wp_bind; unfold Secured.updateDealStage, prisma.deal_update.
  all: apply wp_bind, wp_storage; intros w2 U2; cbv beta iota;
       [apply Hstop; eapply frame_trans; eassumption|].
  all: simpl fst; simpl snd.
  all: match goal with
       | |- context [match find ?q ?l with _ => _ end] =>
           destruct (find q l) eqn:Hupd
       end.
  all: try (apply wp_ret, wp_bind; simpl ld_stage; cbv iota; apply wp_throw;
            chain; simpl; repeat split; eauto).
  all: apply wp_throw; rewrite map_no_match by exact Hupd;
       chain; simpl; repeat split; eauto; intros Hne; contradiction Hne; reflexivity.
Qed.

End SecuredRule.

(** [dealData.new_status || payload.new_status] *)
Definition new_status_of (payload : json) : json :=
  js_or (prop (deal_data_of payload) "new_status") (prop payload "new_status").

(** The stage a status name selects: the first whose name, in lower case,
    equals the status or contains it. *)
Definition stage_by_status `{Runtime} (s : string) (l : list pipelineStage)
  : option pipelineStage :=
  find (fun stage => orb (String.eqb (toLowerCase (stage_name stage)) (toLowerCase s))
                         (includes (toLowerCase (stage_name stage)) (toLowerCase s)))
       l.

Section StatusChanged.
Context `{Runtime}.

Lemma findStageByStatus_string s l w :
  Secured.findStageByStatus (JStr s) l w = (Ok (stage_by_status s l), w).
Proof.
  unfold Secured.findStageByStatus, stage_by_status.
  induction l as [|x l IH]; simpl; [reflexivity|].
  unfold bind, ret. simpl.
  destruct (String.eqb _ _); simpl; [reflexivity|].
  destruct (includes _ _); simpl; [reflexivity|]. exact IH.
Qed.

(** The [stageId] update of [updateDealStage]. *)
Definition move_to_stage (dealId : json) (target : pipelineStage) (w : world) : world :=
  set_deals
    (map (fun d => if is_str dealId (deal_id d)
                   then prisma.deal_patch JUndefined (JStr (stage_id target))
                          JUndefined JUndefined d
                   else d) (deals w)) w.

Definition stage_not_found (newStatus : json) : exn :=
  Error ("Stage with status " ++ dquote ++ js_String newStatus ++ dquote
           ++ " not found in pipeline").

(** Without storage failures, a status change for a deal of the user, the
    new status a string: when the pipeline of the deal has a stage for the
    status the deal is moved and [deal.stage.name] throws; when it has none
    an error is thrown and the world is left as it is. *)
Lemma handleStatusChanged_found payload user w d p l s :
  truthy payload = true -> faults w = [] ->
  truthy (prop (deal_data_of payload) "id") = true ->
  find (fun d => andb (where_eq (JStr (deal_id d)) (prop (deal_data_of payload) "id"))
                      (where_eq (deal_userId d) (JStr (user_id user)))) (deals w)
  = Some d ->
  prisma.pipeline_of d w = Some (p, l) ->
  new_status_of payload = JStr s ->
  Secured.handleStatusChanged payload user w
  = match stage_by_status s l with
    | Some target =>
        (Throw stage_is_undefined,
         move_to_stage (prop (deal_data_of payload) "id") target w)
    | None => (Throw (stage_not_found (JStr s)), w)
    end.
Proof.
  intros Hp Hf Hid Hfind Hpl Hns.
  pose proof (truthy_not_nullish _ Hp) as Hn.
  set (dealId := prop (deal_data_of payload) "id") in *.
  enough (wp (Secured.handleStatusChanged payload user)
             (fun r w' =>
                (r, w') = match stage_by_status s l with
                          | Some target =>
                              (Throw stage_is_undefined, move_to_stage dealId target w)
                          | None => (Throw (stage_not_found (JStr s)), w)
                          end) w) as Hwp.
  { unfold wp in Hwp.
    destruct (Secured.handleStatusChanged payload user w) as [r w'].
    exact Hwp. }
  unfold Secured.handleStatusChanged.
  apply wp_bind.
  eapply wp_conseq; [apply wp_deal_data; exact Hn|]. cbv beta.
  intros r w' [-> ->].
  assert (Hdn : nullish (deal_data_of payload) = false).
  { destruct (deal_data_of payload); simpl in *; try reflexivity;
      subst dealId; simpl in Hid; discriminate. }
  apply wp_bind. unfold or_else at 1. apply wp_bind.
  unfold get at 1. rewrite Hdn. apply wp_ret. fold dealId. rewrite Hid. apply wp_ret.
  apply wp_bind.
  assert (Hnew : wp (get (deal_data_of payload) "new_status" ||> get payload "new_status")
                    (fun r w' => r = Ok (JStr s) /\ w' = w) w).
  { unfold or_else, get. rewrite Hdn, Hn. apply wp_bind, wp_ret.
    unfold new_status_of, js_or in Hns.
    destruct (truthy (prop (deal_data_of payload) "new_status"));
      apply wp_ret; split; congruence. }
  eapply wp_conseq; [exact Hnew|]. clear Hnew. cbv beta.
  intros r w' [-> ->].
  rewrite Hid. simpl negb. cbv iota.
  unfold prisma.deal_findFirst_with_pipeline.
  apply wp_bind, wp_query_ok; [exact Hf|]. cbv beta iota.
  rewrite Hfind, Hpl. simpl ld_pipeline. cbv iota.
  apply wp_bind, wp_ret, wp_bind.
  unfold wp at 1. rewrite findStageByStatus_string. simpl fst. simpl snd.
  destruct (stage_by_status s l) as [target|]; cbv iota; [|apply wp_throw; reflexivity].
  apply wp_bind. unfold Secured.updateDealStage, prisma.deal_update.
  apply wp_bind, wp_storage_ok; [exact Hf|]. simpl fst. simpl snd.
  assert (Hex : exists d', find (fun d0 => is_str dealId (deal_id d0)) (deals w) = Some d').
  { destruct (find (fun d0 => is_str dealId (deal_id d0)) (deals w)) eqn:E; [eauto|].
    exfalso. apply find_some in Hfind. destruct Hfind as [Hin Hd].
    apply (List.find_none _ _ E) in Hin.
    apply andb_prop in Hd. destruct Hd as [Hd _].
    unfold where_eq, is_str in *. destruct dealId; simpl in *; try discriminate.
    rewrite String.eqb_sym in Hin. congruence. }
  destruct Hex as [d' Hd']. rewrite Hd'.
  apply wp_ret, wp_bind. simpl ld_stage. cbv iota.
  apply wp_throw. reflexivity.
Qed.

Lemma handleStatusChanged_moves payload user w d p l s target :
  truthy payload = true -> faults w = [] ->
  truthy (prop (deal_data_of payload) "id") = true ->
  find (fun d => andb (where_eq (JStr (deal_id d)) (prop (deal_data_of payload) "id"))
                      (where_eq (deal_userId d) (JStr (user_id user)))) (deals w)
  = Some d ->
  prisma.pipeline_of d w = Some (p, l) ->
  new_status_of payload = JStr s ->
  stage_by_status s l = Some target ->
  Secured.handleStatusChanged payload user w
  = (Throw stage_is_undefined,
     move_to_stage (prop (deal_data_of payload) "id") target w).
Proof.
  intros Hp Hf Hid Hfind Hpl Hns Htarget.
  rewrite (handleStatusChanged_found payload user w d p l s) by assumption.
  rewrite Htarget. reflexivity.
Qed.

End StatusChanged.

(** A delivery for which the storage works, that is no duplicate, and
    whose status change finds the deal [d] of the resolved user and a stage
    [target] for the new status among the stages [l] of its pipeline. *)
Record moves_deal `{Runtime} (payload : json) (w : world) (target : pipelineStage)
  : Prop := {
  md_faults : faults w = [];
  md_new : find (fun l => strict_eq (log_key l) (event_id_of payload))
                (webhookLogs w) = None;
  md_event : prop payload "event" = JStr "status_changed";
  md_id : truthy (prop (deal_data_of payload) "id") = true;
  md_found : exists u d p l s,
      resolve_user payload w = Some u
      /\ find (fun d => andb (where_eq (JStr (deal_id d))
                                       (prop (deal_data_of payload) "id"))
                             (where_eq (deal_userId d) (JStr (user_id u))))
              (deals w) = Some d
      /\ prisma.pipeline_of d w = Some (p, l)
      /\ new_status_of payload = JStr s
      /\ stage_by_status s l = Some target }.

(** C8. In the secured variant a [status_changed] delivery never ends in
    the success answer: no activity and no row of the webhook log is ever
    written for it, and whenever it has changed the deals table the answer
    is HTTP 500 carrying the TypeError of [deal.stage.name]. When the
    storage works and the deal and the stage are found, the stage update is
    applied and kept, and the answer is that 500. *)
Theorem status_change_is_not_atomic `{RT : Runtime} :
  (forall ICLOSED_SECRET req w,
      Secured.secret_rejected (Secured.x_webhook_secret req) ICLOSED_SECRET = false ->
      prop (Secured.body req) "event" = JStr "status_changed" ->
      exists r w',
        Secured.handleIncomingWebhook ICLOSED_SECRET req w = (Ok r, w')
        /\ activities w' = activities w
        /\ webhookLogs w' = webhookLogs w
        /\ (res_status r = 500%Z
            \/ r = duplicate_event (event_id_of (Secured.body req)))
        /\ (deals w' <> deals w -> r = failed_to_process stage_is_undefined))
  /\ (forall ICLOSED_SECRET req w target,
         Secured.secret_rejected (Secured.x_webhook_secret req) ICLOSED_SECRET = false ->
         moves_deal (Secured.body req) w target ->
         Secured.handleIncomingWebhook ICLOSED_SECRET req w
         = (Ok (failed_to_process stage_is_undefined),
            move_to_stage (prop (deal_data_of (Secured.body req)) "id") target w)).
Proof.
  split.
  - intros secret req w Hs Hev.
    set (payload := Secured.body req) in *.
    unfold Secured.handleIncomingWebhook. rewrite Hs. fold payload.
    enough (wp (Secured.handle payload)
               (fun r w' =>
                  activities w' = activities w /\ webhookLogs w' = webhookLogs w
                  /\ match r with
                     | Ok resp => deals w' = deals w
                                  /\ (res_status resp = 500%Z
                                      \/ resp = duplicate_event (event_id_of payload))
                     | Throw e => deals w' <> deals w -> e = stage_is_undefined
                     end) w) as Hwp.
    { unfold wp in Hwp. unfold try_catch.
      destruct (Secured.handle payload w) as [[resp|e] w']; simpl in Hwp.
      - destruct Hwp as (Ha & Hl & Hd & Hr).
        exists resp, w'. repeat split; auto. intros Hne. contradiction.
      - destruct Hwp as (Ha & Hl & He).
        exists (failed_to_process e), w'. repeat split; auto.
        intros Hne. rewrite (He Hne). reflexivity. }
    apply handle_rule.
    + intros [Hp | He]; exfalso.
      * destruct payload; simpl in Hev, Hp; discriminate.
      * rewrite Hev in He. discriminate.
    + intros w1 U _. chain. repeat split. right. reflexivity.
    + intros w1 resp U Hst _. chain. repeat split. left. exact Hst.
    + intros w1 user U Hp _.
      unfold dispatch_and_commit, Secured.dispatch. rewrite Hev. simpl is_str. cbv iota.
      apply wp_bind, wp_bind.
      eapply wp_conseq; [apply handleStatusChanged_spec|]. cbv beta.
      intros r w2 (Ha & Hl & [e ->] & Hd).
      chain. simpl in *. repeat split; auto.
      intros Hne. specialize (Hd Hne). congruence.
  - intros secret req w target Hs [Hf Hnew Hev Hid (u & d & p & l & s & Hu & Hd & Hp & Hns & Ht)].
    set (payload := Secured.body req) in *.
    assert (Htr : truthy payload = true).
    { destruct payload; simpl in Hev; try discriminate; reflexivity. }
    unfold Secured.handleIncomingWebhook. rewrite Hs. fold payload.
    enough (wp (Secured.handle payload)
               (fun r w' =>
                  r = Throw stage_is_undefined
                  /\ w' = move_to_stage (prop (deal_data_of payload) "id") target w)
               w) as Hwp.
    { unfold wp in Hwp. unfold try_catch.
      destruct (Secured.handle payload w) as [r w'].
      simpl in Hwp. destruct Hwp as [-> ->]. reflexivity. }
    apply (handle_dispatches _ _ u); try assumption.
    { rewrite Hev. reflexivity. }
    rewrite Hev. unfold Secured.dispatch. simpl is_str. cbv iota.
    apply wp_bind, wp_bind. unfold wp.
    rewrite (handleStatusChanged_moves payload u w d p l s target) by assumption.
    simpl. auto.
Qed.

(** [smallWorld] with a contact and a deal in the stage "New". *)
Definition dealWorld : world :=
  set_deals
    [{| deal_id := "d1"; deal_title := JStr "Status Deal"; deal_value := JNum 5000;
        deal_stageId := JStr "s1"; deal_pipelineId := JStr "p1";
        deal_contactId := JStr "c1"; deal_userId := JStr "u1";
        deal_data := JNull |}]
    (set_contacts
       [{| contact_id := "c1"; contact_email := JStr "status@example.com";
           contact_firstName := JStr "Status"; contact_lastName := JStr "User";
           contact_phone := JStr "555-0100"; contact_userId := JStr "u1" |}]
       smallWorld).

Definition statusChangedRequest : Secured.request :=
  {| Secured.x_webhook_secret := Some "test-secret";
     Secured.body := JObj [("event", JStr "status_changed");
                           ("event_id", JStr "status-event-123");
                           ("deal", JObj [("id", JStr "d1");
                                          ("new_status", JStr "Proposal")])] |}.

Lemma status_change_is_not_atomic_witness :
  Secured.handleIncomingWebhook (Some "test-secret") statusChangedRequest dealWorld
  = (Ok (failed_to_process stage_is_undefined),
     move_to_stage (JStr "d1")
       {| stage_id := "s2"; stage_name := "Proposal Sent"; stage_order := 2;
          stage_pipelineId := "p1" |} dealWorld).
Proof.
  apply (proj2 status_change_is_not_atomic (Some "test-secret") statusChangedRequest
           dealWorld);
    [reflexivity|].
  constructor; try reflexivity.
  exists {| user_id := "u1" |}.
  eexists. eexists. eexists. exists "Proposal".
  repeat split; reflexivity.
Defined.

(** The run of the witness, evaluated: the deal is in the new stage, and
    there is no activity and no row of the webhook log. *)
Example status_change_run :
  let run := Secured.handleIncomingWebhook (Some "test-secret") statusChangedRequest
               dealWorld in
  map deal_stageId (deals (snd run)) = [JStr "s2"]
  /\ activities (snd run) = []
  /\ webhookLogs (snd run) = []
  /\ fst run
     = Ok (respond 500
             [("status", JStr "error");
              ("message", JStr "Internal Server Error: Failed to process webhook");
              ("error", JStr "Cannot read properties of undefined (reading 'name')")]).
Proof. vm_compute. repeat split. Qed.

(** ** Duplicate deliveries *)

(** [req.body.data || req.body.payload || req.body] *)
Definition payload_of (body : json) : json :=
  js_or (prop body "data") (js_or (prop body "payload") body).

(** The delivery identifier of the permissive variant: the digest of the
    serialized payload followed by the calendar day. *)
Definition idempotency_key `{Runtime} (payload : json) (w : world) : string :=
  sha256_hex (JSON_stringify payload ++ substring 0 10 (clock w)).

Definition duplicate_webhook (idempotencyKey : string) : response :=
  respond 200 [("status", JStr "success");
               ("message", JStr "Duplicate webhook - already processed");
               ("idempotencyKey", JStr idempotencyKey)].

Section Duplicates.
Context `{Runtime}.

(** A storage call that the failure schedule lets through runs on the
    store as it is. *)
Lemma query_runs {A} (f : world -> A) w :
  hd false (faults w) = false ->
  exists w0, unchanged w w0 /\ query f w = (Ok (f w0), w0).
Proof.
  intros Hhd. unfold query, storage.
  destruct (faults w) as [|[|] fs] eqn:E; simpl in Hhd; try discriminate.
  - exists w. split; [apply unchanged_refl | reflexivity].
  - exists (set_faults fs w). split; [eexists; reflexivity | reflexivity].
Qed.

Lemma wp_payload body w :
  nullish body = false ->
  wp (get body "data" ||> get body "payload" ||> ret body)
     (fun r w' => r = Ok (payload_of body) /\ w' = w) w.
Proof.
  intros Hn. unfold or_else, get, payload_of, js_or. rewrite Hn.
  apply wp_bind, wp_ret.
  destruct (truthy (prop body "data")); [apply wp_ret; auto|].
  apply wp_bind, wp_ret.
  destruct (truthy (prop body "payload")); apply wp_ret; auto.
Qed.

Lemma secured_duplicate ICLOSED_SECRET req w l :
  Secured.secret_rejected (Secured.x_webhook_secret req) ICLOSED_SECRET = false ->
  truthy (prop (Secured.body req) "event") = true ->
  truthy (event_id_of (Secured.body req)) = true ->
  find (fun l => strict_eq (log_key l) (event_id_of (Secured.body req)))
       (webhookLogs w) = Some l ->
  hd false (faults w) = false ->
  exists w',
    Secured.handleIncomingWebhook ICLOSED_SECRET req w
    = (Ok (duplicate_event (event_id_of (Secured.body req))), w')
    /\ unchanged w w'.
Proof.
  intros Hs He Hid Hlog Hhd.
  set (payload := Secured.body req) in *.
  assert (Hp : truthy payload = true).
  { destruct payload; simpl in He; try discriminate; reflexivity. }
  pose proof (truthy_not_nullish _ Hp) as Hn.
  destruct (query_runs
              (fun w => find (fun l => strict_eq (log_key l) (event_id_of payload))
                             (webhookLogs w)) w Hhd) as (w0 & U & Hq).
  exists w0. split; [|exact U].
  unfold Secured.handleIncomingWebhook. rewrite Hs. fold payload.
  enough (wp (Secured.handle payload)
             (fun r w' => r = Ok (duplicate_event (event_id_of payload)) /\ w' = w0) w)
    as Hwp.
  { unfold wp in Hwp. unfold try_catch.
    destruct (Secured.handle payload w) as [r w'].
    simpl in Hwp. destruct Hwp as [-> ->]. reflexivity. }
  unfold Secured.handle. rewrite Hp. simpl negb. cbv iota.
  apply wp_bind. unfold get at 1. rewrite Hn. apply wp_ret.
  rewrite He. simpl negb. cbv iota.
  apply wp_bind.
  eapply wp_conseq; [apply wp_event_id; exact Hn|]. cbv beta.
  intros r w' [-> ->].
  apply wp_bind. rewrite Hid.
  unfold Secured.isProcessed. rewrite Hid. simpl negb. cbv iota.
  unfold prisma.webhookLog_findUnique.
  apply wp_try, wp_bind. unfold wp at 1. rewrite Hq. simpl fst. simpl snd. cbv iota.
  destruct U as [fs ->]. simpl webhookLogs. rewrite Hlog.
  apply wp_ret, wp_ret. auto.
Qed.

Lemma permissive_duplicate body w l :
  nullish body = false ->
  find (fun l => strict_eq (log_key l)
                   (JStr (idempotency_key (payload_of body) w)))
       (webhookLogs w) = Some l ->
  hd false (faults w) = false ->
  exists w',
    Permissive.handleIncomingWebhook body w
    = (Ok (duplicate_webhook (idempotency_key (payload_of body) w)), w')
    /\ unchanged w w'.
Proof.
  intros Hn Hlog Hhd.
  set (key := idempotency_key (payload_of body) w) in *.
  destruct (query_runs
              (fun w => find (fun l => strict_eq (log_key l) (JStr key))
                             (webhookLogs w)) w Hhd) as (w0 & U & Hq).
  exists w0. split; [|exact U].
  unfold Permissive.handleIncomingWebhook.
  enough (wp (Permissive.handle body)
             (fun r w' => r = Ok (duplicate_webhook key) /\ w' = w0) w) as Hwp.
  { unfold wp in Hwp. unfold try_catch.
    destruct (Permissive.handle body w) as [r w'].
    simpl in Hwp. destruct Hwp as [-> ->]. reflexivity. }
  unfold Permissive.handle.
  apply wp_bind.
  eapply wp_conseq; [apply wp_payload; exact Hn|]. cbv beta.
  intros r w' [-> ->].
  apply wp_bind. unfold Permissive.generateIdempotencyKey.
  apply wp_bind. unfold wp at 1, now. simpl fst. simpl snd. cbv iota.
  apply wp_ret. fold (idempotency_key (payload_of body) w). fold key.
  apply wp_bind. unfold Permissive.isWebhookProcessed, prisma.webhookLog_findUnique.
  apply wp_try, wp_bind. unfold wp at 1. rewrite Hq. simpl fst. simpl snd. cbv iota.
  destruct U as [fs ->]. simpl webhookLogs. rewrite Hlog.
  apply wp_ret, wp_ret. auto.
Qed.

End Duplicates.

Section ProcessedThenDuplicate.
Context `{Runtime}.

(** The answer the dispatch itself gives has two fields. *)
Lemma dispatch_answer payload event user w :
  wp (Secured.dispatch payload event user)
     (fun r _ => forall resp, r = Ok (Return resp) ->
                              List.length (res_body resp) = 2) w.
Proof.
  unfold Secured.dispatch.
  destruct (is_str event "appointment_booked").
  - apply wp_bind_any; [intros e w' resp [=]|]. intros a w'. apply wp_ret.
    intros resp [=].
  - destruct (is_str event "status_changed").
    + apply wp_bind_any; [intros e w' resp [=]|]. intros a w'. apply wp_ret.
      intros resp [=].
    + apply wp_ret. intros resp [= <-]. reflexivity.
Qed.

Lemma find_app_last {A} (p : A -> bool) (l : list A) (x : A) :
  p x = true -> exists y, find p (l ++ [x])%list = Some y.
Proof.
  intros Hx. induction l as [|a l IH]; simpl.
  - rewrite Hx. eauto.
  - destruct (p a); eauto.
Qed.

(** The success answer of the secured variant with an event id is given
    only once the log row of that id is written. *)
Lemma processed_means_logged ICLOSED_SECRET req id w w' :
  Secured.handleIncomingWebhook ICLOSED_SECRET req w
  = (Ok (processed_event (JStr id)), w') ->
  id <> "" ->
  Secured.secret_rejected (Secured.x_webhook_secret req) ICLOSED_SECRET = false
  /\ truthy (prop (Secured.body req) "event") = true
  /\ event_id_of (Secured.body req) = JStr id
  /\ exists l, find (fun l => strict_eq (log_key l) (JStr id)) (webhookLogs w') = Some l.
Proof.
  intros Hrun Hid.
  unfold Secured.handleIncomingWebhook, try_catch in Hrun.
  destruct (Secured.secret_rejected _ _); [discriminate Hrun|].
  split; [reflexivity|].
  set (payload := Secured.body req) in *.
  assert (Hwp : wp (Secured.handle payload)
            (fun r w' =>
               r = Ok (processed_event (JStr id)) ->
               truthy (prop payload "event") = true
               /\ event_id_of payload = JStr id
               /\ exists l, find (fun l => strict_eq (log_key l) (JStr id))
                                 (webhookLogs w') = Some l) w).
  { apply handle_rule.
    - intros _ [=].
    - intros w1 _ _ [=].
    - intros w1 resp _ Hst _ [= ->]. discriminate Hst.
    - intros w1 user _ _ He. unfold dispatch_and_commit.
      apply wp_bind.
      eapply wp_conseq; [apply dispatch_answer|]. cbv beta.
      intros [[resp|[]]|e] w2 Hd; [| |intros [=]].
      + apply wp_ret. intros [= ->]. specialize (Hd _ eq_refl). discriminate Hd.
      + apply wp_bind.
        destruct (truthy (event_id_of payload)) eqn:Ht.
        * unfold Secured.markProcessed, prisma.webhookLog_create.
          apply wp_bind, wp_storage; intros w3 U3; cbv beta iota; [intros [=]|].
          cbn [fst snd]. apply wp_ret, wp_ret. intros [= Heid].
          split; [exact He|]. split; [exact Heid|].
          simpl webhookLogs. apply find_app_last.
          simpl log_key. rewrite Heid. simpl. apply String.eqb_refl.
        * apply wp_ret, wp_ret. intros [= Heid]. rewrite Heid in Ht.
          simpl in Ht. apply negb_false_iff, String.eqb_eq in Ht. congruence. }
  unfold wp in Hwp.
  destruct (Secured.handle payload w) as [[resp|e] w0]; simpl in Hwp.
  - injection Hrun as -> ->. apply Hwp. reflexivity.
  - discriminate Hrun.
Qed.

End ProcessedThenDuplicate.

(** C2. A delivery whose identifier (the [event_id] of the secured
    variant, the digest of the serialized payload and the day of the
    permissive one) already has a row in the webhook log, the lookup of
    that row not failing, is answered with HTTP 200 and the duplicate
    message, and the store is left as it was: the contacts, deals and
    activities are the same, so a second delivery adds no row. In
    particular, in the secured variant, a delivery with an event id that
    was answered as processed is answered as a duplicate when it comes
    again. *)
Theorem duplicate_delivery_is_not_processed :
  (forall (R : Runtime) ICLOSED_SECRET req w l,
      Secured.secret_rejected (Secured.x_webhook_secret req) ICLOSED_SECRET = false ->
      truthy (prop (Secured.body req) "event") = true ->
      truthy (event_id_of (Secured.body req)) = true ->
      find (fun l => strict_eq (log_key l) (event_id_of (Secured.body req)))
           (webhookLogs w) = Some l ->
      hd false (faults w) = false ->
      exists w',
        Secured.handleIncomingWebhook ICLOSED_SECRET req w
        = (Ok (duplicate_event (event_id_of (Secured.body req))), w')
        /\ unchanged w w'
        /\ contacts w' = contacts w /\ deals w' = deals w
        /\ activities w' = activities w)
  /\ (forall (R : Runtime) body w l,
         nullish body = false ->
         find (fun l => strict_eq (log_key l)
                          (JStr (idempotency_key (payload_of body) w)))
              (webhookLogs w) = Some l ->
         hd false (faults w) = false ->
         exists w',
           Permissive.handleIncomingWebhook body w
           = (Ok (duplicate_webhook (idempotency_key (payload_of body) w)), w')
           /\ unchanged w w'
           /\ contacts w' = contacts w /\ deals w' = deals w
           /\ activities w' = activities w)
  /\ (forall (R : Runtime) ICLOSED_SECRET req id w w1,
         Secured.handleIncomingWebhook ICLOSED_SECRET req w
         = (Ok (processed_event (JStr id)), w1) ->
         id <> "" ->
         hd false (faults w1) = false ->
         exists w2,
           Secured.handleIncomingWebhook ICLOSED_SECRET req w1
           = (Ok (duplicate_event (JStr id)), w2)
           /\ unchanged w1 w2
           /\ contacts w2 = contacts w1 /\ deals w2 = deals w1
           /\ activities w2 = activities w1).
Proof.
  split; [|split].
  - intros R secret req w l Hs He Hid Hlog Hhd.
    destruct (secured_duplicate secret req w l Hs He Hid Hlog Hhd) as (w' & Hrun & U).
    exists w'. split; [exact Hrun|]. split; [exact U|].
    destruct U as [fs ->]. repeat split.
  - intros R body w l Hn Hlog Hhd.
    destruct (permissive_duplicate body w l Hn Hlog Hhd) as (w' & Hrun & U).
    exists w'. split; [exact Hrun|]. split; [exact U|].
    destruct U as [fs ->]. repeat split.
  - intros R secret req id w w1 Hrun Hid Hhd.
    destruct (processed_means_logged secret req id w w1 Hrun Hid)
      as (Hs & He & Heid & l & Hl).
    assert (Ht : truthy (event_id_of (Secured.body req)) = true).
    { rewrite Heid. simpl. apply negb_true_iff, String.eqb_neq. exact Hid. }
    rewrite <- Heid in Hl.
    destruct (secured_duplicate secret req w1 l Hs He Ht Hl Hhd) as (w2 & Hrun2 & U).
    exists w2. rewrite <- Heid. split; [exact Hrun2|]. split; [exact U|].
    destruct U as [fs ->]. repeat split.
Qed.

(** The status code and the message of the response a run ends in. *)
Definition res_status_of (run : result response * world) : option Z :=
  match fst run with
  | Ok r => Some (res_status r)
  | Throw _ => None
  end.

Definition message_of (run : result response * world) : option json :=
  match fst run with
  | Ok r => Some (body_field r "message")
  | Throw _ => None
  end.

(** The booking of the specification's scenario. *)
Definition bookingRequest : Secured.request :=
  {| Secured.x_webhook_secret := Some "test-secret";
     Secured.body :=
       JObj [("event", JStr "appointment_booked");
             ("event_id", JStr "E1");
             ("contact", JObj [("email", JStr "a@x.com");
                               ("name", JStr "Ada Lovelace")]);
             ("deal", JObj [("title", JStr "D1"); ("value", JNum 1000)])] |}.

Definition afterBooking : world :=
  snd (Secured.handleIncomingWebhook (Some "test-secret") bookingRequest smallWorld).

Lemma duplicate_delivery_is_not_processed_witness :
  exists w2,
    Secured.handleIncomingWebhook (Some "test-secret") bookingRequest afterBooking
    = (Ok (duplicate_event (JStr "E1")), w2)
    /\ unchanged afterBooking w2
    /\ contacts w2 = contacts afterBooking /\ deals w2 = deals afterBooking
    /\ activities w2 = activities afterBooking.
Proof.
  apply (proj2 (proj2 duplicate_delivery_is_not_processed) exampleRuntime
           (Some "test-secret") bookingRequest "E1" smallWorld afterBooking).
  - vm_compute. reflexivity.
  - discriminate.
  - reflexivity.
Defined.

(** The scenario in full: the first delivery creates the contact, the deal
    in the stage "New" with its source, the activity and the log row; the
    second is answered as a duplicate and changes nothing. *)
Example booking_twice :
  let first := Secured.handleIncomingWebhook (Some "test-secret") bookingRequest
                 smallWorld in
  let second := Secured.handleIncomingWebhook (Some "test-secret") bookingRequest
                  (snd first) in
  fst first = Ok (processed_event (JStr "E1"))
  /\ map (fun c => (contact_email c, contact_firstName c, contact_lastName c))
         (contacts (snd first))
     = [(JStr "a@x.com", JStr "Ada", JStr "Lovelace")]
  /\ map (fun d => (deal_title d, deal_stageId d, deal_data d)) (deals (snd first))
     = [(JStr "D1", JStr "s1", JObj [("source", JStr "iClosed")])]
  /\ map activity_type (activities (snd first)) = ["APPOINTMENT_BOOKED"]
  /\ map log_key (webhookLogs (snd first)) = [JStr "E1"]
  /\ second = (Ok (duplicate_event (JStr "E1")), snd first).
Proof. vm_compute. repeat split. Qed.

Definition callBooked : json :=
  JObj [("event", JStr "call_booked");
        ("contact", JObj [("email", JStr "new.user@test.com");
                          ("name", JStr "New User");
                          ("phone", JStr "1234567890")]);
        ("deal", JObj [("title", JStr "New Deal - Website Design");
                       ("value", JNum 5000);
                       ("contactEmail", JStr "new.user@test.com");
                       ("contactName", JStr "New User")])].

(** The same for the permissive variant, run with [exampleRuntime]. *)
Example call_booked_twice :
  let first := Permissive.handleIncomingWebhook (H := exampleRuntime) callBooked
                 smallWorld in
  let second := Permissive.handleIncomingWebhook (H := exampleRuntime) callBooked
                  (snd first) in
  res_status_of first = Some 200%Z
  /\ List.length (contacts (snd first)) = 1
  /\ List.length (deals (snd first)) = 1
  /\ map activity_type (activities (snd first)) = ["APPOINTMENT_BOOKED"]
  /\ List.length (webhookLogs (snd first)) = 1
  /\ message_of second = Some (JStr "Duplicate webhook - already processed")
  /\ snd second = snd first.
Proof. vm_compute. repeat split. Qed.

(** ** Stage resolution *)

(** The resolution order in the words of the specification: the stage the
    status name selects, else the stage with the explicit id, else the
    first stage of the pipeline. *)
Definition resolveStage `{Runtime} (pipelineStages : list pipelineStage)
    (explicitStageId : json)
    (statusNameHint : option string) : option pipelineStage :=
  match (match statusNameHint with
         | Some s => stage_by_status s pipelineStages
         | None => None
         end) with
  | Some stage => Some stage
  | None =>
      match (if truthy explicitStageId
             then find (fun stage => is_str explicitStageId (stage_id stage))
                       pipelineStages
             else None) with
      | Some stage => Some stage
      | None => hd_error pipelineStages
      end
  end.

(** The status name a payload supplies to the permissive variant: the
    non-empty string [new_status] of a [lead_status_changed] event. *)
Definition status_hint (event new_status : json) : option string :=
  if is_str event "lead_status_changed"
  then match new_status with
       | JStr s => if String.eqb s "" then None else Some s
       | _ => None
       end
  else None.

Section StageResolution.
Context `{Runtime}.

Lemma starts_with_sound p s :
  starts_with p s = true -> exists b, s = p ++ b.
Proof.
  revert s. induction p as [|a p IH]; intros s Hs; simpl in *.
  - exists s. reflexivity.
  - destruct s as [|c s]; [discriminate|].
    apply andb_prop in Hs. destruct Hs as [Hac Hps].
    apply Ascii.eqb_eq in Hac. subst c.
    destruct (IH s Hps) as [b ->]. exists b. reflexivity.
Qed.

(** [s.includes(p)] holds only when [p] occurs in [s]. *)
Lemma includes_sound s p :
  includes s p = true -> exists a b, s = a ++ p ++ b.
Proof.
  induction s as [|c s IH]; simpl; intros Hi.
  - rewrite orb_false_r in Hi. destruct (starts_with_sound _ _ Hi) as [b Hb].
    exists "", b. exact Hb.
  - apply orb_prop in Hi. destruct Hi as [Hi | Hi].
    + destruct (starts_with_sound _ _ Hi) as [b Hb]. exists "", b. exact Hb.
    + destruct (IH Hi) as (a & b & ->). exists (String c a), b. reflexivity.
Qed.

Lemma stage_by_status_sound s l stage :
  stage_by_status s l = Some stage ->
  In stage l
  /\ (toLowerCase (stage_name stage) = toLowerCase s
      \/ exists a b, toLowerCase (stage_name stage) = a ++ toLowerCase s ++ b).
Proof.
  unfold stage_by_status. intros Hf. apply find_some in Hf. destruct Hf as [Hin Hm].
  split; [exact Hin|].
  apply orb_prop in Hm. destruct Hm as [Hm | Hm].
  - left. apply String.eqb_eq. exact Hm.
  - right. apply includes_sound. exact Hm.
Qed.

Lemma findM_by_name s l w :
  findM (fun stage =>
           wanted <- toLowerCaseM "dealData.new_status" (JStr s) ;;
           if includes (toLowerCase (stage_name stage)) wanted then ret true
           else
             wanted' <- toLowerCaseM "dealData.new_status" (JStr s) ;;
             ret (String.eqb (toLowerCase (stage_name stage)) wanted')) l w
  = (Ok (stage_by_status s l), w).
Proof.
  unfold stage_by_status.
  induction l as [|x l IH]; simpl; [reflexivity|].
  unfold bind, ret. simpl.
  destruct (includes _ _); simpl; [rewrite orb_true_r; reflexivity|].
  destruct (String.eqb _ _); simpl; [reflexivity|]. exact IH.
Qed.

(** The permissive variant resolves the stage as [resolveStage] says,
    without throwing, when [new_status] is a string or is not used. *)
Lemma resolveTargetStage_refines event new_status dealStageId pipelineStages w :
  (is_str event "lead_status_changed" = true -> truthy new_status = true ->
   typeof_string new_status = true) ->
  Permissive.resolveTargetStage event new_status dealStageId pipelineStages w
  = (Ok (resolveStage pipelineStages dealStageId (status_hint event new_status)), w).
Proof.
  intros Hstr. unfold Permissive.resolveTargetStage, resolveStage, status_hint.
  destruct (is_str event "lead_status_changed") eqn:Hev; simpl andb.
  - destruct (truthy new_status) eqn:Ht.
    + specialize (Hstr eq_refl eq_refl).
      destruct new_status as [| | | |s| |]; simpl in Hstr; try discriminate.
      simpl in Ht. apply negb_true_iff in Ht. rewrite Ht.
      unfold bind at 1. rewrite findM_by_name. unfold ret.
      destruct (stage_by_status s pipelineStages); reflexivity.
    + assert (Hnone : match new_status with
                      | JStr s => if String.eqb s "" then None else Some s
                      | _ => None
                      end = None).
      { destruct new_status; simpl in Ht; try reflexivity.
        apply negb_false_iff in Ht. rewrite Ht. reflexivity. }
      rewrite Hnone. reflexivity.
  - reflexivity.
Qed.

End StageResolution.

(** C4, as the code has it. In the permissive variant, for a [new_status]
    that is a string or absent, the stage is resolved in the order of
    [resolveStage], first match wins, and without an error: (1) on a
    [lead_status_changed] event with a non-empty [new_status], a stage
    whose name equals or contains it, case ignored, in preference to any
    stage id; (2) else the stage with the explicit stage id; (3) else the
    first stage of the pipeline. In the secured variant the
    [status_changed] handler resolves by name only, and when no stage
    matches it throws and leaves the deal where it is. *)
Theorem stage_resolution_order `{RT : Runtime} :
  (forall event new_status dealStageId pipelineStages w,
      (is_str event "lead_status_changed" = true -> truthy new_status = true ->
       typeof_string new_status = true) ->
      Permissive.resolveTargetStage event new_status dealStageId pipelineStages w
      = (Ok (resolveStage pipelineStages dealStageId (status_hint event new_status)),
         w))
  /\ (forall pipelineStages explicitStageId s stage,
         stage_by_status s pipelineStages = Some stage ->
         resolveStage pipelineStages explicitStageId (Some s) = Some stage
         /\ In stage pipelineStages
         /\ (toLowerCase (stage_name stage) = toLowerCase s
             \/ exists a b, toLowerCase (stage_name stage) = a ++ toLowerCase s ++ b))
  /\ (forall pipelineStages explicitStageId hint stage,
         match hint with
         | Some s => stage_by_status s pipelineStages
         | None => None
         end = None ->
         truthy explicitStageId = true ->
         find (fun stage => is_str explicitStageId (stage_id stage)) pipelineStages
         = Some stage ->
         resolveStage pipelineStages explicitStageId hint = Some stage
         /\ explicitStageId = JStr (stage_id stage))
  /\ (forall pipelineStages explicitStageId hint,
         match hint with
         | Some s => stage_by_status s pipelineStages
         | None => None
         end = None ->
         (if truthy explicitStageId
          then find (fun stage => is_str explicitStageId (stage_id stage))
                    pipelineStages
          else None) = None ->
         resolveStage pipelineStages explicitStageId hint = hd_error pipelineStages)
  /\ (forall payload user w d p l s,
         truthy payload = true -> faults w = [] ->
         truthy (prop (deal_data_of payload) "id") = true ->
         find (fun d => andb (where_eq (JStr (deal_id d))
                                       (prop (deal_data_of payload) "id"))
                             (where_eq (deal_userId d) (JStr (user_id user))))
              (deals w) = Some d ->
         prisma.pipeline_of d w = Some (p, l) ->
         new_status_of payload = JStr s ->
         stage_by_status s l = None ->
         Secured.handleStatusChanged payload user w
         = (Throw (stage_not_found (JStr s)), w)).
Proof.
  split; [exact resolveTargetStage_refines|].
  split.
  { intros l id s stage Hs. unfold resolveStage. rewrite Hs.
    split; [reflexivity|]. apply (stage_by_status_sound s l stage Hs). }
  split.
  { intros l id hint stage Hh Ht Hf. unfold resolveStage. rewrite Hh, Ht, Hf.
    split; [reflexivity|].
    apply find_some in Hf. destruct Hf as [_ Hid].
    unfold is_str in Hid. destruct id; simpl in Hid; try discriminate.
    apply String.eqb_eq in Hid. congruence. }
  split.
  { intros l id hint Hh Hf. unfold resolveStage. rewrite Hh, Hf. reflexivity. }
  intros payload user w d p l s Hp Hf Hid Hfind Hpl Hns Hnone.
  rewrite (handleStatusChanged_found payload user w d p l s) by assumption.
  rewrite Hnone. reflexivity.
Qed.

Lemma stage_resolution_order_witness :
  Permissive.resolveTargetStage (JStr "lead_status_changed") (JStr "PROPOSAL sent")
    (JStr "s1") (stages smallWorld) smallWorld
  = (Ok (resolveStage (stages smallWorld) (JStr "s1")
           (status_hint (JStr "lead_status_changed") (JStr "PROPOSAL sent"))),
     smallWorld).
Proof.
  apply (proj1 stage_resolution_order (JStr "lead_status_changed")
           (JStr "PROPOSAL sent") (JStr "s1") (stages smallWorld) smallWorld).
  intros _ _. reflexivity.
Defined.

(** The three rules on the stages "New" (s1) and "Proposal Sent" (s2): the
    status name wins over a stage id, the stage id is used without a
    matching name, and the first stage is the fallback. *)
Example stage_resolution_runs :
  let resolve event new_status stageId :=
    fst (Permissive.resolveTargetStage event new_status stageId (stages smallWorld)
           smallWorld) in
  option_map stage_id
    (match resolve (JStr "lead_status_changed") (JStr "PROPOSAL sent") (JStr "s1") with
     | Ok st => st | Throw _ => None end) = Some "s2"
  /\ option_map stage_id
       (match resolve (JStr "lead_status_changed") (JStr "Archived") (JStr "s2") with
        | Ok st => st | Throw _ => None end) = Some "s2"
  /\ option_map stage_id
       (match resolve (JStr "call_booked") (JStr "Proposal Sent") JUndefined with
        | Ok st => st | Throw _ => None end) = Some "s1"
  /\ option_map stage_id
       (match resolve (JStr "lead_status_changed") (JStr "Archived") (JStr "s9") with
        | Ok st => st | Throw _ => None end) = Some "s1".
Proof. vm_compute. repeat split. Qed.

(** C4, as stated, fails in the secured variant: the status below matches
    no stage of the deal's pipeline; the stage id the payload carries is
    ignored, no stage is chosen, and the handler throws. The deal stays in
    its stage and the answer is HTTP 500. *)
Lemma unmatched_status_raises :
  let payload :=
    JObj [("event", JStr "status_changed");
          ("deal", JObj [("id", JStr "d1"); ("new_status", JStr "Archived");
                         ("stageId", JStr "s2")])] in
  Secured.handleStatusChanged payload {| user_id := "u1" |} dealWorld
  = (Throw (stage_not_found (JStr "Archived")), dealWorld)
  /\ res_status_of
       (Secured.handleIncomingWebhook (Some "test-secret")
          {| Secured.x_webhook_secret := Some "test-secret";
             Secured.body := payload |} dealWorld) = Some 500%Z.
Proof. vm_compute. split; reflexivity. Qed.

(** ** Deal upsert *)

(** What identifies a deal row: its id, its title and its pipeline. *)
Definition deal_identity (d : deal) : string * json * json :=
  (deal_id d, deal_title d, deal_pipelineId d).

Definition deal_identities (w : world) : list (string * json * json) :=
  map deal_identity (deals w).

(** The active workflows an event triggers. *)
Definition triggered (eventName : string) (w : world) : list workflow :=
  filter (fun f => andb (workflow_isActive f)
                        (existsb (String.eqb eventName) (workflow_triggers f)))
         (workflows w).

(** The [data] of the update of an existing deal. *)
Definition update_deal (existingDeal : deal) (dealValue : json)
    (targetStage : pipelineStage) (dealContact : option contact) (user : user)
    (w : world) : world :=
  set_deals
    (map (fun d => if is_str (JStr (deal_id existingDeal)) (deal_id d)
                   then prisma.deal_patch dealValue (JStr (stage_id targetStage))
                          (Permissive.contact_id_or_null dealContact)
                          (JStr (user_id user)) d
                   else d) (deals w)) w.

(** The deal the permissive variant creates: no [data]. *)
Definition new_deal (w : world) (dealTitle dealValue : json)
    (targetStage : pipelineStage) (pipeline : pipeline)
    (dealContact : option contact) (user : user) : deal :=
  {| deal_id := fresh_id w;
     deal_title := stored dealTitle;
     deal_value := stored dealValue;
     deal_stageId := JStr (stage_id targetStage);
     deal_pipelineId := JStr (pipeline_id pipeline);
     deal_contactId := Permissive.contact_id_or_null dealContact;
     deal_userId := JStr (user_id user);
     deal_data := JNull |}.

#[export] Instance Frame_deal_identities : Frame (keeps deal_identities).
Proof. apply Frame_keeps. reflexivity. Qed.

Section DealUpsert.
Context `{Runtime}.

Lemma patch_keeps_identity (c : deal -> bool) value stageId contactId userId l :
  map deal_identity
      (map (fun d => if c d then prisma.deal_patch value stageId contactId userId d
                     else d) l)
  = map deal_identity l.
Proof.
  induction l as [|d l IH]; simpl; [reflexivity|].
  rewrite IH. destruct (c d); reflexivity.
Qed.

Lemma triggerWorkflow_keeps_identities eventName contactId :
  preserves (keeps deal_identities) (Automation.triggerWorkflow eventName contactId).
Proof.
  apply preserves_triggerWorkflow; try exact _; intros; unfold keeps, deal_identities;
    simpl; try reflexivity.
  apply patch_keeps_identity.
Qed.

Lemma triggerWorkflow_keeps_contacts eventName contactId :
  preserves (keeps contacts) (Automation.triggerWorkflow eventName contactId).
Proof. apply preserves_triggerWorkflow; try exact _; intros; reflexivity. Qed.

Lemma triggerWorkflow_keeps_logs eventName contactId :
  preserves (keeps webhookLogs) (Automation.triggerWorkflow eventName contactId).
Proof. apply preserves_triggerWorkflow; try exact _; intros; reflexivity. Qed.

(** Without storage failures an event that triggers no active workflow
    leaves the world as it is. *)
Lemma triggerWorkflow_idle eventName contactId w :
  faults w = [] -> triggered eventName w = [] ->
  wp (Automation.triggerWorkflow eventName contactId)
     (fun r w' => (exists x, r = Ok x) /\ w' = w) w.
Proof.
  intros Hf Hnone. unfold Automation.triggerWorkflow.
  unfold prisma.contact_findUnique_with_deals, prisma.workflow_findMany.
  apply wp_try, wp_bind, wp_query_ok; [exact Hf|]. cbv beta iota.
  destruct (find _ (contacts w)); [|apply wp_ret; eauto].
  apply wp_bind, wp_query_ok; [exact Hf|]. cbv beta iota.
  fold (triggered eventName w). rewrite Hnone. simpl for_each.
  apply wp_bind, wp_ret, wp_ret. eauto.
Qed.

(** With a deal of that title in the pipeline for the user, the upsert
    creates no row and changes no title or pipeline, whatever the storage
    and the automation do. *)
Lemma upsertDeal_keeps_identities payload dealTitle dealValue email targetStage
    pipeline dealContact user existingDeal w :
  find (fun d => andb (where_eq (deal_title d) dealTitle)
                (andb (where_eq (deal_pipelineId d) (JStr (pipeline_id pipeline)))
                      (where_eq (deal_userId d) (JStr (user_id user)))))
       (deals w) = Some existingDeal ->
  wp (Permissive.upsertDeal payload dealTitle dealValue email targetStage pipeline
        dealContact user)
     (fun _ w' => deal_identities w' = deal_identities w) w.
Proof.
  intros Hfind. unfold Permissive.upsertDeal, prisma.deal_findFirst.
  apply wp_bind, wp_query; intros w0 U0; cbv beta iota.
  { chain. reflexivity. }
  assert (Hf0 : deals w0 = deals w) by (chain; reflexivity).
  rewrite Hf0, Hfind. cbv iota.
  apply wp_bind. unfold Permissive.id_of.
  destruct targetStage as [st|]; [apply wp_ret | apply wp_throw; chain; reflexivity].
  apply wp_bind. unfold prisma.deal_update.
  apply wp_bind, wp_storage; intros w1 U1; cbv beta iota.
  { chain. reflexivity. }
  cbn [fst snd].
  assert (Hid1 : deal_identities
                   (set_deals
                      (map (fun d => if is_str (JStr (deal_id existingDeal)) (deal_id d)
                                     then prisma.deal_patch dealValue (JStr (stage_id st))
                                            (Permissive.contact_id_or_null dealContact)
                                            (JStr (user_id user)) d
                                     else d) (deals w1)) w1)
                 = deal_identities w).
  { unfold deal_identities. simpl deals. rewrite patch_keeps_identity.
    chain. reflexivity. }
  destruct (find _ (deals w1)); [apply wp_ret | apply wp_throw; exact Hid1].
  destruct dealContact as [c|]; [|apply wp_ret; exact Hid1].
  apply wp_bind.
  apply (wp_frame (keeps deal_identities));
    [apply triggerWorkflow_keeps_identities|].
  intros r w2 Hk. unfold keeps in Hk.
  destruct r; [apply wp_ret|]; congruence.
Qed.

End DealUpsert.

Section DealUpsertRuns.
Context `{Runtime}.

Lemma find_by_own_id (existingDeal : deal) l :
  In existingDeal l ->
  exists d, find (fun d => is_str (JStr (deal_id existingDeal)) (deal_id d)) l = Some d.
Proof.
  intros Hin.
  destruct (find (fun d => is_str (JStr (deal_id existingDeal)) (deal_id d)) l) eqn:E;
    [eauto|].
  apply (List.find_none _ _ E) in Hin. unfold is_str in Hin. simpl in Hin.
  rewrite String.eqb_refl in Hin. discriminate.
Qed.

(** Without storage failures and without a workflow on the event, the
    upsert of a deal that exists is the update of its row. *)
Lemma upsertDeal_updates payload dealTitle dealValue email targetStage pipeline
    dealContact user existingDeal w :
  faults w = [] -> triggered "pipeline_stage_changed" w = [] ->
  find (fun d => andb (where_eq (deal_title d) dealTitle)
                (andb (where_eq (deal_pipelineId d) (JStr (pipeline_id pipeline)))
                      (where_eq (deal_userId d) (JStr (user_id user)))))
       (deals w) = Some existingDeal ->
  Permissive.upsertDeal payload dealTitle dealValue email (Some targetStage) pipeline
    dealContact user w
  = (Ok tt, update_deal existingDeal dealValue targetStage dealContact user w).
Proof.
  intros Hf Hidle Hfind.
  enough (wp (Permissive.upsertDeal payload dealTitle dealValue email (Some targetStage)
                pipeline dealContact user)
             (fun r w' => r = Ok tt
                          /\ w' = update_deal existingDeal dealValue targetStage
                                    dealContact user w) w) as Hwp.
  { unfold wp in Hwp.
    destruct (Permissive.upsertDeal _ _ _ _ _ _ _ _ w) as [r w'].
    simpl in Hwp. destruct Hwp as [-> ->]. reflexivity. }
  unfold Permissive.upsertDeal, prisma.deal_findFirst.
  apply wp_bind, wp_query_ok; [exact Hf|]. cbv beta iota.
  rewrite Hfind. cbv iota.
  apply wp_bind. unfold Permissive.id_of. apply wp_ret.
  apply wp_bind. unfold prisma.deal_update.
  apply wp_bind, wp_storage_ok; [exact Hf|]. cbn [fst snd].
  destruct (find_by_own_id existingDeal (deals w)) as [d Hd].
  { apply find_some in Hfind. apply Hfind. }
  rewrite Hd. apply wp_ret.
  fold (update_deal existingDeal dealValue targetStage dealContact user w).
  destruct dealContact as [c|]; [|apply wp_ret; auto].
  apply wp_bind.
  eapply wp_conseq; [apply triggerWorkflow_idle; [exact Hf | exact Hidle]|].
  cbv beta. intros r w' [[x ->] ->]. apply wp_ret. auto.
Qed.

(** Without storage failures and without a workflow on the event, the
    upsert of a deal that does not exist appends one row, with no [data]. *)
Lemma upsertDeal_creates payload dealTitle dealValue email targetStage pipeline
    dealContact user w :
  nullish payload = false ->
  faults w = [] -> triggered "deal_created" w = [] ->
  find (fun d => andb (where_eq (deal_title d) dealTitle)
                (andb (where_eq (deal_pipelineId d) (JStr (pipeline_id pipeline)))
                      (where_eq (deal_userId d) (JStr (user_id user)))))
       (deals w) = None ->
  wp (Permissive.upsertDeal payload dealTitle dealValue email (Some targetStage)
        pipeline dealContact user)
     (fun r w' =>
        r = Ok tt
        /\ deals w' = (deals w ++ [new_deal w dealTitle dealValue targetStage pipeline
                                     dealContact user])%list) w.
Proof.
  intros Hn Hf Hidle Hfind.
  unfold Permissive.upsertDeal, prisma.deal_findFirst.
  apply wp_bind, wp_query_ok; [exact Hf|]. cbv beta iota.
  rewrite Hfind. cbv iota.
  apply wp_bind. unfold Permissive.id_of. apply wp_ret.
  apply wp_bind. unfold prisma.deal_create.
  apply wp_storage_ok; [exact Hf|]. cbn [fst snd].
  apply wp_bind. unfold get. rewrite Hn. apply wp_ret.
  destruct dealContact as [c|]; [|apply wp_ret; auto].
  apply wp_bind.
  assert (Hact : forall w1, faults w1 = [] ->
            wp (if is_str (prop payload "event") "call_booked"
                then booking_details <- ret (prop payload "booking_details") ;;
                     prisma.activity_create "APPOINTMENT_BOOKED"
                       ("Appointment booked for " ++ js_String dealTitle)
                       (JStr (contact_id c)) JUndefined (JStr (user_id user))
                       (JObj [("source", JStr "iClosed via Zapier");
                              ("deal_name", dealTitle);
                              ("booking_details",
                               js_or booking_details
                                 (JStr "Details from iClosed payload"))]) ;;;
                     ret tt
                else ret tt)
               (fun r w' => r = Ok tt /\ deals w' = deals w1 /\ faults w' = []
                            /\ workflows w' = workflows w1) w1).
  { intros w1 Hf1. destruct (is_str (prop payload "event") "call_booked");
      [|apply wp_ret; auto].
    apply wp_bind, wp_ret, wp_bind. unfold prisma.activity_create.
    apply wp_storage_ok; [exact Hf1|]. cbn [fst snd]. apply wp_ret. auto. }
  eapply wp_conseq; [apply Hact; exact Hf|]. cbv beta.
  intros r w1 (-> & Hd1 & Hf1 & Hw1).
  apply wp_bind.
  eapply wp_conseq;
    [apply triggerWorkflow_idle;
     [exact Hf1 | unfold triggered in *; rewrite Hw1; exact Hidle]|].
  cbv beta. intros r w' [[x ->] ->]. apply wp_ret. split; [reflexivity|].
  rewrite Hd1. reflexivity.
Qed.

End DealUpsertRuns.

Section SecuredCreateDeal.
Context `{Runtime}.

(** Without storage failures [createDeal] appends a deal row tagged with
    its source; it looks no deal up. *)
Lemma createDeal_appends title value stageId pipelineId contactId userId source w :
  faults w = [] ->
  wp (Secured.createDeal title value stageId pipelineId contactId userId source)
     (fun r w' =>
        exists d, r = Ok d /\ deals w' = (deals w ++ [d])%list
                  /\ deal_title d = stored title
                  /\ deal_value d = stored (js_or value (JNum 0))
                  /\ deal_contactId d = stored contactId
                  /\ deal_userId d = stored userId
                  /\ deal_data d = JObj [("source", js_or source (JStr "iClosed"))]) w.
Proof.
  intros Hf. unfold Secured.createDeal.
  repeat wp_ok_step.
  all: eexists; repeat split.
Qed.

End SecuredCreateDeal.

(** C5, as the code has it. In the permissive variant the identity of a
    deal for the upsert is (title, pipelineId, userId): when such a deal
    exists the upsert creates no row and leaves the id, title and pipeline
    of every deal as they were, whatever the storage and the automation do;
    with the storage working and no workflow on the event it is exactly the
    update of value, stageId, contactId and userId of that row; when no
    such deal exists one row is appended with the given fields and no data
    bag. In the secured variant [createDeal] looks no deal up: it always
    appends a row, tagged [{source: source || "iClosed"}]. *)
Theorem deal_upsert_identity :
  (forall (R : Runtime) payload dealTitle dealValue email targetStage pipeline
          dealContact user existingDeal w,
      find (fun d => andb (where_eq (deal_title d) dealTitle)
                    (andb (where_eq (deal_pipelineId d) (JStr (pipeline_id pipeline)))
                          (where_eq (deal_userId d) (JStr (user_id user)))))
           (deals w) = Some existingDeal ->
      deal_identities
        (snd (Permissive.upsertDeal payload dealTitle dealValue email targetStage
                pipeline dealContact user w))
      = deal_identities w)
  /\ (forall (R : Runtime) payload dealTitle dealValue email targetStage pipeline
             dealContact user existingDeal w,
         faults w = [] -> triggered "pipeline_stage_changed" w = [] ->
         find (fun d => andb (where_eq (deal_title d) dealTitle)
                       (andb (where_eq (deal_pipelineId d) (JStr (pipeline_id pipeline)))
                             (where_eq (deal_userId d) (JStr (user_id user)))))
              (deals w) = Some existingDeal ->
         Permissive.upsertDeal payload dealTitle dealValue email (Some targetStage)
           pipeline dealContact user w
         = (Ok tt, update_deal existingDeal dealValue targetStage dealContact user w))
  /\ (forall (R : Runtime) payload dealTitle dealValue email targetStage pipeline
             dealContact user w,
         nullish payload = false ->
         faults w = [] -> triggered "deal_created" w = [] ->
         find (fun d => andb (where_eq (deal_title d) dealTitle)
                       (andb (where_eq (deal_pipelineId d) (JStr (pipeline_id pipeline)))
                             (where_eq (deal_userId d) (JStr (user_id user)))))
              (deals w) = None ->
         exists w',
           Permissive.upsertDeal payload dealTitle dealValue email (Some targetStage)
             pipeline dealContact user w = (Ok tt, w')
           /\ deals w'
              = (deals w ++ [new_deal w dealTitle dealValue targetStage pipeline
                               dealContact user])%list)
  /\ (forall title value stageId pipelineId contactId userId source w,
         faults w = [] ->
         exists d w',
           Secured.createDeal title value stageId pipelineId contactId userId source w
           = (Ok d, w')
           /\ deals w' = (deals w ++ [d])%list
           /\ deal_title d = stored title
           /\ deal_data d = JObj [("source", js_or source (JStr "iClosed"))]).
Proof.
  split.
  { intros R payload dealTitle dealValue email targetStage pipeline dealContact user
      existingDeal w Hfind.
    exact (upsertDeal_keeps_identities payload dealTitle dealValue email targetStage
             pipeline dealContact user existingDeal w Hfind). }
  split.
  { intros R. exact (@upsertDeal_updates R). }
  split.
  { intros R payload dealTitle dealValue email targetStage pipeline dealContact user w
      Hn Hf Hidle Hfind.
    pose proof (upsertDeal_creates payload dealTitle dealValue email targetStage
                  pipeline dealContact user w Hn Hf Hidle Hfind) as Hwp.
    unfold wp in Hwp.
    destruct (Permissive.upsertDeal _ _ _ _ _ _ _ _ w) as [r w'].
    simpl in Hwp. destruct Hwp as [-> Hd]. exists w'. auto. }
  intros title value stageId pipelineId contactId userId source w Hf.
  pose proof (createDeal_appends title value stageId pipelineId contactId userId
                source w Hf) as Hwp.
  unfold wp in Hwp.
  destruct (Secured.createDeal _ _ _ _ _ _ _ w) as [r w'].
  simpl in Hwp. destruct Hwp as (d & -> & Hd & Ht & _ & _ & _ & Hdata).
  exists d, w'. auto.
Qed.

(** [afterCallBooked]: the store after the permissive variant has taken
    the booking [callBooked]. *)
Definition afterCallBooked : world :=
  snd (Permissive.handleIncomingWebhook (H := exampleRuntime) callBooked smallWorld).

Lemma deal_upsert_identity_witness :
  Permissive.upsertDeal (H := exampleRuntime) callBooked
    (JStr "New Deal - Website Design") (JNum 7500) (JStr "new.user@test.com")
    (Some {| stage_id := "s2"; stage_name := "Proposal Sent"; stage_order := 2;
             stage_pipelineId := "p1" |})
    {| pipeline_id := "p1"; pipeline_name := "Test Pipeline";
       pipeline_userId := JStr "u1" |}
    None {| user_id := "u1" |} afterCallBooked
  = (Ok tt,
     update_deal
       {| deal_id := "id1"; deal_title := JStr "New Deal - Website Design";
          deal_value := JNum 5000; deal_stageId := JStr "s1";
          deal_pipelineId := JStr "p1"; deal_contactId := JStr "id0";
          deal_userId := JStr "u1"; deal_data := JNull |}
       (JNum 7500)
       {| stage_id := "s2"; stage_name := "Proposal Sent"; stage_order := 2;
          stage_pipelineId := "p1" |}
       None {| user_id := "u1" |} afterCallBooked).
Proof.
  apply (proj1 (proj2 deal_upsert_identity) exampleRuntime); vm_compute; reflexivity.
Defined.

(** Two deliveries of the permissive variant with the same title: the
    second one updates the row of the first. *)
Example same_title_updates_in_place :
  let again :=
    JObj [("event", JStr "lead_status_changed");
          ("contact", JObj [("email", JStr "new.user@test.com")]);
          ("deal", JObj [("title", JStr "New Deal - Website Design");
                         ("value", JNum 7500);
                         ("new_status", JStr "Proposal Sent")])] in
  let run := Permissive.handleIncomingWebhook (H := exampleRuntime) again
               afterCallBooked in
  map (fun d => (deal_id d, deal_title d, deal_value d, deal_stageId d))
      (deals afterCallBooked)
  = [("id1", JStr "New Deal - Website Design", JNum 5000, JStr "s1")]
  /\ map (fun d => (deal_id d, deal_title d, deal_value d, deal_stageId d))
         (deals (snd run))
     = [("id1", JStr "New Deal - Website Design", JNum 7500, JStr "s2")].
Proof. vm_compute. split; reflexivity. Qed.

(** C5, as stated, fails. In the secured variant a second delivery with
    the same deal title for the same pipeline and user (another event id)
    creates a second deal row; and the deal the permissive variant creates
    carries no provenance tag. *)
Lemma same_title_twice_makes_two_deals :
  let second :=
    {| Secured.x_webhook_secret := Some "test-secret";
       Secured.body :=
         JObj [("event", JStr "appointment_booked");
               ("event_id", JStr "E2");
               ("contact", JObj [("email", JStr "a@x.com");
                                 ("name", JStr "Ada Lovelace")]);
               ("deal", JObj [("title", JStr "D1"); ("value", JNum 2000)])] |} in
  let run := Secured.handleIncomingWebhook (Some "test-secret") second afterBooking in
  fst run = Ok (processed_event (JStr "E2"))
  /\ map (fun d => (deal_title d, deal_pipelineId d, deal_userId d, deal_value d))
         (deals (snd run))
     = [(JStr "D1", JStr "p1", JStr "u1", JNum 1000);
        (JStr "D1", JStr "p1", JStr "u1", JNum 2000)]
  /\ map deal_data (deals afterCallBooked) = [JNull].
Proof. vm_compute. repeat split. Qed.

(** ** Contact upsert *)

(** The contact an email is the key of. *)
Definition contact_by_email (email : json) (w : world) : option contact :=
  find (fun c => strict_eq (contact_email c) email) (contacts w).

(** [kept_fields firstName lastName phone c c']: [c'] is the row of [c]
    after an update with these incoming values, every field whose incoming
    value is absent (falsy) being the one [c] had. *)
Definition kept_fields (firstName lastName phone : json) (c c' : contact) : Prop :=
  contact_id c' = contact_id c
  /\ contact_email c' = contact_email c
  /\ (truthy firstName = false -> contact_firstName c' = contact_firstName c)
  /\ (truthy lastName = false -> contact_lastName c' = contact_lastName c)
  /\ (truthy phone = false -> contact_phone c' = contact_phone c).

(** The contacts of [w'] are those of [w] followed by new ones. *)
Definition contacts_extended (w w' : world) : Prop :=
  exists more, contacts w' = (contacts w ++ more)%list.

#[export] Instance Frame_contacts_extended : Frame contacts_extended.
Proof.
  split; unfold contacts_extended.
  - intros w. exists []. symmetry. apply app_nil_r.
  - intros w1 w2 w3 [m1 H1] [m2 H2]. exists (m1 ++ m2)%list.
    rewrite H2, H1. symmetry. apply app_assoc.
  - intros fs w. exists []. simpl. symmetry. apply app_nil_r.
Qed.

Section ContactUpsert.
Context `{Runtime}.

Lemma kept_fields_refl firstName lastName phone c :
  kept_fields firstName lastName phone c c.
Proof. repeat split. Qed.

Lemma updated_fallback old incoming :
  truthy incoming = false -> updated old (js_or incoming old) = old.
Proof. intros Ht. unfold js_or. rewrite Ht. destruct old; reflexivity. Qed.

Lemma patch_keeps_fields firstName lastName phone userId c :
  kept_fields firstName lastName phone c
    (prisma.contact_patch (js_or firstName (contact_firstName c))
       (js_or lastName (contact_lastName c)) (js_or phone (contact_phone c))
       userId c).
Proof.
  unfold kept_fields, prisma.contact_patch. simpl.
  repeat split; intros Ht; apply updated_fallback; exact Ht.
Qed.

Lemma find_map_by_email email (g : contact -> contact) l :
  (forall c, contact_email (g c) = contact_email c) ->
  find (fun c => strict_eq (contact_email c) email) (map g l)
  = option_map g (find (fun c => strict_eq (contact_email c) email) l).
Proof.
  intros Hg. induction l as [|c l IH]; simpl; [reflexivity|].
  rewrite Hg. destruct (strict_eq (contact_email c) email); [reflexivity | exact IH].
Qed.

Lemma contact_by_email_extended email w w' c :
  contacts_extended w w' -> contact_by_email email w = Some c ->
  contact_by_email email w' = Some c.
Proof.
  intros [more Hm] Hc. unfold contact_by_email in *. rewrite Hm.
  apply find_some in Hc as Hc'. destruct Hc' as [Hin Hp].
  clear Hm. induction (contacts w) as [|x l IH]; [destruct Hin|].
  simpl in *. destruct (strict_eq (contact_email x) email); [exact Hc|].
  apply IH; [exact Hc|]. destruct Hin as [-> | Hin]; [|exact Hin].
  apply find_some in Hc. apply Hc.
Qed.

(** The update of the contact found by [email], with the fall-back of each
    field on the stored value: after it, under any storage failure, the
    contact of that email keeps every field whose incoming value is
    absent. *)
Lemma update_existing_contact firstName lastName phone userId email c w :
  contact_by_email email w = Some c ->
  wp (prisma.contact_update (contact_id c)
        (js_or firstName (contact_firstName c))
        (js_or lastName (contact_lastName c))
        (js_or phone (contact_phone c)) userId)
     (fun _ w' => exists c', contact_by_email email w' = Some c'
                             /\ kept_fields firstName lastName phone c c') w.
Proof.
  intros Hc. unfold prisma.contact_update.
  apply wp_bind, wp_storage; intros w0 U0; cbv beta iota.
  { chain. exists c. split; [exact Hc | apply kept_fields_refl]. }
  cbn [fst snd].
  assert (Hc0 : contact_by_email email w0 = Some c) by (chain; exact Hc).
  assert (Hafter : exists c',
             contact_by_email email
               (set_contacts
                  (map (fun c0 => if String.eqb (contact_id c0) (contact_id c)
                                  then prisma.contact_patch
                                         (js_or firstName (contact_firstName c))
                                         (js_or lastName (contact_lastName c))
                                         (js_or phone (contact_phone c)) userId c0
                                  else c0) (contacts w0)) w0) = Some c'
             /\ kept_fields firstName lastName phone c c').
  { unfold contact_by_email in *. simpl contacts.
    rewrite find_map_by_email.
    2: { intros c0. destruct (String.eqb _ _); reflexivity. }
    rewrite Hc0. simpl. rewrite String.eqb_refl.
    eexists. split; [reflexivity | apply patch_keeps_fields]. }
  destruct (find _ (contacts w0)); [apply wp_ret | apply wp_throw]; exact Hafter.
Qed.

(** The contact upsert of the permissive variant on a contact that
    exists. *)
Lemma processContact_keeps email name phone user c w :
  contact_by_email email w = Some c ->
  wp (Permissive.processContact email name phone user)
     (fun _ w' =>
        exists c', contact_by_email email w' = Some c'
                   /\ kept_fields (fst (parseName name)) (snd (parseName name)) phone
                        c c') w.
Proof.
  intros Hc.
  assert (Hsame : forall w0, unchanged w w0 ->
            exists c', contact_by_email email w0 = Some c'
                       /\ kept_fields (fst (parseName name)) (snd (parseName name))
                            phone c c').
  { intros w0 U. chain. exists c. split; [exact Hc | apply kept_fields_refl]. }
  unfold Permissive.processContact.
  destruct email as [| | | |e| |]; try (apply wp_ret, Hsame, unchanged_refl).
  destruct (andb _ _); [|apply wp_ret, Hsame, unchanged_refl].
  apply wp_try.
  destruct (parseName name) as [firstName lastName]. cbn [fst snd] in *.
  apply wp_bind. unfold prisma.contact_findUnique_email.
  apply wp_query; intros w0 U0; cbv beta iota.
  { apply wp_ret. apply Hsame. exact U0. }
  assert (Hc0 : contact_by_email (JStr e) w0 = Some c) by (chain; exact Hc).
  unfold contact_by_email in Hc0. rewrite Hc0.
  apply wp_bind.
  eapply wp_conseq; [apply (update_existing_contact firstName lastName phone
                              (JStr (user_id user)) (JStr e) c w0 Hc0)|].
  cbv beta. intros [x|err] w1 Hex; apply wp_ret; exact Hex.
Qed.

(** [upsertContact] of the secured variant on a contact that exists. *)
Lemma upsertContact_keeps email firstName lastName phone userId c w :
  contact_by_email email w = Some c ->
  wp (Secured.upsertContact email firstName lastName phone userId)
     (fun _ w' =>
        exists c', contact_by_email email w' = Some c'
                   /\ kept_fields firstName lastName phone c c') w.
Proof.
  intros Hc. unfold Secured.upsertContact.
  destruct (negb (truthy email)).
  { apply wp_throw. exists c. split; [exact Hc | apply kept_fields_refl]. }
  apply wp_bind. unfold prisma.contact_findUnique_email.
  apply wp_query; intros w0 U0; cbv beta iota.
  { chain. exists c. split; [exact Hc | apply kept_fields_refl]. }
  assert (Hc0 : contact_by_email email w0 = Some c) by (chain; exact Hc).
  unfold contact_by_email in Hc0. rewrite Hc0.
  apply (update_existing_contact firstName lastName phone userId email c w0 Hc0).
Qed.

End ContactUpsert.

(** Closes [contacts_extended w w'] for the world after one storage
    write. *)
Ltac extended :=
  first [ exists []; simpl; rewrite app_nil_r; reflexivity
        | eexists; simpl; reflexivity ].

(** A frame proof for [contacts_extended]. *)
Ltac frame_extended :=
  repeat first
    [ apply preserves_storage; [exact _ | intros ?; cbn [snd fst]; extended]
    | frame_step ].

(** [payload.contact?.k] *)
Definition contact_field (payload : json) (k : string) : json :=
  get_opt (prop payload "contact") k.

(** The email, name and phone the permissive variant reads. *)
Definition email_of (payload : json) : json :=
  js_or (contact_field payload "email")
    (js_or (prop payload "email") (prop payload "Email")).

Definition name_of (payload : json) : json :=
  js_or (contact_field payload "name")
    (js_or (prop payload "name")
       (js_or (prop payload "Name")
          (js_or (prop payload "full_name") (prop payload "Full_Name")))).

Definition phone_of (payload : json) : json :=
  js_or (contact_field payload "phone")
    (js_or (prop payload "phone")
       (js_or (prop payload "Phone")
          (js_or (prop payload "phone_number") (prop payload "Phone_Number")))).

Section PermissiveSteps.
Context `{Runtime}.

Lemma payload_not_nullish body : nullish body = false -> nullish (payload_of body) = false.
Proof.
  intros Hn. unfold payload_of, js_or.
  destruct (truthy (prop body "data")) eqn:E1; [apply truthy_not_nullish; exact E1|].
  destruct (truthy (prop body "payload")) eqn:E2; [apply truthy_not_nullish; exact E2|].
  exact Hn.
Qed.

Lemma wp_email payload w :
  nullish payload = false ->
  wp ((c <- get payload "contact" ;; ret (get_opt c "email"))
        ||> get payload "email" ||> get payload "Email")
     (fun r w' => r = Ok (email_of payload) /\ w' = w) w.
Proof.
  intros Hn. unfold or_else, get, email_of, contact_field, js_or. rewrite Hn.
  repeat (wp_step; auto).
Qed.

Lemma wp_name payload w :
  nullish payload = false ->
  wp ((c <- get payload "contact" ;; ret (get_opt c "name"))
        ||> get payload "name" ||> get payload "Name"
        ||> get payload "full_name" ||> get payload "Full_Name")
     (fun r w' => r = Ok (name_of payload) /\ w' = w) w.
Proof.
  intros Hn. unfold or_else, get, name_of, contact_field, js_or. rewrite Hn.
  repeat (wp_step; auto).
Qed.

Lemma wp_phone payload w :
  nullish payload = false ->
  wp ((c <- get payload "contact" ;; ret (get_opt c "phone"))
        ||> get payload "phone" ||> get payload "Phone"
        ||> get payload "phone_number" ||> get payload "Phone_Number")
     (fun r w' => r = Ok (phone_of payload) /\ w' = w) w.
Proof.
  intros Hn. unfold or_else, get, phone_of, contact_field, js_or. rewrite Hn.
  repeat (wp_step; auto).
Qed.

Lemma isWebhookProcessed_spec key w :
  wp (Permissive.isWebhookProcessed key)
     (fun r w' =>
        (exists b, r = Ok b) /\ unchanged w w'
        /\ (r = Ok true ->
            exists l, find (fun l => strict_eq (log_key l) (JStr key)) (webhookLogs w)
                      = Some l)) w.
Proof.
  unfold Permissive.isWebhookProcessed, prisma.webhookLog_findUnique.
  apply wp_try, wp_bind, wp_query; intros w0 U0; cbv beta iota.
  - apply wp_ret. split; [eauto|]. split; [exact U0 | discriminate].
  - apply wp_ret. split; [eauto|]. split; [exact U0|].
    chain. simpl webhookLogs. destruct (find _ (webhookLogs w)); [eauto | discriminate].
Qed.

Lemma permissive_findUser_spec payload w :
  wp (Permissive.findUser payload)
     (fun r w' =>
        unchanged w w'
        /\ ((exists u, r = Ok (Next u)) \/ r = Ok (Return Permissive.received))) w.
Proof.
  unfold Permissive.findUser. autounfold with js.
  wp_steps; chain; (split; [unch|]); eauto.
Qed.

Lemma logProcessedWebhook_spec key payload status w :
  wp (Permissive.logProcessedWebhook key payload status)
     (fun r w' =>
        r = Ok tt
        /\ (unchanged w w'
            \/ exists w0 l, unchanged w w0 /\ log_key l = JStr key
                            /\ log_status l = (if String.eqb status "success"
                                               then 200%Z else 500%Z)
                            /\ w' = bump 1 (set_webhookLogs (webhookLogs w0 ++ [l]) w0)))
     w.
Proof.
  unfold Permissive.logProcessedWebhook, prisma.webhookLog_create.
  apply wp_try, wp_bind, wp_storage; intros w0 U0; cbv beta iota.
  - apply wp_ret. split; [reflexivity|]. left. exact U0.
  - cbn [fst snd]. apply wp_ret. split; [reflexivity|]. right.
    exists w0. eexists. split; [exact U0|].
    refine (conj _ (conj _ _)); [ | | reflexivity]; reflexivity.
Qed.

Lemma triggerWorkflow_extends eventName contactId :
  preserves contacts_extended (Automation.triggerWorkflow eventName contactId).
Proof. apply preserves_triggerWorkflow; try exact _; intros; extended. Qed.

Lemma resolveTargetStage_frame R `{!Frame R} event new_status dealStageId l :
  preserves R (Permissive.resolveTargetStage event new_status dealStageId l).
Proof. unfold Permissive.resolveTargetStage. frame. Qed.

Lemma processDeal_extends payload email user :
  preserves contacts_extended (Permissive.processDeal payload email user).
Proof.
  unfold Permissive.processDeal, Permissive.processDealBody, Permissive.upsertDeal,
    Permissive.findPipeline, Permissive.findDealContact, Permissive.id_of,
    before_initialization.
  autounfold with js.
  repeat first
    [ apply triggerWorkflow_extends
    | apply resolveTargetStage_frame; exact _
    | apply preserves_storage; [exact _ | intros ?; cbn [snd fst]; extended]
    | frame_step ].
Qed.

End PermissiveSteps.

Definition webhook_received (idempotencyKey : string) : response :=
  respond 200 [("status", JStr "success");
               ("message", JStr "Webhook received");
               ("idempotencyKey", JStr idempotencyKey)].

Section PermissiveRule.
Context `{Runtime}.

(** The permissive handler after the duplicate check and the user
    lookup. *)
Definition process_and_log (payload : json) (idempotencyKey : string) (user : user)
  : M response :=
  Permissive.processContact (email_of payload) (name_of payload) (phone_of payload)
    user ;;;
  done <- Permissive.processDeal payload (email_of payload) user ;;
  match done with
  | Return r => ret r
  | Next _ =>
      Permissive.logProcessedWebhook idempotencyKey payload "success" ;;;
      ret (webhook_received idempotencyKey)
  end.

(** The ways through the [try] block of the permissive handler, under any
    storage failures: the duplicate answer, the answer without a user, or
    the processing of the contact and the deal; before the processing only
    the failure schedule is consumed. *)
Lemma permissive_rule body w (Q : result response -> world -> Prop) :
  nullish body = false ->
  (forall w1, unchanged w w1 ->
     (exists l, find (fun l => strict_eq (log_key l)
                                 (JStr (idempotency_key (payload_of body) w)))
                     (webhookLogs w) = Some l) ->
     Q (Ok (duplicate_webhook (idempotency_key (payload_of body) w))) w1) ->
  (forall w1, unchanged w w1 -> Q (Ok Permissive.received) w1) ->
  (forall w1 user, unchanged w w1 ->
     wp (process_and_log (payload_of body) (idempotency_key (payload_of body) w) user)
        Q w1) ->
  wp (Permissive.handle body) Q w.
Proof.
  intros Hn Hdup Hnouser Hrest.
  pose proof (payload_not_nullish body Hn) as Hpn.
  unfold Permissive.handle.
  apply wp_bind.
  eapply wp_conseq; [apply wp_payload; exact Hn|]. cbv beta.
  intros r w' [-> ->].
  apply wp_bind. unfold Permissive.generateIdempotencyKey.
  apply wp_bind. unfold wp at 1, now. cbn [fst snd].
  apply wp_ret. fold (idempotency_key (payload_of body) w).
  apply wp_bind.
  eapply wp_conseq; [apply isWebhookProcessed_spec|]. cbv beta.
  intros r w1 ([b ->] & U1 & Hlog).
  destruct b; [apply wp_ret; apply Hdup; [exact U1 | apply Hlog; reflexivity]|].
  apply wp_bind.
  eapply wp_conseq; [apply wp_email; exact Hpn|]. cbv beta.
  intros r w' [-> ->].
  apply wp_bind.
  eapply wp_conseq; [apply wp_name; exact Hpn|]. cbv beta.
  intros r w' [-> ->].
  apply wp_bind.
  eapply wp_conseq; [apply wp_phone; exact Hpn|]. cbv beta.
  intros r w' [-> ->].
  apply wp_bind.
  eapply wp_conseq; [apply permissive_findUser_spec|]. cbv beta.
  intros r w2 [U2 [[u ->] | ->]].
  - apply Hrest. eapply frame_trans; eassumption.
  - apply wp_ret. apply Hnouser. eapply frame_trans; eassumption.
Qed.

End PermissiveRule.

Section PermissiveAnswers.
Context `{Runtime}.

Lemma processContact_returns email name phone user w :
  exists w', Permissive.processContact email name phone user w = (Ok tt, w').
Proof.
  unfold Permissive.processContact.
  destruct email; try (eexists; reflexivity).
  destruct (andb _ _); [|eexists; reflexivity].
  unfold try_catch.
  match goal with |- context [match ?m w with _ => _ end] =>
    destruct (m w) as [[[]|e] w'] end; eexists; reflexivity.
Qed.

(** The deal processing ends normally or with the early answer; it never
    throws. *)
Lemma processDeal_returns payload email user w :
  nullish payload = false ->
  wp (Permissive.processDeal payload email user)
     (fun r _ => r = Ok (Next tt) \/ r = Ok (Return Permissive.received)) w.
Proof.
  intros Hn. unfold Permissive.processDeal.
  apply wp_bind. unfold get. rewrite Hn. apply wp_ret.
  destruct (truthy (prop payload "deal")); [|apply wp_ret; auto].
  apply wp_try.
  enough (forall w0, wp (Permissive.processDealBody payload (prop payload "deal")
                           email user)
            (fun r _ => match r with
                        | Ok (Return resp) => resp = Permissive.received
                        | _ => True
                        end) w0) as Hbody.
  { eapply wp_conseq; [apply Hbody|]. cbv beta.
    intros [[resp|[]]|e] w' Hr; [subst resp; auto | auto | apply wp_ret; auto]. }
  intros w0. unfold Permissive.processDealBody.
  repeat (apply wp_bind_any; [intros; exact I | intros]).
  destruct (negb (truthy _)); [apply wp_ret; reflexivity|].
  repeat (apply wp_bind_any; [intros; exact I | intros]).
  match goal with |- wp (match ?x with _ => _ end) _ _ => destruct x as [[? ?]|] end;
    [|apply wp_throw; exact I].
  repeat (apply wp_bind_any; [intros; exact I | intros]).
  apply wp_ret. exact I.
Qed.

(** Whatever the storage and the automation do, the permissive variant
    answers a parsed body with HTTP 200, status "success" and no error. *)
Lemma permissive_answers body w :
  nullish body = false ->
  exists r w',
    Permissive.handleIncomingWebhook body w = (Ok r, w')
    /\ res_status r = 200%Z
    /\ body_field r "status" = JStr "success"
    /\ body_field r "error" = JUndefined.
Proof.
  intros Hn.
  enough (wp (Permissive.handle body)
             (fun r _ => exists resp, r = Ok resp /\ res_status resp = 200%Z
                                      /\ body_field resp "status" = JStr "success"
                                      /\ body_field resp "error" = JUndefined) w)
    as Hwp.
  { unfold wp in Hwp. unfold Permissive.handleIncomingWebhook, try_catch.
    destruct (Permissive.handle body w) as [r w']. simpl in Hwp.
    destruct Hwp as (resp & -> & Hr). exists resp, w'. auto. }
  apply permissive_rule; [exact Hn | | |].
  - intros w1 _ _. eexists. repeat split.
  - intros w1 _. eexists. repeat split.
  - intros w1 user _. unfold process_and_log.
    pose proof (payload_not_nullish body Hn) as Hpn.
    apply wp_bind. unfold wp at 1.
    destruct (processContact_returns (email_of (payload_of body))
                (name_of (payload_of body)) (phone_of (payload_of body)) user w1)
      as [w2 ->].
    cbn [fst snd]. apply wp_bind.
    eapply wp_conseq; [apply processDeal_returns; exact Hpn|]. cbv beta.
    intros r w3 [-> | ->].
    + apply wp_bind.
      eapply wp_conseq; [apply logProcessedWebhook_spec|]. cbv beta.
      intros r w4 [-> _]. apply wp_ret. eexists. repeat split.
    + apply wp_ret. eexists. repeat split.
Qed.

End PermissiveAnswers.

(** ** Automation never breaks a delivery *)

Lemma storage_runs {A} (op : world -> A * world) w :
  hd false (faults w) = false ->
  exists w0, unchanged w w0 /\ storage op w = (Ok (fst (op w0)), snd (op w0)).
Proof.
  intros Hhd. unfold storage.
  destruct (faults w) as [|[|] fs] eqn:E; simpl in Hhd; try discriminate.
  - exists w. split; [apply unchanged_refl|]. destruct (op w); reflexivity.
  - exists (set_faults fs w). split; [eexists; reflexivity|].
    destruct (op (set_faults fs w)); reflexivity.
Qed.

(** The activity that records the failure of a workflow. *)
Definition failure_activity (id : string) (eventName : string)
    (contact : loadedContact) (workflow : workflow) (error : exn) : activity :=
  {| activity_id := id;
     activity_type := "workflow_failed";
     activity_note := "Workflow '" ++ workflow_name workflow
                        ++ "' failed to execute for event '" ++ eventName ++ "': "
                        ++ message error;
     activity_contactId := JStr (contact_id (lc_contact contact));
     activity_dealId := JNull;
     activity_userId := stored (contact_userId (lc_contact contact));
     activity_data := JObj [("workflowId", JStr (workflow_id workflow));
                            ("eventName", JStr eventName);
                            ("error", JStr (message error))] |}.

(** A computation that makes no storage call: its result does not depend
    on the world, which it leaves as it is. *)
Definition storeless {A} (m : M A) : Prop := forall w w0, m w = (fst (m w0), w).

(** What an activity says. *)
Definition activity_summary (a : activity) : string * string * json :=
  (activity_type a, activity_note a, activity_contactId a).

(** The contact as [triggerWorkflow] loads it, with its deals. *)
Definition load_contact (c : contact) (w : world) : loadedContact :=
  {| lc_contact := c;
     lc_deals := map (prisma.load_deal w)
                     (filter (fun d => is_str (deal_contactId d) (contact_id c))
                             (deals w)) |}.

(** What the run of one workflow leaves in the activities: a
    [workflow_executed] activity when its conditions are met, nothing when
    they are not, a [workflow_failed] activity with the message of the
    exception when their evaluation throws. *)
Definition workflow_record `{Runtime} (eventName : string) (contact : loadedContact)
    (w : world) (workflow : workflow) : list (string * string * json) :=
  match fst (Automation.evaluateWorkflowConditions workflow contact w) with
  | Ok true =>
      [("workflow_executed",
        "Workflow '" ++ workflow_name workflow
          ++ "' executed successfully for event '" ++ eventName ++ "'",
        JStr (contact_id (lc_contact contact)))]
  | Ok false => []
  | Throw error =>
      [("workflow_failed",
        "Workflow '" ++ workflow_name workflow ++ "' failed to execute for event '"
          ++ eventName ++ "': " ++ message error,
        JStr (contact_id (lc_contact contact)))]
  end.

Section AutomationRuns.
Context `{Runtime}.

Lemma storeless_ret {A} (a : A) : storeless (ret a).
Proof. intros w w0. reflexivity. Qed.

Lemma storeless_throw {A} (e : exn) : storeless (@throw A e).
Proof. intros w w0. reflexivity. Qed.

Lemma storeless_bind {A B} (m : M A) (k : A -> M B) :
  storeless m -> (forall a, storeless (k a)) -> storeless (bind m k).
Proof.
  intros Hm Hk w w0. unfold bind.
  rewrite (Hm w w0), (Hm w0 w0).
  destruct (fst (m w0)) as [a|e]; [apply Hk | reflexivity].
Qed.

Lemma storeless_get o k : storeless (get o k).
Proof. unfold get. destruct (nullish o); [apply storeless_throw | apply storeless_ret]. Qed.

Lemma storeless_iterate what v : storeless (iterate what v).
Proof. destruct v; simpl; first [apply storeless_throw | apply storeless_ret]. Qed.

Ltac storeless_step :=
  first
    [ apply storeless_ret
    | apply storeless_throw
    | apply storeless_get
    | apply storeless_iterate
    | apply storeless_bind; [| intros ?]
    | match goal with
      | |- storeless (if ?x then _ else _) => destruct x
      | |- storeless (match ?x with _ => _ end) => destruct x
      end ].

Lemma evaluateCondition_storeless contact condition :
  storeless (Automation.evaluateCondition contact condition).
Proof. unfold Automation.evaluateCondition. repeat storeless_step. Qed.

Lemma evaluateConditions_storeless contact l :
  storeless (Automation.evaluateConditions contact l).
Proof.
  induction l as [|c l IH]; simpl; [apply storeless_ret|].
  apply storeless_bind; [apply evaluateCondition_storeless|].
  intros [b|]; [apply storeless_ret | exact IH].
Qed.

Lemma evaluateWorkflowConditions_storeless workflow contact :
  storeless (Automation.evaluateWorkflowConditions workflow contact).
Proof.
  unfold Automation.evaluateWorkflowConditions. cbv zeta.
  repeat match goal with
         | |- storeless (if ?x then _ else _) => destruct x
         end; try apply storeless_ret.
  apply storeless_bind; [apply storeless_iterate|].
  intros l. apply evaluateConditions_storeless.
Qed.

(** With a working storage an action ends, and leaves the storage working
    and the activities as they are. *)
Lemma executeAction_quiet contact action w :
  faults w = [] ->
  wp (Automation.executeAction contact action)
     (fun _ w' => faults w' = [] /\ activities w' = activities w) w.
Proof.
  intros Hf. unfold Automation.executeAction. autounfold with js. cbv zeta.
  repeat (wp_ok_step; cbn [fst snd]); auto.
Qed.

Lemma executeActions_quiet contact actions : forall results w,
  faults w = [] ->
  wp (Automation.executeActions contact actions results)
     (fun r w' => (exists rs, r = Ok rs) /\ faults w' = []
                  /\ activities w' = activities w) w.
Proof.
  induction actions as [|a l IH]; intros results w Hf; simpl.
  - apply wp_ret. eauto.
  - apply wp_bind, wp_try.
    eapply wp_conseq; [apply executeAction_quiet; exact Hf|]. cbv beta.
    intros [pushed|e] w1 [Hf1 Ha1].
    + eapply wp_conseq; [apply IH; exact Hf1|]. cbv beta.
      intros r w2 (Hr & Hf2 & Ha2). split; [exact Hr|]. split; [exact Hf2|]. congruence.
    + apply wp_ret.
      eapply wp_conseq; [apply IH; exact Hf1|]. cbv beta.
      intros r w2 (Hr & Hf2 & Ha2). split; [exact Hr|]. split; [exact Hf2|]. congruence.
Qed.

(** One turn of the loop of [triggerWorkflow], the storage working. *)
Lemma workflow_turn eventName contact workflow w0 w :
  faults w = [] ->
  wp (try_catch (Automation.runWorkflow eventName contact workflow)
                (Automation.recordFailure eventName contact workflow))
     (fun r w' =>
        r = Ok tt /\ faults w' = []
        /\ map activity_summary (activities w')
           = (map activity_summary (activities w)
                ++ workflow_record eventName contact w0 workflow)%list) w.
Proof.
  intros Hf. unfold workflow_record.
  apply wp_try. unfold Automation.runWorkflow.
  apply wp_bind. unfold wp at 1.
  rewrite (evaluateWorkflowConditions_storeless workflow contact w w0). cbn [fst snd].
  destruct (fst (Automation.evaluateWorkflowConditions workflow contact w0))
    as [[|]|error].
  - apply wp_bind. unfold Automation.executeWorkflowActions.
    apply wp_bind.
    eapply wp_conseq; [apply executeActions_quiet; exact Hf|]. cbv beta.
    intros r w1 ([rs ->] & Hf1 & Ha1).
    apply wp_ret, wp_bind. unfold prisma.activity_create.
    apply wp_storage_ok; [exact Hf1|]. cbn [fst snd].
    apply wp_ret. split; [reflexivity|]. split; [exact Hf1|].
    cbn [activities bump set_activities]. rewrite map_app, Ha1. reflexivity.
  - apply wp_ret. split; [reflexivity|]. split; [exact Hf|].
    rewrite app_nil_r. reflexivity.
  - unfold Automation.recordFailure, prisma.activity_create.
    apply wp_bind, wp_storage_ok; [exact Hf|]. cbn [fst snd].
    apply wp_ret. split; [reflexivity|]. split; [exact Hf|].
    cbn [activities bump set_activities]. rewrite map_app. reflexivity.
Qed.

Lemma workflow_loop eventName contact w0 workflows : forall w,
  faults w = [] ->
  wp (for_each workflows
        (fun workflow =>
           try_catch (Automation.runWorkflow eventName contact workflow)
                     (Automation.recordFailure eventName contact workflow)))
     (fun r w' =>
        r = Ok tt /\ faults w' = []
        /\ map activity_summary (activities w')
           = (map activity_summary (activities w)
                ++ flat_map (workflow_record eventName contact w0) workflows)%list) w.
Proof.
  induction workflows as [|f l IH]; intros w Hf; simpl.
  - apply wp_ret. split; [reflexivity|]. split; [exact Hf|].
    rewrite app_nil_r. reflexivity.
  - apply wp_bind.
    eapply wp_conseq; [apply (workflow_turn eventName contact f w0); exact Hf|].
    cbv beta. intros r w1 (-> & Hf1 & Ha1).
    eapply wp_conseq; [apply IH; exact Hf1|]. cbv beta.
    intros r w2 (-> & Hf2 & Ha2). split; [reflexivity|]. split; [exact Hf2|].
    rewrite Ha2, Ha1, app_assoc. reflexivity.
Qed.

(** [triggerWorkflow] for a contact of the store, the storage working:
    every active workflow of the event is run, in order, against the
    contact as it was loaded. *)
Lemma triggerWorkflow_runs eventName contactId w c :
  faults w = [] ->
  find (fun c => is_str contactId (contact_id c)) (contacts w) = Some c ->
  exists w',
    Automation.triggerWorkflow eventName contactId w
    = (Ok {| Automation.success := true;
             Automation.result_message :=
               "Processed "
                 ++ NilZero.string_of_uint
                      (Nat.to_uint (List.length (triggered eventName w)))
                 ++ " workflows for event '" ++ eventName ++ "'" |}, w')
    /\ faults w' = []
    /\ map activity_summary (activities w')
       = (map activity_summary (activities w)
            ++ flat_map (workflow_record eventName (load_contact c w) w)
                 (triggered eventName w))%list.
Proof.
  intros Hf Hc.
  enough (wp (Automation.triggerWorkflow eventName contactId)
            (fun r w' =>
               r = Ok {| Automation.success := true;
                         Automation.result_message :=
                           "Processed "
                             ++ NilZero.string_of_uint
                                  (Nat.to_uint (List.length (triggered eventName w)))
                             ++ " workflows for event '" ++ eventName ++ "'" |}
               /\ faults w' = []
               /\ map activity_summary (activities w')
                  = (map activity_summary (activities w)
                       ++ flat_map (workflow_record eventName (load_contact c w) w)
                            (triggered eventName w))%list) w) as Hwp.
  { unfold wp in Hwp.
    destruct (Automation.triggerWorkflow eventName contactId w) as [r w'].
    cbn [fst snd] in Hwp. destruct Hwp as (-> & Hf' & Ha). exists w'. auto. }
  unfold Automation.triggerWorkflow.
  apply wp_try, wp_bind. unfold prisma.contact_findUnique_with_deals.
  apply wp_query_ok; [exact Hf|]. rewrite Hc.
  apply wp_bind. unfold prisma.workflow_findMany.
  apply wp_query_ok; [exact Hf|].
  apply wp_bind.
  eapply wp_conseq;
    [apply (workflow_loop eventName (load_contact c w) w); exact Hf|].
  cbv beta. intros r w1 (-> & Hf1 & Ha1).
  apply wp_ret. split; [reflexivity|]. split; [exact Hf1 | exact Ha1].
Qed.

End AutomationRuns.

(** C7. [triggerWorkflow] returns a result object for every event name and
    contact id, in every world: no exception leaves it. When the run of one
    workflow throws, its [catch] block records the failure as an activity
    (the storage accepting the write) and the loop goes on: for a contact
    of the store and a working storage, [triggerWorkflow] answers success
    with the number of the active workflows of the event, and it appends
    to the activities, in the order of the workflows, one
    [workflow_executed] activity for each workflow whose conditions are
    met, none for one whose conditions are not, and one [workflow_failed]
    activity with the message of the exception for each workflow that
    throws. So the webhook answer does not depend on the automation: the
    permissive handler, the one that calls it, answers HTTP 200 with status
    "success" whatever the storage and the workflows do. *)
Theorem automation_never_throws :
  (forall (R : Runtime) eventName contactId w,
      exists r w', Automation.triggerWorkflow eventName contactId w = (Ok r, w'))
  /\ (forall (R : Runtime) eventName contact workflow error w w1,
         Automation.runWorkflow eventName contact workflow w = (Throw error, w1) ->
         hd false (faults w1) = false ->
         exists id w',
           try_catch (Automation.runWorkflow eventName contact workflow)
                     (Automation.recordFailure eventName contact workflow) w
           = (Ok tt, w')
           /\ activities w'
              = (activities w1
                   ++ [failure_activity id eventName contact workflow error])%list)
  /\ (forall (R : Runtime) eventName contactId w c,
         faults w = [] ->
         find (fun c => is_str contactId (contact_id c)) (contacts w) = Some c ->
         exists w',
           Automation.triggerWorkflow eventName contactId w
           = (Ok {| Automation.success := true;
                    Automation.result_message :=
                      "Processed "
                        ++ NilZero.string_of_uint
                             (Nat.to_uint (List.length (triggered eventName w)))
                        ++ " workflows for event '" ++ eventName ++ "'" |}, w')
           /\ map activity_summary (activities w')
              = (map activity_summary (activities w)
                   ++ flat_map (workflow_record eventName (load_contact c w) w)
                        (triggered eventName w))%list)
  /\ (forall (R : Runtime) body w,
         nullish body = false ->
         exists r w',
           Permissive.handleIncomingWebhook body w = (Ok r, w')
           /\ res_status r = 200%Z
           /\ body_field r "status" = JStr "success"
           /\ body_field r "error" = JUndefined).
Proof.
  split.
  { intros R eventName contactId w.
    destruct (triggerWorkflow_returns eventName contactId w) as [r Hr].
    destruct (Automation.triggerWorkflow eventName contactId w) as [r' w'].
    simpl in Hr. subst r'. eauto. }
  split.
  { intros R eventName contact workflow error w w1 Hrun Hhd.
    unfold try_catch. rewrite Hrun.
    unfold Automation.recordFailure, prisma.activity_create, bind.
    match goal with |- context [storage ?op w1] =>
      destruct (storage_runs op w1 Hhd) as (w0 & U & ->) end.
    cbn [fst snd]. unfold ret.
    exists (fresh_id w0). eexists. split; [reflexivity|].
    chain. reflexivity. }
  split.
  { intros R eventName contactId w c Hf Hc.
    destruct (triggerWorkflow_runs eventName contactId w c Hf Hc)
      as (w' & Hrun & _ & Ha).
    exists w'. split; [exact Hrun | exact Ha]. }
  intros R body w Hn. apply permissive_answers. exact Hn.
Qed.

(** A store with a contact and one active workflow on [deal_created]
    whose conditions cannot be iterated. *)
Definition workflowWorld : world :=
  {| users := users dealWorld; contacts := contacts dealWorld;
     pipelines := pipelines dealWorld; stages := stages dealWorld;
     deals := deals dealWorld; activities := []; webhookLogs := [];
     workflows :=
       [{| workflow_id := "wf1"; workflow_name := "Welcome";
           workflow_isActive := true; workflow_triggers := ["deal_created"];
           workflow_conditions := JObj [("conditions", JNum 5)];
           workflow_actions := [] |}];
     tasks := []; nextId := 0; clock := clock dealWorld; faults := [] |}.


Definition statusContact : loadedContact :=
  {| lc_contact := {| contact_id := "c1"; contact_email := JStr "status@example.com";
                      contact_firstName := JStr "Status";
                      contact_lastName := JStr "User";
                      contact_phone := JStr "555-0100"; contact_userId := JStr "u1" |};
     lc_deals := [] |}.

Definition welcomeWorkflow : workflow :=
  {| workflow_id := "wf1"; workflow_name := "Welcome";
     workflow_isActive := true; workflow_triggers := ["deal_created"];
     workflow_conditions := JObj [("conditions", JNum 5)];
     workflow_actions := [] |}.

Definition notIterable : exn :=
  TypeError "workflow.conditions.conditions is not iterable".

Lemma automation_never_throws_witness :
  (exists id w',
      try_catch
        (Automation.runWorkflow (H := exampleRuntime) "deal_created" statusContact
           welcomeWorkflow)
        (Automation.recordFailure "deal_created" statusContact welcomeWorkflow)
        workflowWorld
      = (Ok tt, w')
      /\ activities w'
         = (activities workflowWorld
              ++ [failure_activity id "deal_created" statusContact welcomeWorkflow
                    notIterable])%list)
  /\ (exists w',
        Automation.triggerWorkflow (H := exampleRuntime) "deal_created" (JStr "c1")
          workflowWorld
        = (Ok {| Automation.success := true;
                 Automation.result_message :=
                   "Processed 1 workflows for event 'deal_created'" |}, w')
        /\ map activity_summary (activities w')
           = [("workflow_failed",
               "Workflow 'Welcome' failed to execute for event 'deal_created': "
                 ++ "workflow.conditions.conditions is not iterable",
               JStr "c1")]).
Proof.
  split.
  - apply (proj1 (proj2 automation_never_throws) exampleRuntime "deal_created"
             statusContact welcomeWorkflow notIterable workflowWorld workflowWorld);
      reflexivity.
  - apply (proj1 (proj2 (proj2 automation_never_throws)) exampleRuntime
             "deal_created" (JStr "c1") workflowWorld (lc_contact statusContact));
      reflexivity.
Defined.

(** The whole of [triggerWorkflow] on that store: the failure of the
    workflow is recorded and the call returns success. *)
Example workflow_failure_is_recorded :
  let run := Automation.triggerWorkflow (H := exampleRuntime) "deal_created"
               (JStr "c1") workflowWorld in
  fst run = Ok {| Automation.success := true;
                  Automation.result_message :=
                    "Processed 1 workflows for event 'deal_created'" |}
  /\ map (fun a => (activity_type a, activity_note a)) (activities (snd run))
     = [("workflow_failed",
         "Workflow 'Welcome' failed to execute for event 'deal_created': "
           ++ "workflow.conditions.conditions is not iterable")].
Proof. vm_compute. split; reflexivity. Qed.

(** ** Contact fields across a whole delivery *)

(** [payload.contact || payload.data?.contact || {}] and the fields the
    secured variant reads from it. *)
Definition contact_data_of (payload : json) : json :=
  js_or (prop payload "contact")
    (js_or (get_opt (prop payload "data") "contact") (JObj [])).

Definition booked_email (payload : json) : json :=
  js_or (prop (contact_data_of payload) "email") (prop payload "email").

Definition booked_name (payload : json) : json :=
  js_or (prop (contact_data_of payload) "name")
    (prop (contact_data_of payload) "full_name").

Definition booked_phone (payload : json) : json :=
  js_or (prop (contact_data_of payload) "phone")
    (prop (contact_data_of payload) "phone_number").

Section ContactAcrossDelivery.
Context `{Runtime}.

Lemma logProcessedWebhook_keeps_contacts key payload status :
  preserves (keeps contacts) (Permissive.logProcessedWebhook key payload status).
Proof. unfold Permissive.logProcessedWebhook. autounfold with js. frame. Qed.

Lemma contact_by_email_kept email w w' :
  contacts w' = contacts w -> contact_by_email email w' = contact_by_email email w.
Proof. unfold contact_by_email. intros ->. reflexivity. Qed.

Lemma permissive_keeps_contact_fields body w c :
  nullish body = false ->
  contact_by_email (email_of (payload_of body)) w = Some c ->
  exists c',
    contact_by_email (email_of (payload_of body))
      (snd (Permissive.handleIncomingWebhook body w)) = Some c'
    /\ kept_fields (fst (parseName (name_of (payload_of body))))
         (snd (parseName (name_of (payload_of body))))
         (phone_of (payload_of body)) c c'.
Proof.
  intros Hn Hc.
  set (payload := payload_of body) in *.
  enough (wp (Permissive.handle body)
             (fun _ w' =>
                exists c', contact_by_email (email_of payload) w' = Some c'
                           /\ kept_fields (fst (parseName (name_of payload)))
                                (snd (parseName (name_of payload)))
                                (phone_of payload) c c') w) as Hwp.
  { unfold wp in Hwp. unfold Permissive.handleIncomingWebhook, try_catch.
    destruct (Permissive.handle body w) as [[r|e] w']; exact Hwp. }
  assert (Hsame : forall w1, unchanged w w1 ->
            exists c', contact_by_email (email_of payload) w1 = Some c'
                       /\ kept_fields (fst (parseName (name_of payload)))
                            (snd (parseName (name_of payload)))
                            (phone_of payload) c c').
  { intros w1 U. chain. exists c. split; [exact Hc | apply kept_fields_refl]. }
  apply permissive_rule; [exact Hn | | |].
  - intros w1 U _. apply Hsame, U.
  - intros w1 U. apply Hsame, U.
  - intros w1 user U. fold payload. unfold process_and_log.
    assert (Hc1 : contact_by_email (email_of payload) w1 = Some c)
      by (chain; exact Hc).
    apply wp_bind.
    eapply wp_conseq; [apply (processContact_keeps _ _ _ user c w1 Hc1)|]. cbv beta.
    intros r w2 (c' & Hc2 & Hk).
    destruct r as [[]|e]; [|exists c'; auto].
    apply wp_bind.
    apply (wp_frame contacts_extended); [apply processDeal_extends|].
    intros r w3 Hext.
    pose proof (contact_by_email_extended _ _ _ _ Hext Hc2) as Hc3.
    destruct r as [[resp|[]]|e]; [apply wp_ret | | ]; try solve [exists c'; auto].
    apply wp_bind.
    apply (wp_frame (keeps contacts)); [apply logProcessedWebhook_keeps_contacts|].
    intros r w4 Hkeep. unfold keeps in Hkeep.
    assert (Hc4 : contact_by_email (email_of payload) w4 = Some c').
    { rewrite (contact_by_email_kept _ _ _ Hkeep). exact Hc3. }
    destruct r; [apply wp_ret|]; exists c'; auto.
Qed.

End ContactAcrossDelivery.

Section SecuredContact.
Context `{Runtime}.

Lemma createDeal_keeps_contacts title value stageId pipelineId contactId userId source :
  preserves (keeps contacts)
    (Secured.createDeal title value stageId pipelineId contactId userId source).
Proof. unfold Secured.createDeal. autounfold with js. frame. Qed.

Lemma handleStatusChanged_keeps_contacts payload user :
  preserves (keeps contacts) (Secured.handleStatusChanged payload user).
Proof.
  unfold Secured.handleStatusChanged, Secured.updateDealStage, Secured.logActivity,
    Secured.findStageByStatus.
  autounfold with js. frame.
Qed.

Lemma wp_contact_data payload w :
  nullish payload = false ->
  wp (get payload "contact"
        ||> (d <- get payload "data" ;; ret (get_opt d "contact"))
        ||> ret (JObj []))
     (fun r w' => r = Ok (contact_data_of payload) /\ w' = w) w.
Proof.
  intros Hn. unfold or_else, get, contact_data_of, js_or. rewrite Hn.
  repeat (wp_step; auto).
Qed.

Lemma contact_data_not_nullish payload : nullish (contact_data_of payload) = false.
Proof.
  unfold contact_data_of, js_or.
  destruct (truthy (prop payload "contact")) eqn:E1; [apply truthy_not_nullish, E1|].
  destruct (truthy (get_opt _ _)) eqn:E2; [apply truthy_not_nullish, E2 | reflexivity].
Qed.

(** [handleAppointmentBooked] on a payload whose contact exists. *)
Lemma handleAppointmentBooked_keeps payload user c w :
  nullish payload = false ->
  contact_by_email (booked_email payload) w = Some c ->
  wp (Secured.handleAppointmentBooked payload user)
     (fun _ w' =>
        exists c', contact_by_email (booked_email payload) w' = Some c'
                   /\ kept_fields (fst (parseName (booked_name payload)))
                        (snd (parseName (booked_name payload)))
                        (booked_phone payload) c c') w.
Proof.
  intros Hn Hc. unfold Secured.handleAppointmentBooked.
  pose proof (contact_data_not_nullish payload) as Hcd.
  apply wp_bind.
  eapply wp_conseq; [apply wp_contact_data; exact Hn|]. cbv beta.
  intros r w' [-> ->].
  apply wp_bind.
  assert (He : wp (get (contact_data_of payload) "email" ||> get payload "email")
                  (fun r w' => r = Ok (booked_email payload) /\ w' = w) w).
  { unfold or_else, get, booked_email, js_or. rewrite Hcd, Hn. repeat (wp_step; auto). }
  eapply wp_conseq; [exact He|]. clear He. cbv beta. intros r w' [-> ->].
  apply wp_bind.
  assert (Hnm : wp (get (contact_data_of payload) "name"
                      ||> get (contact_data_of payload) "full_name")
                   (fun r w' => r = Ok (booked_name payload) /\ w' = w) w).
  { unfold or_else, get, booked_name, js_or. rewrite Hcd. repeat (wp_step; auto). }
  eapply wp_conseq; [exact Hnm|]. clear Hnm. cbv beta. intros r w' [-> ->].
  apply wp_bind.
  assert (Hph : wp (get (contact_data_of payload) "phone"
                      ||> get (contact_data_of payload) "phone_number")
                   (fun r w' => r = Ok (booked_phone payload) /\ w' = w) w).
  { unfold or_else, get, booked_phone, js_or. rewrite Hcd. repeat (wp_step; auto). }
  eapply wp_conseq; [exact Hph|]. clear Hph. cbv beta. intros r w' [-> ->].
  destruct (parseName (booked_name payload)) as [firstName lastName]. cbn [fst snd].
  apply wp_bind.
  eapply wp_conseq;
    [apply (upsertContact_keeps (booked_email payload) firstName lastName
              (booked_phone payload) (JStr (user_id user)) c w Hc)|].
  cbv beta. intros r w2 (c' & Hc2 & Hk).
  destruct r as [contact|e]; [|exists c'; auto].
  apply (wp_frame (keeps contacts)).
  - unfold Secured.logActivity. autounfold with js.
    repeat first [apply createDeal_keeps_contacts | frame_step].
  - intros r w3 Hkeep. unfold keeps in Hkeep.
    exists c'. rewrite (contact_by_email_kept _ _ _ Hkeep). auto.
Qed.

Lemma secured_keeps_contact_fields ICLOSED_SECRET req w c :
  contact_by_email (booked_email (Secured.body req)) w = Some c ->
  exists c',
    contact_by_email (booked_email (Secured.body req))
      (snd (Secured.handleIncomingWebhook ICLOSED_SECRET req w)) = Some c'
    /\ kept_fields (fst (parseName (booked_name (Secured.body req))))
         (snd (parseName (booked_name (Secured.body req))))
         (booked_phone (Secured.body req)) c c'.
Proof.
  intros Hc. set (payload := Secured.body req) in *.
  assert (Hsame : forall w1, unchanged w w1 ->
            exists c', contact_by_email (booked_email payload) w1 = Some c'
                       /\ kept_fields (fst (parseName (booked_name payload)))
                            (snd (parseName (booked_name payload)))
                            (booked_phone payload) c c').
  { intros w1 U. chain. exists c. split; [exact Hc | apply kept_fields_refl]. }
  unfold Secured.handleIncomingWebhook, try_catch.
  destruct (Secured.secret_rejected _ _); [apply Hsame, unchanged_refl|].
  enough (wp (Secured.handle payload)
             (fun _ w' =>
                exists c', contact_by_email (booked_email payload) w' = Some c'
                           /\ kept_fields (fst (parseName (booked_name payload)))
                                (snd (parseName (booked_name payload)))
                                (booked_phone payload) c c') w) as Hwp.
  { unfold wp in Hwp. subst payload.
    destruct (Secured.handle (Secured.body req) w) as [[r|e] w']; exact Hwp. }
  apply handle_rule.
  - intros _. apply Hsame, unchanged_refl.
  - intros w1 U _. apply Hsame, U.
  - intros w1 resp U _ _. apply Hsame, U.
  - intros w1 user U Hp _.
    pose proof (truthy_not_nullish _ Hp) as Hn.
    assert (Hc1 : contact_by_email (booked_email payload) w1 = Some c)
      by (chain; exact Hc).
    unfold dispatch_and_commit, Secured.dispatch.
    apply wp_bind.
    assert (Hdisp :
      wp (if is_str (prop payload "event") "appointment_booked"
          then Secured.handleAppointmentBooked payload user ;;; ret (Next tt)
          else if is_str (prop payload "event") "status_changed"
          then Secured.handleStatusChanged payload user ;;; ret (Next tt)
          else ret (Return (respond 200
                      [("status", JStr "success");
                       ("message", JStr ("Event type " ++ js_String (prop payload "event")
                                           ++ " received but not processed"))])))
         (fun _ w' =>
            exists c', contact_by_email (booked_email payload) w' = Some c'
                       /\ kept_fields (fst (parseName (booked_name payload)))
                            (snd (parseName (booked_name payload)))
                            (booked_phone payload) c c') w1).
    { destruct (is_str (prop payload "event") "appointment_booked").
      - apply wp_bind.
        eapply wp_conseq; [apply (handleAppointmentBooked_keeps payload user c w1 Hn Hc1)|].
        cbv beta. intros [a|e] w2 Hex; [apply wp_ret|]; exact Hex.
      - destruct (is_str (prop payload "event") "status_changed").
        + apply wp_bind.
          apply (wp_frame (keeps contacts)); [apply handleStatusChanged_keeps_contacts|].
          intros r w2 Hkeep. unfold keeps in Hkeep.
          assert (Hex : exists c', contact_by_email (booked_email payload) w2 = Some c'
                           /\ kept_fields (fst (parseName (booked_name payload)))
                                (snd (parseName (booked_name payload)))
                                (booked_phone payload) c c').
          { exists c. rewrite (contact_by_email_kept _ _ _ Hkeep).
            split; [exact Hc1 | apply kept_fields_refl]. }
          destruct r; [apply wp_ret|]; exact Hex.
        + apply wp_ret. exists c. split; [exact Hc1 | apply kept_fields_refl]. }
    eapply wp_conseq; [exact Hdisp|]. clear Hdisp. cbv beta.
    intros r w2 (c' & Hc2 & Hk).
    destruct r as [[resp|[]]|e]; [apply wp_ret | | ]; try solve [exists c'; auto].
    apply (wp_frame (keeps contacts)).
    + unfold Secured.markProcessed. autounfold with js. frame.
    + intros r w3 Hkeep. unfold keeps in Hkeep.
      exists c'. rewrite (contact_by_email_kept _ _ _ Hkeep). auto.
Qed.

End SecuredContact.

(** C6. When a delivery names, by its email, a contact that exists, then
    after the delivery, under any storage failure, the contact of that
    email is the same row with every field whose incoming value is absent
    kept: without a phone in the payload the stored phone stays, without a
    name the first and last name stay, and with a one-word name the last
    name stays. This holds for the permissive handler and for the secured
    one. *)
Theorem contact_update_keeps_absent_fields :
  (forall (R : Runtime) body w c,
      nullish body = false ->
      contact_by_email (email_of (payload_of body)) w = Some c ->
      exists c',
        contact_by_email (email_of (payload_of body))
          (snd (Permissive.handleIncomingWebhook body w)) = Some c'
        /\ kept_fields (fst (parseName (name_of (payload_of body))))
             (snd (parseName (name_of (payload_of body))))
             (phone_of (payload_of body)) c c')
  /\ (forall (R : Runtime) ICLOSED_SECRET req w c,
         contact_by_email (booked_email (Secured.body req)) w = Some c ->
         exists c',
           contact_by_email (booked_email (Secured.body req))
             (snd (Secured.handleIncomingWebhook ICLOSED_SECRET req w)) = Some c'
           /\ kept_fields (fst (parseName (booked_name (Secured.body req))))
                (snd (parseName (booked_name (Secured.body req))))
                (booked_phone (Secured.body req)) c c').
Proof.
  split.
  - intros R. exact (@permissive_keeps_contact_fields R).
  - intros R. exact (@secured_keeps_contact_fields R).
Qed.

(** A follow-up for the contact of [dealWorld], with a one-word name and
    no phone. *)
Definition followUp : json :=
  JObj [("event", JStr "call_booked");
        ("contact", JObj [("email", JStr "status@example.com");
                          ("name", JStr "Statia")])].

Lemma contact_update_keeps_absent_fields_witness :
  exists c',
    contact_by_email (JStr "status@example.com")
      (snd (Permissive.handleIncomingWebhook (H := exampleRuntime) followUp dealWorld))
    = Some c'
    /\ kept_fields (JStr "Statia") JNull JUndefined
         {| contact_id := "c1"; contact_email := JStr "status@example.com";
            contact_firstName := JStr "Status"; contact_lastName := JStr "User";
            contact_phone := JStr "555-0100"; contact_userId := JStr "u1" |} c'.
Proof.
  apply (proj1 contact_update_keeps_absent_fields exampleRuntime followUp dealWorld);
    reflexivity.
Defined.

(** The follow-up evaluated in both variants: the first name is
    overwritten, the last name and the phone are the stored ones. *)
Example follow_up_keeps_phone :
  let fields w := map (fun c => (contact_firstName c, contact_lastName c,
                                 contact_phone c)) (contacts w) in
  fields (snd (Permissive.handleIncomingWebhook (H := exampleRuntime) followUp
                 dealWorld))
  = [(JStr "Statia", JStr "User", JStr "555-0100")]
  /\ fields (snd (Secured.handleIncomingWebhook (Some "test-secret")
                    {| Secured.x_webhook_secret := Some "test-secret";
                       Secured.body :=
                         JObj [("event", JStr "appointment_booked");
                               ("contact", JObj [("email", JStr "status@example.com");
                                                 ("name", JStr "Statia")])] |}
                    dealWorld))
     = [(JStr "Statia", JStr "User", JStr "555-0100")].
Proof. vm_compute. split; reflexivity. Qed.

(** ** Deals without a value or without a title *)

(** [dealData.title || dealData.name || dealData.Title || dealData.Name] *)
Definition deal_title_of (dealData : json) : json :=
  js_or (prop dealData "title")
    (js_or (prop dealData "name") (js_or (prop dealData "Title") (prop dealData "Name"))).

Definition dealValue_not_initialized : exn :=
  ReferenceError "Cannot access 'dealValue' before initialization".

(** The webhook log and the clock, which the delivery identifier of the
    permissive variant depends on. *)
Definition log_view (w : world) : list webhookLog * string := (webhookLogs w, clock w).

(** The deal side of the store. *)
Definition deal_view (w : world)
  : list deal * list pipeline * list pipelineStage * list activity :=
  (deals w, pipelines w, stages w, activities w).

#[export] Instance Frame_log_view : Frame (keeps log_view).
Proof. apply Frame_keeps. reflexivity. Qed.

#[export] Instance Frame_deal_view : Frame (keeps deal_view).
Proof. apply Frame_keeps. reflexivity. Qed.

Section DealShape.
Context `{Runtime}.

Lemma wp_deal_title dealData w :
  nullish dealData = false ->
  wp (get dealData "title" ||> get dealData "name"
        ||> get dealData "Title" ||> get dealData "Name")
     (fun r w' => r = Ok (deal_title_of dealData) /\ w' = w) w.
Proof.
  intros Hn. unfold or_else, get, deal_title_of, js_or. rewrite Hn.
  repeat (wp_step; auto).
Qed.

(** With a deal whose value is absent or falsy the body of the deal
    processing throws on the reference to [dealValue], before any storage
    call. *)
Lemma processDealBody_throws payload dealData email user w :
  truthy dealData = true -> truthy (prop dealData "value") = false ->
  Permissive.processDealBody payload dealData email user w
  = (Throw dealValue_not_initialized, w).
Proof.
  intros Hd Hv. pose proof (truthy_not_nullish _ Hd) as Hn.
  enough (wp (Permissive.processDealBody payload dealData email user)
             (fun r w' => r = Throw dealValue_not_initialized /\ w' = w) w) as Hwp.
  { unfold wp in Hwp.
    destruct (Permissive.processDealBody payload dealData email user w) as [r w'].
    simpl in Hwp. destruct Hwp as [-> ->]. reflexivity. }
  unfold Permissive.processDealBody.
  apply wp_bind.
  eapply wp_conseq; [apply wp_deal_title; exact Hn|]. cbv beta.
  intros r w' [-> ->].
  apply wp_bind. unfold or_else at 1. apply wp_bind.
  unfold get at 1. rewrite Hn. apply wp_ret. rewrite Hv.
  unfold or_else at 1. apply wp_bind, wp_bind.
  unfold before_initialization. apply wp_throw. auto.
Qed.

Lemma processDeal_swallows payload email user w :
  nullish payload = false ->
  truthy (prop payload "deal") = true ->
  truthy (prop (prop payload "deal") "value") = false ->
  Permissive.processDeal payload email user w = (Ok (Next tt), w).
Proof.
  intros Hn Hd Hv. unfold Permissive.processDeal, bind, get. rewrite Hn.
  unfold ret at 1. rewrite Hd. unfold try_catch.
  rewrite processDealBody_throws by assumption. reflexivity.
Qed.

(** With a deal that has a value and no title the deal processing returns
    the early answer, before any storage call. *)
Lemma processDeal_returns_early payload email user w :
  nullish payload = false ->
  truthy (prop payload "deal") = true ->
  truthy (prop (prop payload "deal") "value") = true ->
  truthy (deal_title_of (prop payload "deal")) = false ->
  Permissive.processDeal payload email user w = (Ok (Return Permissive.received), w).
Proof.
  intros Hn Hd Hv Ht.
  pose proof (truthy_not_nullish _ Hd) as Hdn.
  enough (wp (Permissive.processDeal payload email user)
             (fun r w' => r = Ok (Return Permissive.received) /\ w' = w) w) as Hwp.
  { unfold wp in Hwp. destruct (Permissive.processDeal payload email user w) as [r w'].
    simpl in Hwp. destruct Hwp as [-> ->]. reflexivity. }
  unfold Permissive.processDeal.
  apply wp_bind. unfold get at 1. rewrite Hn. apply wp_ret. rewrite Hd.
  apply wp_try. unfold Permissive.processDealBody.
  apply wp_bind.
  eapply wp_conseq; [apply wp_deal_title; exact Hdn|]. cbv beta.
  intros r w' [-> ->].
  apply wp_bind. unfold or_else at 1. apply wp_bind.
  unfold get at 1. rewrite Hdn. apply wp_ret. rewrite Hv. apply wp_ret.
  apply wp_bind.
  assert (Hany : forall Q : result json -> world -> Prop,
            (forall v, Q (Ok v) w) ->
            wp (get (prop payload "deal") "stageId"
                  ||> get (prop payload "deal") "pipeline_stage_id"
                  ||> get (prop payload "deal") "StageId"
                  ||> get (prop payload "deal") "Pipeline_Stage_Id") Q w).
  { intros Q HQ. unfold or_else, get. rewrite Hdn. repeat (wp_step; auto). }
  apply Hany. intros dealStageId. cbv beta iota.
  apply wp_bind.
  assert (Hany2 : forall Q : result json -> world -> Prop,
            (forall v, Q (Ok v) w) ->
            wp (get (prop payload "deal") "contactEmail"
                  ||> get (prop payload "deal") "contact_email"
                  ||> get (prop payload "deal") "ContactEmail") Q w).
  { intros Q HQ. unfold or_else, get. rewrite Hdn. repeat (wp_step; auto). }
  apply Hany2. intros explicit. cbv beta iota.
  rewrite Ht. simpl negb. cbv iota. apply wp_ret. auto.
Qed.

Lemma process_and_log_without_value payload key user w :
  nullish payload = false ->
  truthy (prop payload "deal") = true ->
  truthy (prop (prop payload "deal") "value") = false ->
  process_and_log payload key user w
  = (Permissive.processContact (email_of payload) (name_of payload)
       (phone_of payload) user ;;;
     Permissive.logProcessedWebhook key payload "success" ;;;
     ret (webhook_received key)) w.
Proof.
  intros Hn Hd Hv. unfold process_and_log, bind.
  destruct (Permissive.processContact _ _ _ user w) as [[[]|e] w2]; [|reflexivity].
  rewrite processDeal_swallows by assumption. reflexivity.
Qed.

Lemma process_and_log_without_title payload key user w :
  nullish payload = false ->
  truthy (prop payload "deal") = true ->
  truthy (prop (prop payload "deal") "value") = true ->
  truthy (deal_title_of (prop payload "deal")) = false ->
  process_and_log payload key user w
  = (Permissive.processContact (email_of payload) (name_of payload)
       (phone_of payload) user ;;;
     ret Permissive.received) w.
Proof.
  intros Hn Hd Hv Ht. unfold process_and_log, bind.
  destruct (Permissive.processContact _ _ _ user w) as [[[]|e] w2]; [|reflexivity].
  rewrite processDeal_returns_early by assumption. reflexivity.
Qed.

Lemma processContact_keeps_deals email name phone user :
  preserves (keeps deal_view) (Permissive.processContact email name phone user).
Proof. unfold Permissive.processContact. autounfold with js. frame. Qed.

Lemma processContact_keeps_logs email name phone user :
  preserves (keeps log_view) (Permissive.processContact email name phone user).
Proof. unfold Permissive.processContact. autounfold with js. frame. Qed.

Lemma logProcessedWebhook_keeps_deals key payload status :
  preserves (keeps deal_view) (Permissive.logProcessedWebhook key payload status).
Proof. unfold Permissive.logProcessedWebhook. autounfold with js. frame. Qed.

End DealShape.

Section DealShapeHandler.
Context `{Runtime}.

Lemma handler_world body w :
  snd (Permissive.handleIncomingWebhook body w) = snd (Permissive.handle body w).
Proof.
  unfold Permissive.handleIncomingWebhook, try_catch.
  destruct (Permissive.handle body w) as [[r|e] w']; reflexivity.
Qed.


Lemma without_title_skips_log body w :
  nullish body = false ->
  truthy (prop (payload_of body) "deal") = true ->
  truthy (prop (prop (payload_of body) "deal") "value") = true ->
  truthy (deal_title_of (prop (payload_of body) "deal")) = false ->
  find (fun l => strict_eq (log_key l) (JStr (idempotency_key (payload_of body) w)))
       (webhookLogs w) = None ->
  exists w1,
    Permissive.handleIncomingWebhook body w = (Ok Permissive.received, w1)
    /\ log_view w1 = log_view w.
Proof.
  intros Hn Hd Hv Ht Hnew.
  pose proof (payload_not_nullish body Hn) as Hpn.
  enough (wp (Permissive.handle body)
             (fun r w' => r = Ok Permissive.received /\ log_view w' = log_view w) w)
    as Hwp.
  { unfold wp in Hwp. unfold Permissive.handleIncomingWebhook, try_catch.
    destruct (Permissive.handle body w) as [r w']. simpl in Hwp.
    destruct Hwp as [-> Hl]. exists w'. auto. }
  apply permissive_rule; [exact Hn | | |].
  - intros w1 _ [l Hl]. congruence.
  - intros w1 U. chain. auto.
  - intros w1 user U. unfold wp.
    rewrite process_and_log_without_title by assumption.
    pose proof (processContact_keeps_logs (email_of (payload_of body))
                  (name_of (payload_of body)) (phone_of (payload_of body)) user w1)
      as Hk.
    unfold bind.
    destruct (processContact_returns (email_of (payload_of body))
                (name_of (payload_of body)) (phone_of (payload_of body)) user w1)
      as [w2 Hrun].
    rewrite Hrun in *. simpl in *. split; [reflexivity|].
    unfold keeps in Hk. rewrite Hk. chain. reflexivity.
Qed.

End DealShapeHandler.

Section DealShapeRuns.
Context `{Runtime}.

Lemma isWebhookProcessed_new key w :
  faults w = [] ->
  find (fun l => strict_eq (log_key l) (JStr key)) (webhookLogs w) = None ->
  Permissive.isWebhookProcessed key w = (Ok false, w).
Proof.
  intros Hf Hnone. apply wp_equation.
  unfold Permissive.isWebhookProcessed, prisma.webhookLog_findUnique.
  apply wp_try, wp_bind, wp_query_ok; [exact Hf|]. cbv beta iota.
  rewrite Hnone. apply wp_ret. auto.
Qed.

Lemma permissive_findUser_resolves payload w :
  nullish payload = false -> faults w = [] ->
  forall u, resolve_user payload w = Some u ->
  Permissive.findUser payload w = (Ok (Next u), w).
Proof.
  intros Hn Hf u Hu. apply wp_equation.
  unfold resolve_user in Hu.
  unfold Permissive.findUser, get. rewrite Hn.
  apply wp_try, wp_bind, wp_ret, wp_bind.
  destruct (truthy (prop payload "userId")).
  - unfold prisma.user_findUnique. apply wp_query_ok; [exact Hf|]. cbv beta iota.
    destruct (find _ (users w)) as [u'|].
    + injection Hu as ->. apply wp_bind, wp_ret, wp_ret. auto.
    + apply wp_bind. unfold prisma.user_findFirst.
      apply wp_query_ok; [exact Hf|]. rewrite Hu. apply wp_ret. auto.
  - apply wp_ret, wp_bind. unfold prisma.user_findFirst.
    apply wp_query_ok; [exact Hf|]. rewrite Hu. apply wp_ret. auto.
Qed.

(** The [try] block of the permissive handler for a delivery that is no
    duplicate and for which a user is found: the processing of the contact
    and the deal, from the world the lookup of the user left. *)
Lemma handle_processes body w w0 user w1 :
  nullish body = false ->
  Permissive.isWebhookProcessed (idempotency_key (payload_of body) w) w
  = (Ok false, w0) ->
  Permissive.findUser (payload_of body) w0 = (Ok (Next user), w1) ->
  Permissive.handle body w
  = process_and_log (payload_of body) (idempotency_key (payload_of body) w) user w1.
Proof.
  intros Hn Hproc Huser.
  pose proof (payload_not_nullish body Hn) as Hpn.
  enough (wp (Permissive.handle body)
             (fun r w' =>
                (r, w') = process_and_log (payload_of body)
                            (idempotency_key (payload_of body) w) user w1) w) as Hwp.
  { unfold wp in Hwp. rewrite <- Hwp. apply surjective_pairing. }
  unfold Permissive.handle.
  apply wp_bind.
  eapply wp_conseq; [apply wp_payload; exact Hn|]. cbv beta.
  intros r w' [-> ->].
  apply wp_bind. unfold Permissive.generateIdempotencyKey.
  apply wp_bind. unfold wp at 1, now. cbn [fst snd].
  apply wp_ret. fold (idempotency_key (payload_of body) w).
  apply wp_bind. unfold wp at 1. rewrite Hproc. cbn [fst snd].
  apply wp_bind.
  eapply wp_conseq; [apply wp_email; exact Hpn|]. cbv beta.
  intros r w' [-> ->].
  apply wp_bind.
  eapply wp_conseq; [apply wp_name; exact Hpn|]. cbv beta.
  intros r w' [-> ->].
  apply wp_bind.
  eapply wp_conseq; [apply wp_phone; exact Hpn|]. cbv beta.
  intros r w' [-> ->].
  apply wp_bind. unfold wp at 1. rewrite Huser. cbn [fst snd].
  unfold wp. symmetry. apply surjective_pairing.
Qed.

(** The handler for a deal without a value: the contact upsert, the write
    of the log row and the answer. *)
Lemma handler_without_value body w w0 user w1 :
  nullish body = false ->
  truthy (prop (payload_of body) "deal") = true ->
  truthy (prop (prop (payload_of body) "deal") "value") = false ->
  Permissive.isWebhookProcessed (idempotency_key (payload_of body) w) w
  = (Ok false, w0) ->
  Permissive.findUser (payload_of body) w0 = (Ok (Next user), w1) ->
  Permissive.handleIncomingWebhook body w
  = (Permissive.processContact (email_of (payload_of body)) (name_of (payload_of body))
       (phone_of (payload_of body)) user ;;;
     Permissive.logProcessedWebhook (idempotency_key (payload_of body) w)
       (payload_of body) "success" ;;;
     ret (webhook_received (idempotency_key (payload_of body) w))) w1.
Proof.
  intros Hn Hd Hv Hproc Huser.
  pose proof (payload_not_nullish body Hn) as Hpn.
  unfold Permissive.handleIncomingWebhook, try_catch.
  rewrite (handle_processes body w w0 user w1 Hn Hproc Huser).
  rewrite process_and_log_without_value by assumption.
  unfold bind.
  destruct (processContact_returns (email_of (payload_of body))
              (name_of (payload_of body)) (phone_of (payload_of body)) user w1)
    as [w2 ->].
  pose proof (logProcessedWebhook_spec (idempotency_key (payload_of body) w)
                (payload_of body) "success" w2) as Hl.
  unfold wp in Hl.
  destruct (Permissive.logProcessedWebhook _ _ _ w2) as [r w3].
  cbn [fst snd] in Hl. destruct Hl as [-> _]. reflexivity.
Qed.

(** The handler for a deal with a value and no title: the contact upsert
    and the answer. *)
Lemma handler_without_title body w w0 user w1 :
  nullish body = false ->
  truthy (prop (payload_of body) "deal") = true ->
  truthy (prop (prop (payload_of body) "deal") "value") = true ->
  truthy (deal_title_of (prop (payload_of body) "deal")) = false ->
  Permissive.isWebhookProcessed (idempotency_key (payload_of body) w) w
  = (Ok false, w0) ->
  Permissive.findUser (payload_of body) w0 = (Ok (Next user), w1) ->
  Permissive.handleIncomingWebhook body w
  = (Permissive.processContact (email_of (payload_of body)) (name_of (payload_of body))
       (phone_of (payload_of body)) user ;;;
     ret Permissive.received) w1.
Proof.
  intros Hn Hd Hv Ht Hproc Huser.
  pose proof (payload_not_nullish body Hn) as Hpn.
  unfold Permissive.handleIncomingWebhook, try_catch.
  rewrite (handle_processes body w w0 user w1 Hn Hproc Huser).
  rewrite process_and_log_without_title by assumption.
  unfold bind.
  destruct (processContact_returns (email_of (payload_of body))
              (name_of (payload_of body)) (phone_of (payload_of body)) user w1)
    as [w2 ->].
  reflexivity.
Qed.

(** With a working storage the contact upsert leaves the storage
    working. *)
Lemma processContact_quiet email name phone user w :
  faults w = [] ->
  exists w',
    Permissive.processContact email name phone user w = (Ok tt, w')
    /\ faults w' = [] /\ users w' = users w.
Proof.
  intros Hf.
  enough (wp (Permissive.processContact email name phone user)
             (fun r w' => r = Ok tt /\ faults w' = [] /\ users w' = users w) w) as Hwp.
  { unfold wp in Hwp.
    destruct (Permissive.processContact email name phone user w) as [r w'].
    cbn [fst snd] in Hwp. destruct Hwp as [-> Hf']. eauto. }
  unfold Permissive.processContact. autounfold with js.
  destruct email; try (apply wp_ret; auto).
  destruct (andb _ _); [|apply wp_ret; auto].
  destruct (parseName name) as [firstName lastName].
  repeat (wp_ok_step; cbn [fst snd]); auto.
Qed.

(** A delivery with a deal without a value, the storage working, that is
    no duplicate: the contact upsert is kept, one row with the delivery
    identifier and the status 200 is added to the webhook log, and the
    deals are as they were. *)
Lemma without_value_is_logged body w user :
  nullish body = false ->
  truthy (prop (payload_of body) "deal") = true ->
  truthy (prop (prop (payload_of body) "deal") "value") = false ->
  faults w = [] ->
  find (fun l => strict_eq (log_key l) (JStr (idempotency_key (payload_of body) w)))
       (webhookLogs w) = None ->
  resolve_user (payload_of body) w = Some user ->
  exists l w',
    Permissive.handleIncomingWebhook body w
    = (Ok (webhook_received (idempotency_key (payload_of body) w)), w')
    /\ contacts w'
       = contacts (snd (Permissive.processContact (email_of (payload_of body))
                          (name_of (payload_of body)) (phone_of (payload_of body))
                          user w))
    /\ webhookLogs w' = (webhookLogs w ++ [l])%list
    /\ log_key l = JStr (idempotency_key (payload_of body) w)
    /\ log_status l = 200%Z
    /\ deal_view w' = deal_view w
    /\ faults w' = [] /\ clock w' = clock w.
Proof.
  intros Hn Hd Hv Hf Hnew Hu.
  pose proof (payload_not_nullish body Hn) as Hpn.
  rewrite (handler_without_value body w w user w Hn Hd Hv
             (isWebhookProcessed_new _ w Hf Hnew)
             (permissive_findUser_resolves _ w Hpn Hf user Hu)).
  unfold bind at 1.
  pose proof (processContact_keeps_logs (email_of (payload_of body))
                (name_of (payload_of body)) (phone_of (payload_of body)) user w) as Hkl.
  pose proof (processContact_keeps_deals (email_of (payload_of body))
                (name_of (payload_of body)) (phone_of (payload_of body)) user w) as Hkd.
  destruct (processContact_quiet (email_of (payload_of body))
              (name_of (payload_of body)) (phone_of (payload_of body)) user w Hf)
    as (w2 & Hrun & Hf2 & _).
  rewrite Hrun in *. cbn [fst snd] in *.
  unfold keeps, log_view in Hkl. injection Hkl as Hlogs Hclock.
  unfold keeps in Hkd.
  unfold Permissive.logProcessedWebhook, prisma.webhookLog_create, try_catch, bind.
  rewrite storage_no_faults by exact Hf2. cbn [fst snd]. unfold ret.
  eexists. eexists. split; [reflexivity|].
  cbn [contacts webhookLogs bump set_webhookLogs faults clock deal_view deals pipelines
       stages activities log_key log_status String.eqb Ascii.eqb].
  rewrite Hlogs.
  repeat split; try reflexivity; try assumption.
Qed.

(** A delivery with a deal that has a value and no title, the storage
    working, that is no duplicate: the contact upsert is kept and the
    webhook log is as it was. *)
Lemma without_title_is_not_logged body w user :
  nullish body = false ->
  truthy (prop (payload_of body) "deal") = true ->
  truthy (prop (prop (payload_of body) "deal") "value") = true ->
  truthy (deal_title_of (prop (payload_of body) "deal")) = false ->
  faults w = [] ->
  find (fun l => strict_eq (log_key l) (JStr (idempotency_key (payload_of body) w)))
       (webhookLogs w) = None ->
  resolve_user (payload_of body) w = Some user ->
  exists w',
    Permissive.handleIncomingWebhook body w = (Ok Permissive.received, w')
    /\ contacts w'
       = contacts (snd (Permissive.processContact (email_of (payload_of body))
                          (name_of (payload_of body)) (phone_of (payload_of body))
                          user w))
    /\ log_view w' = log_view w
    /\ faults w' = [] /\ users w' = users w.
Proof.
  intros Hn Hd Hv Ht Hf Hnew Hu.
  pose proof (payload_not_nullish body Hn) as Hpn.
  rewrite (handler_without_title body w w user w Hn Hd Hv Ht
             (isWebhookProcessed_new _ w Hf Hnew)
             (permissive_findUser_resolves _ w Hpn Hf user Hu)).
  unfold bind.
  pose proof (processContact_keeps_logs (email_of (payload_of body))
                (name_of (payload_of body)) (phone_of (payload_of body)) user w) as Hkl.
  destruct (processContact_quiet (email_of (payload_of body))
              (name_of (payload_of body)) (phone_of (payload_of body)) user w Hf)
    as (w2 & Hrun & Hf2 & Hu2).
  rewrite Hrun in *. cbn [fst snd] in *.
  exists w2. repeat split; assumption.
Qed.

(** The same delivery twice: the second is no duplicate either, and the
    contact upsert runs again, on the store the first one left. *)
Lemma without_title_twice body w user :
  nullish body = false ->
  truthy (prop (payload_of body) "deal") = true ->
  truthy (prop (prop (payload_of body) "deal") "value") = true ->
  truthy (deal_title_of (prop (payload_of body) "deal")) = false ->
  faults w = [] ->
  find (fun l => strict_eq (log_key l) (JStr (idempotency_key (payload_of body) w)))
       (webhookLogs w) = None ->
  resolve_user (payload_of body) w = Some user ->
  exists w1 w2,
    Permissive.handleIncomingWebhook body w = (Ok Permissive.received, w1)
    /\ contacts w1
       = contacts (snd (Permissive.processContact (email_of (payload_of body))
                          (name_of (payload_of body)) (phone_of (payload_of body))
                          user w))
    /\ webhookLogs w1 = webhookLogs w
    /\ Permissive.handleIncomingWebhook body w1 = (Ok Permissive.received, w2)
    /\ contacts w2
       = contacts (snd (Permissive.processContact (email_of (payload_of body))
                          (name_of (payload_of body)) (phone_of (payload_of body))
                          user w1))
    /\ webhookLogs w2 = webhookLogs w.
Proof.
  intros Hn Hd Hv Ht Hf Hnew Hu.
  destruct (without_title_is_not_logged body w user Hn Hd Hv Ht Hf Hnew Hu)
    as (w1 & Hrun1 & Hc1 & Hl1 & Hf1 & Hu1).
  unfold log_view in Hl1. injection Hl1 as Hlogs1 Hclock1.
  assert (Hnew1 : find (fun l => strict_eq (log_key l)
                                   (JStr (idempotency_key (payload_of body) w1)))
                       (webhookLogs w1) = None).
  { unfold idempotency_key in *. rewrite Hlogs1, Hclock1. exact Hnew. }
  assert (Huser1 : resolve_user (payload_of body) w1 = Some user).
  { unfold resolve_user in *. rewrite Hu1. exact Hu. }
  destruct (without_title_is_not_logged body w1 user Hn Hd Hv Ht Hf1 Hnew1 Huser1)
    as (w2 & Hrun2 & Hc2 & Hl2 & _).
  unfold log_view in Hl2. injection Hl2 as Hlogs2 Hclock2.
  exists w1, w2. repeat split; congruence.
Qed.

Lemma find_app_new {A} (p : A -> bool) (l : list A) (x : A) :
  find p l = None -> p x = true -> find p (l ++ [x])%list = Some x.
Proof.
  induction l as [|y l IH]; simpl; intros Hl Hx.
  - rewrite Hx. reflexivity.
  - destruct (p y); [discriminate | apply IH; assumption].
Qed.

(** A deal with neither a value nor a title: the reference to [dealValue]
    throws before the title is looked at, so the delivery is logged, and
    the same delivery again is answered as a duplicate, the store left as
    it is. *)
Lemma untitled_without_value_twice body w user :
  nullish body = false ->
  truthy (prop (payload_of body) "deal") = true ->
  truthy (prop (prop (payload_of body) "deal") "value") = false ->
  faults w = [] ->
  find (fun l => strict_eq (log_key l) (JStr (idempotency_key (payload_of body) w)))
       (webhookLogs w) = None ->
  resolve_user (payload_of body) w = Some user ->
  exists l w1 w2,
    Permissive.handleIncomingWebhook body w
    = (Ok (webhook_received (idempotency_key (payload_of body) w)), w1)
    /\ webhookLogs w1 = (webhookLogs w ++ [l])%list
    /\ log_key l = JStr (idempotency_key (payload_of body) w)
    /\ Permissive.handleIncomingWebhook body w1
       = (Ok (duplicate_webhook (idempotency_key (payload_of body) w)), w2)
    /\ unchanged w1 w2.
Proof.
  intros Hn Hd Hv Hf Hnew Hu.
  destruct (without_value_is_logged body w user Hn Hd Hv Hf Hnew Hu)
    as (l & w1 & Hrun1 & _ & Hlogs1 & Hkey & _ & _ & Hf1 & Hclock1).
  exists l, w1.
  assert (Hk : idempotency_key (payload_of body) w1 = idempotency_key (payload_of body) w).
  { unfold idempotency_key. rewrite Hclock1. reflexivity. }
  assert (Hlog : find (fun l => strict_eq (log_key l)
                                  (JStr (idempotency_key (payload_of body) w1)))
                      (webhookLogs w1) = Some l).
  { rewrite Hk, Hlogs1. apply find_app_new; [exact Hnew|].
    rewrite Hkey. simpl. apply String.eqb_refl. }
  assert (Hhd : hd false (faults w1) = false) by (rewrite Hf1; reflexivity).
  destruct (permissive_duplicate body w1 l Hn Hlog Hhd) as (w2 & Hrun2 & U).
  rewrite Hk in Hrun2. exists w2.
  split; [exact Hrun1|]. split; [exact Hlogs1|]. split; [exact Hkey|].
  split; [exact Hrun2 | exact U].
Qed.

End DealShapeRuns.


(** A payload with a deal that has a title and no value. *)
Definition dealWithoutValue : json :=
  JObj [("event", JStr "call_booked");
        ("contact", JObj [("email", JStr "lead@example.com");
                          ("name", JStr "Lea Lead")]);
        ("deal", JObj [("title", JStr "Deal without value")])].


(** That delivery evaluated: the contact is created and the log row is
    written, and there is no deal. *)
Example deal_without_value_run :
  let run := Permissive.handleIncomingWebhook (H := exampleRuntime) dealWithoutValue
               smallWorld in
  map contact_email (contacts (snd run)) = [JStr "lead@example.com"]
  /\ deals (snd run) = []
  /\ map log_status (webhookLogs (snd run)) = [200%Z]
  /\ message_of run = Some (JStr "Webhook received").
Proof. vm_compute. repeat split. Qed.

(** C10. The check of the title comes after the extraction of the value,
    which throws when [deal.value] is absent or falsy. So the early return
    of a deal without a title (none of title, name, Title, Name) is reached
    only with a truthy value: the handler then is the contact upsert
    followed by the answer HTTP 200 "Webhook received", without the write
    to the webhook log; a delivery that is no duplicate leaves the log as
    it was, and the same delivery again is again no duplicate and runs the
    contact upsert once more, on the store the first one left. With neither
    a title nor a truthy value the early return is not reached: the
    delivery is logged, and the same delivery again is answered as a
    duplicate and changes nothing. *)
Theorem deal_without_title_skips_the_log :
  (forall (R : Runtime) payload key user w,
      nullish payload = false ->
      truthy (prop payload "deal") = true ->
      truthy (prop (prop payload "deal") "value") = true ->
      truthy (deal_title_of (prop payload "deal")) = false ->
      process_and_log payload key user w
      = (Permissive.processContact (email_of payload) (name_of payload)
           (phone_of payload) user ;;;
         ret Permissive.received) w)
  /\ (forall (R : Runtime) body w,
         nullish body = false ->
         truthy (prop (payload_of body) "deal") = true ->
         truthy (prop (prop (payload_of body) "deal") "value") = true ->
         truthy (deal_title_of (prop (payload_of body) "deal")) = false ->
         find (fun l => strict_eq (log_key l)
                          (JStr (idempotency_key (payload_of body) w)))
              (webhookLogs w) = None ->
         exists w1 w2,
           Permissive.handleIncomingWebhook body w = (Ok Permissive.received, w1)
           /\ webhookLogs w1 = webhookLogs w
           /\ Permissive.handleIncomingWebhook body w1 = (Ok Permissive.received, w2)
           /\ webhookLogs w2 = webhookLogs w)
  /\ (forall (R : Runtime) body w w0 user w1,
         nullish body = false ->
         truthy (prop (payload_of body) "deal") = true ->
         truthy (prop (prop (payload_of body) "deal") "value") = true ->
         truthy (deal_title_of (prop (payload_of body) "deal")) = false ->
         Permissive.isWebhookProcessed (idempotency_key (payload_of body) w) w
         = (Ok false, w0) ->
         Permissive.findUser (payload_of body) w0 = (Ok (Next user), w1) ->
         Permissive.handleIncomingWebhook body w
         = (Permissive.processContact (email_of (payload_of body))
              (name_of (payload_of body)) (phone_of (payload_of body)) user ;;;
            ret Permissive.received) w1)
  /\ (forall (R : Runtime) body w user,
         nullish body = false ->
         truthy (prop (payload_of body) "deal") = true ->
         truthy (prop (prop (payload_of body) "deal") "value") = true ->
         truthy (deal_title_of (prop (payload_of body) "deal")) = false ->
         faults w = [] ->
         find (fun l => strict_eq (log_key l)
                          (JStr (idempotency_key (payload_of body) w)))
              (webhookLogs w) = None ->
         resolve_user (payload_of body) w = Some user ->
         exists w1 w2,
           Permissive.handleIncomingWebhook body w = (Ok Permissive.received, w1)
           /\ contacts w1
              = contacts
                  (snd (Permissive.processContact (email_of (payload_of body))
                          (name_of (payload_of body)) (phone_of (payload_of body))
                          user w))
           /\ webhookLogs w1 = webhookLogs w
           /\ Permissive.handleIncomingWebhook body w1 = (Ok Permissive.received, w2)
           /\ contacts w2
              = contacts
                  (snd (Permissive.processContact (email_of (payload_of body))
                          (name_of (payload_of body)) (phone_of (payload_of body))
                          user w1))
           /\ webhookLogs w2 = webhookLogs w)
  /\ (forall (R : Runtime) body w user,
         nullish body = false ->
         truthy (prop (payload_of body) "deal") = true ->
         truthy (prop (prop (payload_of body) "deal") "value") = false ->
         truthy (deal_title_of (prop (payload_of body) "deal")) = false ->
         faults w = [] ->
         find (fun l => strict_eq (log_key l)
                          (JStr (idempotency_key (payload_of body) w)))
              (webhookLogs w) = None ->
         resolve_user (payload_of body) w = Some user ->
         exists l w1 w2,
           Permissive.handleIncomingWebhook body w
           = (Ok (webhook_received (idempotency_key (payload_of body) w)), w1)
           /\ webhookLogs w1 = (webhookLogs w ++ [l])%list
           /\ log_key l = JStr (idempotency_key (payload_of body) w)
           /\ Permissive.handleIncomingWebhook body w1
              = (Ok (duplicate_webhook (idempotency_key (payload_of body) w)), w2)
           /\ unchanged w1 w2).
Proof.
  split. { intros R. exact (@process_and_log_without_title R). }
  split; [|split; [intros R; exact (@handler_without_title R)|
           split; [intros R; exact (@without_title_twice R)|
                   intros R body w user Hn Hd Hv _;
                   exact (untitled_without_value_twice body w user Hn Hd Hv)]]].
  intros R body w Hn Hd Hv Ht Hnew.
  destruct (without_title_skips_log body w Hn Hd Hv Ht Hnew) as (w1 & Hrun1 & Hl1).
  unfold log_view in Hl1. injection Hl1 as Hlogs1 Hclock1.
  assert (Hnew1 : find (fun l => strict_eq (log_key l)
                                   (JStr (idempotency_key (payload_of body) w1)))
                       (webhookLogs w1) = None).
  { unfold idempotency_key in *. rewrite Hlogs1, Hclock1. exact Hnew. }
  destruct (without_title_skips_log body w1 Hn Hd Hv Ht Hnew1) as (w2 & Hrun2 & Hl2).
  unfold log_view in Hl2. injection Hl2 as Hlogs2 Hclock2.
  exists w1, w2. repeat split; congruence.
Qed.

(** A payload with a deal that has a value and no title. *)
Definition dealWithoutTitle : json :=
  JObj [("event", JStr "call_booked");
        ("contact", JObj [("email", JStr "lead@example.com");
                          ("name", JStr "Lea Lead")]);
        ("deal", JObj [("value", JNum 1000)])].

(** A payload with a deal that has neither a title nor a value. *)
Definition dealWithoutTitleAndValue : json :=
  JObj [("contact", JObj [("email", JStr "lead@example.com")]);
        ("deal", JObj [("stageId", JStr "s1")])].

Lemma deal_without_title_skips_the_log_witness :
  (exists w1 w2,
      Permissive.handleIncomingWebhook (H := exampleRuntime) dealWithoutTitle smallWorld
      = (Ok Permissive.received, w1)
      /\ webhookLogs w1 = webhookLogs smallWorld
      /\ Permissive.handleIncomingWebhook (H := exampleRuntime) dealWithoutTitle w1
         = (Ok Permissive.received, w2)
      /\ webhookLogs w2 = webhookLogs smallWorld)
  /\ (exists l w1 w2,
        Permissive.handleIncomingWebhook (H := exampleRuntime) dealWithoutTitleAndValue
          smallWorld
        = (Ok (webhook_received
                 (idempotency_key (H := exampleRuntime) dealWithoutTitleAndValue
                    smallWorld)), w1)
        /\ webhookLogs w1 = [l]
        /\ log_key l
           = JStr (idempotency_key (H := exampleRuntime) dealWithoutTitleAndValue
                     smallWorld)
        /\ Permissive.handleIncomingWebhook (H := exampleRuntime)
             dealWithoutTitleAndValue w1
           = (Ok (duplicate_webhook
                    (idempotency_key (H := exampleRuntime) dealWithoutTitleAndValue
                       smallWorld)), w2)
        /\ unchanged w1 w2).
Proof.
  split.
  - apply (proj1 (proj2 deal_without_title_skips_the_log) exampleRuntime
             dealWithoutTitle smallWorld);
      reflexivity.
  - apply (proj2 (proj2 (proj2 (proj2 deal_without_title_skips_the_log)))
             exampleRuntime dealWithoutTitleAndValue smallWorld {| user_id := "u1" |});
      reflexivity.
Defined.

(** The early return of C10 is not reached for a deal with neither title
    nor value: the reference to [dealValue] throws before the title is
    looked at, the exception is swallowed, the log row is written, and the
    same delivery again is answered as a duplicate. *)
Lemma untitled_deal_without_value_is_logged :
  let payload :=
    JObj [("contact", JObj [("email", JStr "lead@example.com")]);
          ("deal", JObj [("stageId", JStr "s1")])] in
  let first := Permissive.handleIncomingWebhook (H := exampleRuntime) payload
                 smallWorld in
  let second := Permissive.handleIncomingWebhook (H := exampleRuntime) payload
                  (snd first) in
  deal_title_of (prop payload "deal") = JUndefined
  /\ map log_status (webhookLogs (snd first)) = [200%Z]
  /\ message_of first = Some (JStr "Webhook received")
  /\ message_of second = Some (JStr "Duplicate webhook - already processed").
Proof. vm_compute. repeat split. Qed.

(** * Further properties of the ingestion pipeline

    Error and edge behaviour, invariants and the composition of the steps
    of both variants of the controller and of the automation service. *)

(** ** Names *)

(** A character of a word: an ASCII character other than white space. *)
Definition plain (c : ascii) : bool :=
  andb (negb (is_space c)) (Nat.ltb (nat_of_ascii c) 128).

Fixpoint all_plain (s : string) : bool :=
  match s with
  | EmptyString => true
  | String c rest => andb (plain c) (all_plain rest)
  end.

(** A word: a non-empty string of ASCII characters other than white space. *)
Definition word (s : string) : bool := andb (negb (String.eqb s "")) (all_plain s).

(** A blank string: white space characters only, of one, two or three
    bytes each. *)
Fixpoint blank_upto (n : nat) (s : string) : bool :=
  match n with
  | O => String.eqb s ""
  | S n' =>
      match s with
      | EmptyString => true
      | String c1 rest1 =>
          if is_space c1 then blank_upto n' rest1
          else
            match rest1 with
            | String c2 rest2 =>
                if is_space2 c1 c2 then blank_upto n' rest2
                else
                  match rest2 with
                  | String c3 rest3 =>
                      andb (is_space3 c1 c2 c3) (blank_upto n' rest3)
                  | EmptyString => false
                  end
            | EmptyString => false
            end
      end
  end.

Definition blank (s : string) : bool := blank_upto (String.length s) s.

(** The no-break space U+00A0 and the line separator U+2028. *)
Definition nbsp : string :=
  String (ascii_of_nat 194) (String (ascii_of_nat 160) EmptyString).

Definition line_separator : string :=
  String (ascii_of_nat 226) (String (ascii_of_nat 128) (String (ascii_of_nat 168) EmptyString)).

(** Words, each followed by its separator. *)
Fixpoint spread (l : list (string * string)) : string :=
  match l with
  | [] => ""
  | (w, sep) :: rest => w ++ sep ++ spread rest
  end.

(** Every separator is blank, and not empty unless it is the last. *)
Fixpoint well_spaced (l : list (string * string)) : bool :=
  match l with
  | [] => true
  | (w, sep) :: rest =>
      andb (word w)
        (andb (blank sep)
           (andb (match rest with [] => true | _ => negb (String.eqb sep "") end)
                 (well_spaced rest)))
  end.

Lemma append_assoc (a b c : string) : (a ++ b) ++ c = a ++ (b ++ c).
Proof. induction a as [|x a IH]; simpl; [reflexivity | rewrite IH; reflexivity]. Qed.

Lemma append_empty (a : string) : a ++ "" = a.
Proof. induction a as [|x a IH]; simpl; [reflexivity | rewrite IH; reflexivity]. Qed.

Lemma plain_not_space2 c1 c2 : plain c1 = true -> is_space2 c1 c2 = false.
Proof.
  unfold plain, is_space2. intros Hc. apply andb_true_iff in Hc as [_ Hlt].
  apply Nat.ltb_lt in Hlt.
  destruct (Nat.eqb_spec (nat_of_ascii c1) 194) as [E|_]; [lia | reflexivity].
Qed.

Lemma plain_not_space3 c1 c2 c3 : plain c1 = true -> is_space3 c1 c2 c3 = false.
Proof.
  unfold plain, is_space3. intros Hc. apply andb_true_iff in Hc as [_ Hlt].
  apply Nat.ltb_lt in Hlt. cbv zeta.
  destruct (Nat.eqb_spec (nat_of_ascii c1) 225) as [E|_]; [lia|].
  destruct (Nat.eqb_spec (nat_of_ascii c1) 226) as [E|_]; [lia|].
  destruct (Nat.eqb_spec (nat_of_ascii c1) 227) as [E|_]; [lia|].
  destruct (Nat.eqb_spec (nat_of_ascii c1) 239) as [E|_]; [lia|].
  reflexivity.
Qed.

Lemma tokens_plain c cur s :
  plain c = true -> tokens cur (String c s) = tokens (cur ++ String c "") s.
Proof.
  intros Hc. cbn [tokens].
  assert (Hs : is_space c = false).
  { unfold plain in Hc. apply andb_true_iff in Hc as [Hs _].
    apply negb_true_iff in Hs. exact Hs. }
  rewrite Hs. destruct s as [|c2 s]; [reflexivity|].
  rewrite (plain_not_space2 c c2 Hc). destruct s as [|c3 s]; [reflexivity|].
  rewrite (plain_not_space3 c c2 c3 Hc). reflexivity.
Qed.

Lemma tokens_word t : forall cur s,
  all_plain t = true -> tokens cur (t ++ s) = tokens (cur ++ t) s.
Proof.
  induction t as [|c t IH]; intros cur s Ht; simpl in Ht.
  - rewrite append_empty. reflexivity.
  - apply andb_true_iff in Ht as [Hc Ht]. cbn [append].
    rewrite tokens_plain by exact Hc.
    rewrite IH by exact Ht. rewrite append_assoc. reflexivity.
Qed.

(** A run of white space ends the token being read. *)
Lemma tokens_blank_upto n : forall b cur s,
  blank_upto n b = true -> String.eqb b "" = false ->
  tokens cur (b ++ s) = flush cur (tokens "" s).
Proof.
  induction n as [|n IH]; intros b cur s Hb Hne; cbn [blank_upto] in Hb.
  - congruence.
  - assert (Hrest : forall r, blank_upto n r = true ->
                      flush cur (tokens "" (r ++ s)) = flush cur (tokens "" s)).
    { intros r Hr. destruct (String.eqb r "") eqn:Er.
      - apply String.eqb_eq in Er. subst r. reflexivity.
      - rewrite (IH r "" s Hr Er). reflexivity. }
    destruct b as [|c1 b]; [discriminate|]. cbn [append tokens].
    destruct (is_space c1); [apply Hrest; exact Hb|].
    destruct b as [|c2 b]; [discriminate|]. cbn [append].
    destruct (is_space2 c1 c2); [apply Hrest; exact Hb|].
    destruct b as [|c3 b]; [discriminate|]. cbn [append].
    apply andb_true_iff in Hb as [H3 Hb]. rewrite H3. apply Hrest; exact Hb.
Qed.

Lemma tokens_blank b s : blank b = true -> tokens "" (b ++ s) = tokens "" s.
Proof.
  intros Hb. destruct (String.eqb b "") eqn:Eb.
  - apply String.eqb_eq in Eb. subst b. reflexivity.
  - rewrite (tokens_blank_upto _ b "" s Hb Eb). reflexivity.
Qed.

Lemma tokens_separator cur b s :
  String.eqb cur "" = false -> blank b = true -> String.eqb b "" = false ->
  tokens cur (b ++ s) = cur :: tokens "" s.
Proof.
  intros Hcur Hb Hne. rewrite (tokens_blank_upto _ b cur s Hb Hne).
  unfold flush. rewrite Hcur. reflexivity.
Qed.

Lemma tokens_end cur b :
  String.eqb cur "" = false -> blank b = true -> tokens cur b = [cur].
Proof.
  intros Hcur Hb. destruct (String.eqb b "") eqn:Eb.
  - apply String.eqb_eq in Eb. subst b. cbn [tokens]. unfold flush.
    rewrite Hcur. reflexivity.
  - rewrite <- (append_empty b). rewrite tokens_separator by assumption. reflexivity.
Qed.

Lemma word_not_empty cur w :
  word w = true -> String.eqb (cur ++ w) "" = false.
Proof.
  unfold word. intros Hw. apply andb_true_iff in Hw as [Hne _].
  destruct cur; [|reflexivity]. destruct w; [discriminate | reflexivity].
Qed.

Lemma tokens_spread l :
  well_spaced l = true -> tokens "" (spread l) = map fst l.
Proof.
  induction l as [|[w sep] l IH]; intros Hl; [reflexivity|].
  simpl in Hl.
  apply andb_true_iff in Hl as [Hw Hl]. apply andb_true_iff in Hl as [Hb Hl].
  apply andb_true_iff in Hl as [Hsep Hl].
  pose proof (word_not_empty "" w Hw) as Hne. cbn [append] in Hne.
  unfold word in Hw. apply andb_true_iff in Hw as [_ Hns].
  cbn [spread map fst]. rewrite tokens_word by exact Hns. cbn [append].
  destruct l as [|p l].
  - cbn [spread map]. rewrite append_empty. apply tokens_end; assumption.
  - apply negb_true_iff in Hsep.
    rewrite tokens_separator by assumption. rewrite IH by exact Hl. reflexivity.
Qed.

Lemma word_first_not_empty lead w rest :
  word w = true -> String.eqb (lead ++ w ++ rest) "" = false.
Proof.
  unfold word. intros Hw. apply andb_true_iff in Hw as [Hne _].
  destruct lead; [|reflexivity]. destruct w; [discriminate | reflexivity].
Qed.

(** X1. [parseName] ignores the white space around the name and the length
    of the runs of white space inside it, whatever white space characters
    they are made of: for a name made of ASCII words separated by white
    space, the first name is the first word and the last name is the other
    words joined by single spaces ([null] when there is one word). *)
Theorem parseName_normalises_spacing :
  forall lead first sep rest,
    blank lead = true -> well_spaced ((first, sep) :: rest) = true ->
    parseName (JStr (lead ++ spread ((first, sep) :: rest)))
    = (JStr first,
       match rest with
       | [] => JNull
       | _ => JStr (join " " (map fst rest))
       end).
Proof.
  intros lead first sep rest Hlead Hl.
  assert (Hw : word first = true).
  { simpl in Hl. apply andb_true_iff in Hl as [Hw _]. exact Hw. }
  unfold parseName, trim_split. cbn [spread].
  rewrite (word_first_not_empty lead first _ Hw).
  rewrite tokens_blank by exact Hlead.
  change (first ++ sep ++ spread rest) with (spread ((first, sep) :: rest)).
  rewrite tokens_spread by exact Hl.
  destruct rest; reflexivity.
Qed.

Lemma parseName_normalises_spacing_witness :
  parseName (JStr ((" " ++ line_separator)
                   ++ spread [("Ada", nbsp); ("King", "  " ++ nbsp); ("Lovelace", " ")]))
  = (JStr "Ada", JStr "King Lovelace").
Proof.
  apply (parseName_normalises_spacing (" " ++ line_separator) "Ada" nbsp
           [("King", "  " ++ nbsp); ("Lovelace", " ")]);
    reflexivity.
Defined.

Lemma tokens_of_blank s : blank s = true -> tokens "" s = [].
Proof.
  intros Hs. rewrite <- (append_empty s). rewrite tokens_blank by exact Hs. reflexivity.
Qed.

(** X2. A name that is not empty but holds white space only is parsed to
    the empty first name (a string, not [null]) and no last name. *)
Theorem parseName_of_blank_name :
  forall s, s <> "" -> blank s = true -> parseName (JStr s) = (JStr "", JNull).
Proof.
  intros s Hne Hs. unfold parseName, trim_split.
  destruct (String.eqb_spec s "") as [E|_]; [contradiction|].
  rewrite tokens_of_blank by exact Hs. reflexivity.
Qed.

Lemma parseName_of_blank_name_witness :
  parseName (JStr (" " ++ nbsp ++ line_separator)) = (JStr "", JNull).
Proof.
  apply (parseName_of_blank_name (" " ++ nbsp ++ line_separator));
    [discriminate | reflexivity].
Defined.

(** The no-break space separates the words of a name as the space does. *)
Example parseName_no_break_space :
  parseName (JStr ("Ada" ++ nbsp ++ "Lovelace")) = (JStr "Ada", JStr "Lovelace").
Proof. reflexivity. Qed.

(** ** The secured handler, case by case *)


Definition no_users_found : response :=
  respond 500 [("status", JStr "error");
               ("message", JStr "Internal Server Error: No users found")].

Definition failed_to_find_user : response :=
  respond 500 [("status", JStr "error");
               ("message", JStr "Internal Server Error: Failed to find user")].

Section SecuredCases.
Context `{RT : Runtime}.

(** A [wp] fact read as an equation. *)
Lemma wp_runs {A} (m : M A) (Q : result A -> world -> Prop) w :
  wp m Q w -> exists r w', m w = (r, w') /\ Q r w'.
Proof. unfold wp. destruct (m w) as [r w']. simpl. eauto. Qed.

(** The secured handler behind the check of the secret: the answer of
    [handle], or the 500 of the [catch] block. *)
Lemma secured_run ICLOSED_SECRET req w (Q : response -> world -> Prop) :
  Secured.secret_rejected (Secured.x_webhook_secret req) ICLOSED_SECRET = false ->
  wp (Secured.handle (Secured.body req))
     (fun r w' => match r with
                  | Ok resp => Q resp w'
                  | Throw e => Q (failed_to_process e) w'
                  end) w ->
  exists r w', Secured.handleIncomingWebhook ICLOSED_SECRET req w = (Ok r, w') /\ Q r w'.
Proof.
  intros Hs Hwp. unfold Secured.handleIncomingWebhook, try_catch. rewrite Hs.
  unfold wp in Hwp.
  destruct (Secured.handle (Secured.body req) w) as [[resp|e] w']; simpl in Hwp;
    do 2 eexists; (split; [reflexivity | exact Hwp]).
Qed.

(** The user [findUser] goes on with is a user of the store. *)
Lemma findUser_in payload w :
  wp (Secured.findUser payload)
     (fun r w' =>
        unchanged w w'
        /\ ((exists u, r = Ok (Next u) /\ In u (users w))
            \/ (r = Ok (Return no_users_found) /\ users w = [])
            \/ r = Ok (Return failed_to_find_user))) w.
Proof.
  unfold Secured.findUser. autounfold with js.
  wp_steps; chain; (split; [unch|]); auto.
  all: try solve [right; left; split; [reflexivity|];
                  match goal with
                  | E : hd_error _ = None |- _ =>
                      simpl in E; destruct (users w); [reflexivity | discriminate]
                  end].
  all: left; eexists; (split; [reflexivity|]).
  all: match goal with
       | E : find _ _ = Some _ |- _ => apply find_some in E; apply E
       | E : hd_error ?l = Some _ |- _ =>
           simpl in E; destruct (users w); [discriminate | injection E as ->; left; reflexivity]
       end.
Qed.


(** The cases of [handle], with the user the dispatch runs for. *)
Lemma handle_cases payload w (Q : result response -> world -> Prop) :
  (truthy payload = false \/ truthy (prop payload "event") = false ->
   Q (Ok Secured.bad_request) w) ->
  (forall w1, unchanged w w1 -> truthy (event_id_of payload) = true ->
              Q (Ok (duplicate_event (event_id_of payload))) w1) ->
  (forall w1, unchanged w w1 -> users w = [] -> Q (Ok no_users_found) w1) ->
  (forall w1, unchanged w w1 -> Q (Ok failed_to_find_user) w1) ->
  (forall w1 user, unchanged w w1 -> In user (users w) ->
                   truthy payload = true -> truthy (prop payload "event") = true ->
                   wp (dispatch_and_commit payload user) Q w1) ->
  wp (Secured.handle payload) Q w.
Proof.
  intros Hbad Hdup Hnone Hfail Hrest.
  unfold Secured.handle.
  destruct (truthy payload) eqn:Hp; simpl negb; cbv iota;
    [|apply wp_ret; auto].
  pose proof (truthy_not_nullish _ Hp) as Hn.
  apply wp_bind. unfold get at 1. rewrite Hn. apply wp_ret.
  destruct (truthy (prop payload "event")) eqn:He; simpl negb; cbv iota;
    [|apply wp_ret; auto].
  apply wp_bind.
  eapply wp_conseq; [apply wp_event_id; exact Hn|]. cbv beta.
  intros r w' [-> ->].
  apply wp_bind.
  assert (Hproc : wp (if truthy (event_id_of payload)
                      then Secured.isProcessed (event_id_of payload) else ret false)
                     (fun r w' => (exists b, r = Ok b) /\ unchanged w w'
                                  /\ (r = Ok true -> truthy (event_id_of payload) = true))
                     w).
  { destruct (truthy (event_id_of payload)).
    - eapply wp_conseq; [apply isProcessed_spec|]. cbv beta. intuition.
    - apply wp_ret. split; [eauto|]. split; [apply unchanged_refl | discriminate]. }
  eapply wp_conseq; [exact Hproc|]. clear Hproc. cbv beta.
  intros r w1 ([b ->] & U1 & Ht).
  destruct b; [apply wp_ret; apply Hdup; auto|].
  apply wp_bind.
  eapply wp_conseq; [apply findUser_in|]. cbv beta.
  assert (Hu : users w1 = users w) by (chain; reflexivity).
  intros r w2 [U2 [(u & -> & Hin) | [[-> Hempty] | ->]]].
  - apply Hrest; auto; [eapply frame_trans; eassumption | rewrite <- Hu; exact Hin].
  - apply wp_ret. apply Hnone; [eapply frame_trans; eassumption | rewrite <- Hu; exact Hempty].
  - apply wp_ret. apply Hfail. eapply frame_trans; eassumption.
Qed.

(** The dispatch on the event type, then the write of the log row: what
    holds of the early answer, of the rest after a handled event and of an
    exception holds of [dispatch_and_commit]. *)
Lemma dispatch_commit_rule payload user w (Q : result response -> world -> Prop) :
  wp (Secured.dispatch payload (prop payload "event") user)
     (fun r w' =>
        match r with
        | Ok (Return resp) => Q (Ok resp) w'
        | Ok (Next _) =>
            wp ((if truthy (event_id_of payload)
                 then Secured.markProcessed (event_id_of payload) payload ;;; ret tt
                 else ret tt) ;;;
                ret (processed_event (event_id_of payload))) Q w'
        | Throw e => Q (Throw e) w'
        end) w ->
  wp (dispatch_and_commit payload user) Q w.
Proof.
  intros Hd. unfold dispatch_and_commit. apply wp_bind.
  eapply wp_conseq; [exact Hd|]. cbv beta.
  intros [[resp|[]]|e] w' HQ; [apply wp_ret | |]; exact HQ.
Qed.



(** X4. An authenticated request whose body has no (truthy) [event], or
    is not an object at all, is answered 400 "Bad Request: Missing event in
    payload" before any storage call: the world is returned as it was. *)
Theorem missing_event_is_bad_request :
  forall ICLOSED_SECRET req w,
    Secured.secret_rejected (Secured.x_webhook_secret req) ICLOSED_SECRET = false ->
    truthy (prop (Secured.body req) "event") = false ->
    Secured.handleIncomingWebhook ICLOSED_SECRET req w = (Ok Secured.bad_request, w)
    /\ res_status Secured.bad_request = 400%Z
    /\ body_field Secured.bad_request "status" = JStr "error".
Proof.
  intros secret req w Hs He. split; [|split; reflexivity].
  unfold Secured.handleIncomingWebhook, try_catch, Secured.handle. rewrite Hs.
  destruct (truthy (Secured.body req)) eqn:Hp; [|reflexivity].
  cbn [negb]. unfold bind at 1, get at 1.
  rewrite (truthy_not_nullish _ Hp). unfold ret at 1. rewrite He. reflexivity.
Qed.

Lemma findUser_none payload w :
  nullish payload = false -> faults w = [] -> users w = [] ->
  Secured.findUser payload w = (Ok (Return no_users_found), w).
Proof.
  intros Hn Hf Hu.
  enough (wp (Secured.findUser payload)
             (fun r w' => r = Ok (Return no_users_found) /\ w' = w) w) as Hwp.
  { unfold wp in Hwp. destruct (Secured.findUser payload w) as [r w'].
    simpl in Hwp. destruct Hwp as [-> ->]. reflexivity. }
  unfold Secured.findUser, get. rewrite Hn. autounfold with js.
  repeat (wp_ok_step; rewrite ?Hu in *; simpl find in *; simpl hd_error in *);
    try discriminate; auto.
Qed.

(** X5. With no user in the store the secured handler writes nothing,
    whatever the storage does: the delivery is answered as a duplicate or
    with a 500 of the user lookup. With a working storage and no log row
    for the event the answer is 500 "Internal Server Error: No users
    found". *)
Theorem secured_without_users_writes_nothing :
  forall ICLOSED_SECRET req w,
    Secured.secret_rejected (Secured.x_webhook_secret req) ICLOSED_SECRET = false ->
    truthy (prop (Secured.body req) "event") = true ->
    users w = [] ->
    exists r w',
      Secured.handleIncomingWebhook ICLOSED_SECRET req w = (Ok r, w')
      /\ unchanged w w'
      /\ (r = duplicate_event (event_id_of (Secured.body req))
          \/ r = no_users_found \/ r = failed_to_find_user)
      /\ (faults w = [] ->
          find (fun l => strict_eq (log_key l) (event_id_of (Secured.body req)))
               (webhookLogs w) = None ->
          r = no_users_found /\ w' = w).
Proof.
  intros secret req w Hs He Hu.
  set (payload := Secured.body req) in *.
  assert (Hp : truthy payload = true).
  { destruct payload; try discriminate He; reflexivity. }
  pose proof (truthy_not_nullish _ Hp) as Hn.
  destruct (secured_run secret req w
              (fun r w' =>
                 unchanged w w'
                 /\ (r = duplicate_event (event_id_of payload)
                     \/ r = no_users_found \/ r = failed_to_find_user)) Hs)
    as (r & w' & Hrun & HU & Hr).
  { fold payload. apply handle_cases.
    - intros [H|H]; congruence.
    - intros w1 U _. auto.
    - intros w1 U _. auto.
    - intros w1 U. auto.
    - intros w1 user U Hin. rewrite Hu in Hin. destruct Hin. }
  exists r, w'. split; [exact Hrun|]. split; [exact HU|]. split; [exact Hr|].
  intros Hf Hlog.
  assert (Hexact : Secured.handle payload w = (Ok no_users_found, w)).
  { enough (wp (Secured.handle payload)
               (fun r w' => r = Ok no_users_found /\ w' = w) w) as Hwp.
    { unfold wp in Hwp. destruct (Secured.handle payload w) as [r0 w1].
      simpl in Hwp. destruct Hwp as [-> ->]. reflexivity. }
    unfold Secured.handle. rewrite Hp. simpl negb. cbv iota.
    apply wp_bind. unfold get at 1. rewrite Hn. apply wp_ret.
    rewrite He. simpl negb. cbv iota.
    apply wp_bind.
    eapply wp_conseq; [apply wp_event_id; exact Hn|]. cbv beta.
    intros r0 w0 [-> ->].
    apply wp_bind.
    eapply wp_conseq; [apply not_processed; assumption|]. cbv beta.
    intros r0 w0 [-> ->].
    apply wp_bind. unfold wp at 1.
    rewrite (findUser_none payload w Hn Hf Hu). simpl fst. simpl snd.
    cbv iota. apply wp_ret. auto. }
  unfold Secured.handleIncomingWebhook, try_catch in Hrun.
  rewrite Hs in Hrun. fold payload in Hrun. rewrite Hexact in Hrun.
  injection Hrun as <- <-. split; reflexivity.
Qed.

(** A store without any row. *)
Definition emptyStore : world :=
  {| users := []; contacts := []; pipelines := []; stages := []; deals := [];
     activities := []; webhookLogs := []; workflows := []; tasks := [];
     nextId := 0; clock := "2025-09-01T10:00:00.000Z"; faults := [] |}.

Lemma wp_both {A} (m : M A) (Q1 Q2 : result A -> world -> Prop) w :
  wp m Q1 w -> wp m Q2 w -> wp m (fun r w' => Q1 r w' /\ Q2 r w') w.
Proof. unfold wp. auto. Qed.

(** X6. A delivery without an event id is never recorded in the webhook
    log and never answered as a duplicate, whatever the storage does:
    deliveries without [event_id] are not deduplicated. *)
Theorem no_event_id_no_log_row :
  forall ICLOSED_SECRET req w,
    truthy (event_id_of (Secured.body req)) = false ->
    exists r w',
      Secured.handleIncomingWebhook ICLOSED_SECRET req w = (Ok r, w')
      /\ webhookLogs w' = webhookLogs w
      /\ forall eventId, r <> duplicate_event eventId.
Proof.
  intros secret req w Hid.
  destruct (Secured.secret_rejected (Secured.x_webhook_secret req) secret) eqn:Hs.
  { exists Secured.unauthorized, w.
    unfold Secured.handleIncomingWebhook, try_catch. rewrite Hs.
    repeat split. intros eventId. discriminate. }
  set (payload := Secured.body req) in *.
  assert (Hsame : forall w1 r, unchanged w w1 -> res_status r <> 200%Z ->
            webhookLogs w1 = webhookLogs w /\ forall eventId, r <> duplicate_event eventId).
  { intros w1 r U Hst. split; [chain; reflexivity|].
    intros eventId ->. apply Hst. reflexivity. }
  apply (secured_run secret req w
           (fun r w' => webhookLogs w' = webhookLogs w
                        /\ forall eventId, r <> duplicate_event eventId) Hs).
  fold payload. apply handle_cases.
  - intros _. apply Hsame; [apply unchanged_refl | discriminate].
  - intros w1 U Ht. congruence.
  - intros w1 U _. apply Hsame; [exact U | discriminate].
  - intros w1 U. apply Hsame; [exact U | discriminate].
  - intros w1 user U _ _ _.
    assert (Hl1 : webhookLogs w1 = webhookLogs w) by (chain; reflexivity).
    apply dispatch_commit_rule.
    eapply wp_conseq;
      [apply wp_both; [apply dispatch_spec | apply dispatch_answer]|].
    cbv beta. intros r w2 [[Hl2 _] Hlen].
    destruct r as [[resp|[]]|e].
    + split; [congruence|]. intros eventId ->.
      specialize (Hlen _ eq_refl). discriminate Hlen.
    + rewrite Hid. apply wp_bind, wp_ret, wp_ret.
      split; [congruence|]. intros eventId. discriminate.
    + split; [congruence|]. intros eventId. discriminate.
Qed.

Definition email_is_required : exn := Error "Email is required for contact operations".

Lemma wp_booked_email payload w :
  nullish payload = false ->
  wp (get (contact_data_of payload) "email" ||> get payload "email")
     (fun r w' => r = Ok (booked_email payload) /\ w' = w) w.
Proof.
  intros Hn. pose proof (contact_data_not_nullish payload) as Hcd.
  unfold or_else, get, booked_email, js_or. rewrite Hcd, Hn. repeat (wp_step; auto).
Qed.

Lemma wp_booked_name payload w :
  wp (get (contact_data_of payload) "name" ||> get (contact_data_of payload) "full_name")
     (fun r w' => r = Ok (booked_name payload) /\ w' = w) w.
Proof.
  pose proof (contact_data_not_nullish payload) as Hcd.
  unfold or_else, get, booked_name, js_or. rewrite Hcd. repeat (wp_step; auto).
Qed.

Lemma wp_booked_phone payload w :
  wp (get (contact_data_of payload) "phone"
        ||> get (contact_data_of payload) "phone_number")
     (fun r w' => r = Ok (booked_phone payload) /\ w' = w) w.
Proof.
  pose proof (contact_data_not_nullish payload) as Hcd.
  unfold or_else, get, booked_phone, js_or. rewrite Hcd. repeat (wp_step; auto).
Qed.

(** [handleAppointmentBooked] up to the contact upsert: the fields of the
    contact are read from the payload without touching the store. *)
Lemma handleAppointmentBooked_reads payload user w Q :
  nullish payload = false ->
  wp (let (firstName, lastName) := parseName (booked_name payload) in
      contact <- Secured.upsertContact (booked_email payload) firstName lastName
                   (booked_phone payload) (JStr (user_id user)) ;;
      dealData <- (get payload "deal"
                     ||> (d <- get payload "data" ;; ret (get_opt d "deal"))
                     ||> ret (JObj [])) ;;
      dealTitle <- (get dealData "title" ||> get dealData "name"
                      ||> ret (JStr ("Appointment with "
                                       ++ js_String (booked_name payload)))) ;;
      dealValue <- (get dealData "value" ||> get dealData "amount" ||> ret (JNum 0)) ;;
      deal <- Secured.createDeal dealTitle dealValue JUndefined JUndefined
                (JStr (contact_id contact)) (JStr (user_id user)) (JStr "iClosed") ;;
      appointmentTime <- (get payload "appointment_time"
                            ||> (d <- get payload "data" ;;
                                 ret (get_opt d "appointment_time"))
                            ||> (t <- now ;; ret (JStr t))) ;;
      bookingDetails <- (get payload "booking_details"
                           ||> (d <- get payload "data" ;;
                                ret (get_opt d "booking_details"))
                           ||> ret (JObj [])) ;;
      Secured.logActivity "APPOINTMENT_BOOKED"
        ("Appointment booked for " ++ js_String appointmentTime)
        (JStr (contact_id contact)) (JStr (deal_id deal)) (JStr (user_id user))
        (JObj [("source", JStr "iClosed"); ("appointmentTime", appointmentTime);
               ("dealName", dealTitle); ("bookingDetails", bookingDetails)]) ;;;
      ret tt) Q w ->
  wp (Secured.handleAppointmentBooked payload user) Q w.
Proof.
  intros Hn Hrest. unfold Secured.handleAppointmentBooked.
  apply wp_bind.
  eapply wp_conseq; [apply wp_contact_data; exact Hn|]. cbv beta.
  intros r w' [-> ->].
  apply wp_bind.
  eapply wp_conseq; [apply wp_booked_email; exact Hn|]. cbv beta.
  intros r w' [-> ->].
  apply wp_bind.
  eapply wp_conseq; [apply wp_booked_name|]. cbv beta.
  intros r w' [-> ->].
  apply wp_bind.
  eapply wp_conseq; [apply wp_booked_phone|]. cbv beta.
  intros r w' [-> ->].
  exact Hrest.
Qed.

(** X7. With a working storage, an [appointment_booked] delivery that
    carries no contact email is answered 500 with the error "Email is
    required for contact operations", and the world is returned as it was:
    no contact, deal, activity or log row is written. *)
Theorem booking_without_email_is_rejected :
  forall ICLOSED_SECRET req w,
    Secured.secret_rejected (Secured.x_webhook_secret req) ICLOSED_SECRET = false ->
    faults w = [] -> users w <> [] ->
    find (fun l => strict_eq (log_key l) (event_id_of (Secured.body req)))
         (webhookLogs w) = None ->
    prop (Secured.body req) "event" = JStr "appointment_booked" ->
    truthy (booked_email (Secured.body req)) = false ->
    Secured.handleIncomingWebhook ICLOSED_SECRET req w
    = (Ok (failed_to_process email_is_required), w).
Proof.
  intros secret req w Hs Hf Hu Hlog He Hmail.
  set (payload := Secured.body req) in *.
  assert (Hp : truthy payload = true).
  { destruct payload; try discriminate He; reflexivity. }
  pose proof (truthy_not_nullish _ Hp) as Hn.
  destruct (resolve_user_some payload w Hu) as [u Hru].
  assert (Hh : Secured.handle payload w = (Throw email_is_required, w)).
  { enough (wp (Secured.handle payload)
               (fun r w' => r = Throw email_is_required /\ w' = w) w) as Hwp.
    { unfold wp in Hwp. destruct (Secured.handle payload w) as [r0 w1].
      simpl in Hwp. destruct Hwp as [-> ->]. reflexivity. }
    apply (handle_dispatches payload w u); auto.
    { rewrite He. reflexivity. }
    rewrite He. unfold Secured.dispatch. cbn [is_str strict_eq String.eqb Ascii.eqb Bool.eqb].
    change (is_str (JStr "appointment_booked") "appointment_booked") with true.
    cbv iota. apply wp_bind, wp_bind.
    apply handleAppointmentBooked_reads; [exact Hn|].
    destruct (parseName (booked_name payload)) as [firstName lastName].
    apply wp_bind. unfold Secured.upsertContact. rewrite Hmail. simpl negb. cbv iota.
    apply wp_throw. auto. }
  unfold Secured.handleIncomingWebhook, try_catch. rewrite Hs.
  fold payload. rewrite Hh. reflexivity.
Qed.





Lemma parseName_stored name :
  stored (fst (parseName name)) = fst (parseName name)
  /\ stored (snd (parseName name)) = snd (parseName name).
Proof.
  unfold parseName. destruct name; try (split; reflexivity).
  destruct (String.eqb s ""); [split; reflexivity|].
  destruct (trim_split s) as [|x [|y l]]; split; reflexivity.
Qed.

Lemma truthy_stored v : truthy v = true -> stored v = v.
Proof. destruct v; simpl; congruence. Qed.










(** The pipeline [createDeal] creates for a user who has none. *)
Definition defaultPipeline (userId : json) (w : world) : pipeline :=
  {| pipeline_id := fresh_id w; pipeline_name := "Default Pipeline";
     pipeline_userId := stored userId |}.

Lemma filter_none {A} (p : A -> bool) (l : list A) :
  (forall x, In x l -> p x = false) -> filter p l = [].
Proof.
  induction l as [|x l IH]; intros Hl; simpl; [reflexivity|].
  rewrite (Hl x (or_introl eq_refl)). apply IH. intros y Hy. apply Hl. right. exact Hy.
Qed.

Lemma filter_number_stages n pid names :
  filter (fun s => String.eqb (stage_pipelineId s) pid) (prisma.number_stages n pid names)
  = prisma.number_stages n pid names.
Proof.
  revert n. induction names as [|[name order] names IH]; intros n; simpl; [reflexivity|].
  rewrite String.eqb_refl, IH. reflexivity.
Qed.

Lemma find_app_some {A} (p : A -> bool) (l : list A) (x : A) :
  p x = true -> exists y, find p (l ++ [x])%list = Some y /\ p y = true.
Proof.
  intros Hx. induction l as [|a l IH]; simpl.
  - rewrite Hx. eauto.
  - destruct (p a) eqn:E; eauto.
Qed.

(** X9. With a working storage, [createDeal] called without pipeline
    and stage for a user who has no pipeline creates the pipeline "Default
    Pipeline" of that user with the six stages New, Qualified, Proposal,
    Negotiation, Closed Won, Closed Lost (orders 1 to 6), and puts the new
    deal in that pipeline, in its stage "New". (The id the storage
    allocates is not yet the pipeline of any stage.) *)
Theorem createDeal_creates_default_pipeline :
  forall title value stageId pipelineId contactId userId source w,
    faults w = [] -> truthy pipelineId = false -> truthy stageId = false ->
    find (fun p => where_eq (pipeline_userId p) userId) (pipelines w) = None ->
    (forall s, In s (stages w) -> String.eqb (stage_pipelineId s) (fresh_id w) = false) ->
    exists d w' first more,
      Secured.createDeal title value stageId pipelineId contactId userId source w
      = (Ok d, w')
      /\ pipelines w' = (pipelines w ++ [defaultPipeline userId w])%list
      /\ stages w' = (stages w ++ first :: more)%list
      /\ map (fun s => (stage_name s, stage_order s, stage_pipelineId s)) (first :: more)
         = map (fun n => (fst n, snd n, fresh_id w)) Secured.defaultStages
      /\ deal_pipelineId d = JStr (fresh_id w)
      /\ deal_stageId d = JStr (stage_id first)
      /\ stage_name first = "New"
      /\ deals w' = (deals w ++ [d])%list.
Proof.
  intros title value stageId pipelineId contactId userId source w Hf Hp Hs Hnone Hfresh.
  enough (wp (Secured.createDeal title value stageId pipelineId contactId userId source)
             (fun r w' =>
                exists d first more,
                  r = Ok d
                  /\ pipelines w' = (pipelines w ++ [defaultPipeline userId w])%list
                  /\ stages w' = (stages w ++ first :: more)%list
                  /\ map (fun s => (stage_name s, stage_order s, stage_pipelineId s))
                         (first :: more)
                     = map (fun n => (fst n, snd n, fresh_id w)) Secured.defaultStages
                  /\ deal_pipelineId d = JStr (fresh_id w)
                  /\ deal_stageId d = JStr (stage_id first)
                  /\ stage_name first = "New"
                  /\ deals w' = (deals w ++ [d])%list) w) as Hwp.
  { unfold wp in Hwp.
    destruct (Secured.createDeal title value stageId pipelineId contactId userId source w)
      as [r w'].
    simpl in Hwp. destruct Hwp as (d & first & more & -> & Hrest).
    exists d, w', first, more. auto. }
  unfold Secured.createDeal. rewrite Hp, Hs. simpl negb. cbv iota.
  autounfold with js.
  apply wp_bind, wp_bind, wp_query_ok; [exact Hf|]. cbv beta iota. rewrite Hnone.
  apply wp_bind, wp_storage_ok; [exact Hf|]. cbn [fst snd].
  apply wp_bind, wp_storage_ok; [exact Hf|]. cbn [fst snd pipeline_id].
  apply wp_ret, wp_bind, wp_bind, wp_query_ok; [exact Hf|]. cbv beta iota.
  cbn [pipelines bump set_stages set_pipelines].
  destruct (find_app_some (fun p => is_str (JStr (fresh_id w)) (pipeline_id p))
              (pipelines w)
              {| pipeline_id := fresh_id w; pipeline_name := "Default Pipeline";
                 pipeline_userId := stored userId |}) as (p & Hfind & Hid).
  { unfold is_str, strict_eq. cbn [pipeline_id]. apply String.eqb_refl. }
  rewrite Hfind.
  unfold is_str, strict_eq in Hid. apply String.eqb_eq in Hid. rewrite <- Hid.
  unfold stages_of. cbn [stages bump set_stages set_pipelines nextId].
  rewrite filter_app, (filter_none _ _ Hfresh), filter_number_stages.
  cbn [app Secured.defaultStages prisma.number_stages].
  apply wp_ret. unfold prisma.deal_create. apply wp_storage_ok; [exact Hf|].
  cbn [fst snd].
  do 3 eexists. split; [reflexivity|].
  split; [reflexivity|]. split; [cbn; reflexivity|].
  split; [reflexivity|]. repeat split.
Qed.

(** The deal id and the status a [status_changed] delivery carries. *)
Definition deal_id_of (payload : json) : json :=
  js_or (prop (deal_data_of payload) "id") (prop (deal_data_of payload) "deal_id").

Definition deal_id_is_required : exn :=
  Error "Deal ID is required for status_changed event".

Lemma deal_data_not_nullish payload : nullish (deal_data_of payload) = false.
Proof.
  unfold deal_data_of, js_or.
  destruct (truthy (prop payload "deal")) eqn:E1; [apply truthy_not_nullish, E1|].
  destruct (truthy (get_opt (prop payload "data") "deal")) eqn:E2;
    [apply truthy_not_nullish, E2 | reflexivity].
Qed.

Lemma wp_deal_id payload w :
  wp (get (deal_data_of payload) "id" ||> get (deal_data_of payload) "deal_id")
     (fun r w' => r = Ok (deal_id_of payload) /\ w' = w) w.
Proof.
  pose proof (deal_data_not_nullish payload) as Hdd.
  unfold or_else, get, deal_id_of, js_or. rewrite Hdd. repeat (wp_step; auto).
Qed.

Lemma wp_new_status payload w :
  nullish payload = false ->
  wp (get (deal_data_of payload) "new_status" ||> get payload "new_status")
     (fun r w' => r = Ok (new_status_of payload) /\ w' = w) w.
Proof.
  intros Hn. pose proof (deal_data_not_nullish payload) as Hdd.
  unfold or_else, get, new_status_of, js_or. rewrite Hdd, Hn. repeat (wp_step; auto).
Qed.

(** [handleStatusChanged] up to the check of the deal id. *)
Lemma handleStatusChanged_reads payload user w Q :
  nullish payload = false ->
  wp (if negb (truthy (deal_id_of payload))
      then throw deal_id_is_required
      else
        deal <- prisma.deal_findFirst_with_pipeline (deal_id_of payload)
                  (JStr (user_id user)) ;;
        match deal with
        | None => throw (Error ("Deal with ID " ++ js_String (deal_id_of payload)
                                  ++ " not found"))
        | Some deal =>
            pipelineStages <-
              match ld_pipeline deal with
              | Some (_, l) => ret l
              | None =>
                  throw (TypeError "Cannot read properties of null (reading 'stages')")
              end ;;
            targetStage <- Secured.findStageByStatus (new_status_of payload)
                             pipelineStages ;;
            match targetStage with
            | None => throw (stage_not_found (new_status_of payload))
            | Some targetStage =>
                Secured.updateDealStage (deal_id_of payload)
                  (JStr (stage_id targetStage)) ;;;
                previousStatus <-
                  match ld_stage deal with
                  | Some stage => ret (JStr (stage_name stage))
                  | None => throw stage_is_undefined
                  end ;;
                changedAt <- now ;;
                Secured.logActivity "DEAL_STATUS_CHANGED"
                  ("Deal status changed to: " ++ js_String (new_status_of payload))
                  JUndefined (JStr (deal_id (ld_deal deal))) (JStr (user_id user))
                  (JObj [("source", JStr "iClosed");
                         ("previousStatus", previousStatus);
                         ("newStatus", new_status_of payload);
                         ("changedAt", JStr changedAt)]) ;;;
                ret tt
            end
        end) Q w ->
  wp (Secured.handleStatusChanged payload user) Q w.
Proof.
  intros Hn Hrest. unfold Secured.handleStatusChanged.
  apply wp_bind.
  eapply wp_conseq; [apply wp_deal_data; exact Hn|]. cbv beta.
  intros r w' [-> ->].
  apply wp_bind.
  eapply wp_conseq; [apply wp_deal_id|]. cbv beta.
  intros r w' [-> ->].
  apply wp_bind.
  eapply wp_conseq; [apply wp_new_status; exact Hn|]. cbv beta.
  intros r w' [-> ->].
  exact Hrest.
Qed.

(** X10. A [status_changed] delivery without a deal id ([deal.id] or
    [deal.deal_id]) throws "Deal ID is required for status_changed event"
    before any storage call: the world, its failure schedule included, is
    returned as it was. *)
Theorem status_change_needs_deal_id :
  forall payload user w,
    nullish payload = false -> truthy (deal_id_of payload) = false ->
    Secured.handleStatusChanged payload user w = (Throw deal_id_is_required, w).
Proof.
  intros payload user w Hn Hid. apply wp_equation.
  apply handleStatusChanged_reads; [exact Hn|].
  rewrite Hid. simpl negb. cbv iota. apply wp_throw. auto.
Qed.

Lemma includes_empty s : includes s "" = true.
Proof. destruct s; reflexivity. Qed.

Definition toLowerCase_of_nullish (v : json) : exn :=
  TypeError ("Cannot read properties of " ++ nullish_name v ++ " (reading 'toLowerCase')").

(** X11. A [status_changed] delivery for an existing deal whose pipeline
    has stages, with a working storage: when the status is the empty
    string, the deal is moved to the first stage of its pipeline (every
    stage name contains the empty string); when the status is missing
    ([undefined] or [null]), a TypeError is thrown before any write and the
    world is returned as it was. *)
Theorem status_change_with_empty_or_missing_status :
  (forall payload user w d p first rest,
      truthy payload = true -> faults w = [] ->
      truthy (prop (deal_data_of payload) "id") = true ->
      find (fun d => andb (where_eq (JStr (deal_id d)) (prop (deal_data_of payload) "id"))
                          (where_eq (deal_userId d) (JStr (user_id user)))) (deals w)
      = Some d ->
      prisma.pipeline_of d w = Some (p, first :: rest) ->
      new_status_of payload = JStr "" ->
      Secured.handleStatusChanged payload user w
      = (Throw stage_is_undefined,
         move_to_stage (prop (deal_data_of payload) "id") first w))
  /\ (forall payload user w d p first rest,
         truthy payload = true -> faults w = [] ->
         truthy (prop (deal_data_of payload) "id") = true ->
         find (fun d => andb (where_eq (JStr (deal_id d))
                                       (prop (deal_data_of payload) "id"))
                             (where_eq (deal_userId d) (JStr (user_id user)))) (deals w)
         = Some d ->
         prisma.pipeline_of d w = Some (p, first :: rest) ->
         nullish (new_status_of payload) = true ->
         Secured.handleStatusChanged payload user w
         = (Throw (toLowerCase_of_nullish (new_status_of payload)), w)).
Proof.
  split.
  - intros payload user w d p first rest Hp Hf Hid Hfind Hpl Hns.
    apply (handleStatusChanged_moves payload user w d p (first :: rest) ""); auto.
    unfold stage_by_status. cbn [find]. rewrite toLowerCase_empty.
    rewrite includes_empty, orb_true_r. reflexivity.
  - intros payload user w d p first rest Hp Hf Hid Hfind Hpl Hns.
    pose proof (truthy_not_nullish _ Hp) as Hn.
    apply wp_equation. apply handleStatusChanged_reads; [exact Hn|].
    assert (Hdid : deal_id_of payload = prop (deal_data_of payload) "id").
    { unfold deal_id_of, js_or. rewrite Hid. reflexivity. }
    rewrite Hdid, Hid. simpl negb. cbv iota.
    unfold prisma.deal_findFirst_with_pipeline.
    apply wp_bind, wp_query_ok; [exact Hf|]. cbv beta iota.
    rewrite Hfind, Hpl. cbn [ld_pipeline].
    apply wp_bind, wp_ret, wp_bind.
    unfold Secured.findStageByStatus. cbn [findM].
    apply wp_bind, wp_bind. unfold toLowerCase_of_nullish.
    destruct (new_status_of payload); try discriminate Hns; apply wp_throw; auto.
Qed.

End SecuredCases.


Lemma missing_event_is_bad_request_witness :
  Secured.handleIncomingWebhook (Some "test-secret")
    {| Secured.x_webhook_secret := Some "test-secret";
       Secured.body := JObj [("contact", JObj [("email", JStr "a@x.com")])] |}
    smallWorld
  = (Ok Secured.bad_request, smallWorld)
  /\ res_status Secured.bad_request = 400%Z
  /\ body_field Secured.bad_request "status" = JStr "error".
Proof.
  apply (missing_event_is_bad_request (Some "test-secret")
           {| Secured.x_webhook_secret := Some "test-secret";
              Secured.body := JObj [("contact", JObj [("email", JStr "a@x.com")])] |}
           smallWorld); reflexivity.
Defined.

Lemma secured_without_users_writes_nothing_witness :
  exists r w',
    Secured.handleIncomingWebhook (Some "test-secret") bookingRequest emptyStore
    = (Ok r, w')
    /\ unchanged emptyStore w'
    /\ (r = duplicate_event (event_id_of (Secured.body bookingRequest))
        \/ r = no_users_found \/ r = failed_to_find_user)
    /\ (faults emptyStore = [] ->
        find (fun l => strict_eq (log_key l) (event_id_of (Secured.body bookingRequest)))
             (webhookLogs emptyStore) = None ->
        r = no_users_found /\ w' = emptyStore).
Proof.
  apply (secured_without_users_writes_nothing (Some "test-secret") bookingRequest
           emptyStore); reflexivity.
Defined.

Lemma no_event_id_no_log_row_witness :
  exists r w',
    Secured.handleIncomingWebhook (Some "test-secret")
      {| Secured.x_webhook_secret := Some "test-secret";
         Secured.body := JObj [("event", JStr "appointment_booked");
                               ("contact", JObj [("email", JStr "a@x.com")])] |}
      smallWorld = (Ok r, w')
    /\ webhookLogs w' = webhookLogs smallWorld
    /\ forall eventId, r <> duplicate_event eventId.
Proof.
  apply (no_event_id_no_log_row (Some "test-secret")
           {| Secured.x_webhook_secret := Some "test-secret";
              Secured.body := JObj [("event", JStr "appointment_booked");
                                    ("contact", JObj [("email", JStr "a@x.com")])] |}
           smallWorld); reflexivity.
Defined.

Lemma booking_without_email_is_rejected_witness :
  Secured.handleIncomingWebhook (Some "test-secret")
    {| Secured.x_webhook_secret := Some "test-secret";
       Secured.body := JObj [("event", JStr "appointment_booked");
                             ("event_id", JStr "E5");
                             ("contact", JObj [("name", JStr "No Email")])] |}
    smallWorld
  = (Ok (failed_to_process email_is_required), smallWorld).
Proof.
  apply (booking_without_email_is_rejected (Some "test-secret")
           {| Secured.x_webhook_secret := Some "test-secret";
              Secured.body := JObj [("event", JStr "appointment_booked");
                                    ("event_id", JStr "E5");
                                    ("contact", JObj [("name", JStr "No Email")])] |}
           smallWorld); try reflexivity.
  discriminate.
Defined.


Lemma createDeal_creates_default_pipeline_witness :
  exists d w' first more,
    Secured.createDeal (JStr "First deal") (JNum 100) JUndefined JUndefined
      (JStr "c1") (JStr "u1") (JStr "iClosed") emptyStore
    = (Ok d, w')
    /\ pipelines w' = (pipelines emptyStore ++ [defaultPipeline (JStr "u1") emptyStore])%list
    /\ stages w' = (stages emptyStore ++ first :: more)%list
    /\ map (fun s => (stage_name s, stage_order s, stage_pipelineId s)) (first :: more)
       = map (fun n => (fst n, snd n, fresh_id emptyStore)) Secured.defaultStages
    /\ deal_pipelineId d = JStr (fresh_id emptyStore)
    /\ deal_stageId d = JStr (stage_id first)
    /\ stage_name first = "New"
    /\ deals w' = (deals emptyStore ++ [d])%list.
Proof.
  apply (createDeal_creates_default_pipeline (JStr "First deal") (JNum 100) JUndefined
           JUndefined (JStr "c1") (JStr "u1") (JStr "iClosed") emptyStore);
    try reflexivity.
  intros s [].
Defined.

Lemma status_change_needs_deal_id_witness :
  Secured.handleStatusChanged
    (JObj [("event", JStr "status_changed");
           ("deal", JObj [("new_status", JStr "Proposal")])])
    {| user_id := "u1" |} dealWorld
  = (Throw deal_id_is_required, dealWorld).
Proof.
  apply (status_change_needs_deal_id
           (JObj [("event", JStr "status_changed");
                  ("deal", JObj [("new_status", JStr "Proposal")])])
           {| user_id := "u1" |} dealWorld); reflexivity.
Defined.

Lemma status_change_with_empty_or_missing_status_witness :
  Secured.handleStatusChanged
    (JObj [("event", JStr "status_changed"); ("new_status", JStr "");
           ("deal", JObj [("id", JStr "d1")])])
    {| user_id := "u1" |} dealWorld
  = (Throw stage_is_undefined,
     move_to_stage (JStr "d1")
       {| stage_id := "s1"; stage_name := "New"; stage_order := 1;
          stage_pipelineId := "p1" |} dealWorld)
  /\ Secured.handleStatusChanged
       (JObj [("event", JStr "status_changed"); ("deal", JObj [("id", JStr "d1")])])
       {| user_id := "u1" |} dealWorld
     = (Throw (toLowerCase_of_nullish JUndefined), dealWorld).
Proof.
  split.
  - eapply (proj1 status_change_with_empty_or_missing_status
              (JObj [("event", JStr "status_changed"); ("new_status", JStr "");
                     ("deal", JObj [("id", JStr "d1")])])
              {| user_id := "u1" |} dealWorld);
      reflexivity.
  - eapply (proj2 status_change_with_empty_or_missing_status
              (JObj [("event", JStr "status_changed");
                     ("deal", JObj [("id", JStr "d1")])])
              {| user_id := "u1" |} dealWorld);
      reflexivity.
Defined.

(** ** The permissive handler, case by case *)

(** The world at a later time of the clock. *)
Definition set_clock (t : string) (w : world) : world :=
  {| users := users w; contacts := contacts w; pipelines := pipelines w;
     stages := stages w; deals := deals w; activities := activities w;
     webhookLogs := webhookLogs w; workflows := workflows w; tasks := tasks w;
     nextId := nextId w; clock := t; faults := faults w |}.

(** [email && typeof email === 'string' && email.includes('@')] *)
Definition usable_email (email : json) : bool :=
  match email with
  | JStr e => andb (truthy email) (includes e "@")
  | _ => false
  end.

Definition idempotencyKey_is_not_defined : exn :=
  ReferenceError "idempotencyKey is not defined".

Section PermissiveCases.
Context `{Runtime}.

Lemma permissive_findUser_in payload w :
  wp (Permissive.findUser payload)
     (fun r w' =>
        unchanged w w'
        /\ ((exists u, r = Ok (Next u) /\ In u (users w))
            \/ r = Ok (Return Permissive.received))) w.
Proof.
  unfold Permissive.findUser. autounfold with js.
  wp_steps; chain; (split; [unch|]); auto.
  all: left; eexists; (split; [reflexivity|]).
  all: match goal with
       | E : find _ _ = Some _ |- _ => apply find_some in E; apply E
       | E : hd_error ?l = Some _ |- _ =>
           simpl in E; destruct (users w); [discriminate | injection E as ->; left; reflexivity]
       end.
Qed.

(** The steps of [handle]: the lookup of the idempotency key decides
    between the duplicate answer and the processing. *)
Lemma permissive_steps body w (Q : result response -> world -> Prop) :
  nullish body = false ->
  wp (Permissive.isWebhookProcessed (idempotency_key (payload_of body) w))
     (fun r w1 =>
        match r with
        | Ok true =>
            Q (Ok (duplicate_webhook (idempotency_key (payload_of body) w))) w1
        | Ok false =>
            (forall w2, unchanged w1 w2 -> Q (Ok Permissive.received) w2)
            /\ (forall w2 user, unchanged w1 w2 -> In user (users w) ->
                  wp (process_and_log (payload_of body)
                        (idempotency_key (payload_of body) w) user) Q w2)
        | Throw e => Q (Throw e) w1
        end) w ->
  wp (Permissive.handle body) Q w.
Proof.
  intros Hn Hsteps.
  pose proof (payload_not_nullish body Hn) as Hpn.
  unfold Permissive.handle.
  apply wp_bind.
  eapply wp_conseq; [apply wp_payload; exact Hn|]. cbv beta.
  intros r w' [-> ->].
  apply wp_bind. unfold Permissive.generateIdempotencyKey.
  apply wp_bind. unfold wp at 1, now. cbn [fst snd].
  apply wp_ret. fold (idempotency_key (payload_of body) w).
  apply wp_bind.
  eapply wp_conseq;
    [apply wp_both; [exact Hsteps | apply isWebhookProcessed_spec]|].
  cbv beta.
  intros r w1 [HQ (_ & U1 & _)].
  destruct r as [[|]|e]; [apply wp_ret; exact HQ | | exact HQ].
  destruct HQ as [Hnouser Hrest].
  assert (Hu : users w1 = users w) by (chain; reflexivity).
  apply wp_bind.
  eapply wp_conseq; [apply wp_email; exact Hpn|]. cbv beta.
  intros r w' [-> ->].
  apply wp_bind.
  eapply wp_conseq; [apply wp_name; exact Hpn|]. cbv beta.
  intros r w' [-> ->].
  apply wp_bind.
  eapply wp_conseq; [apply wp_phone; exact Hpn|]. cbv beta.
  intros r w' [-> ->].
  apply wp_bind.
  eapply wp_conseq; [apply permissive_findUser_in|]. cbv beta.
  intros r w2 [U2 [(u & -> & Hin) | ->]].
  - apply Hrest; [exact U2 | rewrite <- Hu; exact Hin].
  - apply wp_ret. apply Hnouser. exact U2.
Qed.

(** The cases of [handle], with a user of the store. *)
Lemma permissive_cases body w (Q : result response -> world -> Prop) :
  nullish body = false ->
  (forall w1, unchanged w w1 ->
     Q (Ok (duplicate_webhook (idempotency_key (payload_of body) w))) w1) ->
  (forall w1, unchanged w w1 -> Q (Ok Permissive.received) w1) ->
  (forall w1 user, unchanged w w1 -> In user (users w) ->
     wp (process_and_log (payload_of body) (idempotency_key (payload_of body) w) user)
        Q w1) ->
  wp (Permissive.handle body) Q w.
Proof.
  intros Hn Hdup Hnouser Hrest. apply permissive_steps; [exact Hn|].
  eapply wp_conseq; [apply isWebhookProcessed_spec|]. cbv beta.
  intros r w1 ([b ->] & U1 & _).
  destruct b; [apply Hdup; exact U1|].
  split.
  - intros w2 U2. apply Hnouser. eapply frame_trans; eassumption.
  - intros w2 user U2 Hin. apply Hrest; [eapply frame_trans; eassumption | exact Hin].
Qed.

(** The permissive handler on a parsed body: the answer of [handle]. *)
Lemma permissive_run body w (Q : response -> world -> Prop) :
  wp (Permissive.handle body)
     (fun r w' => match r with
                  | Ok resp => Q resp w'
                  | Throw _ => False
                  end) w ->
  exists r w', Permissive.handleIncomingWebhook body w = (Ok r, w') /\ Q r w'.
Proof.
  intros Hwp. unfold Permissive.handleIncomingWebhook, try_catch.
  unfold wp in Hwp.
  destruct (Permissive.handle body w) as [[resp|e] w']; simpl in Hwp; [|contradiction].
  do 2 eexists. split; [reflexivity | exact Hwp].
Qed.

End PermissiveCases.

(** X12. When the request has no body ([undefined] or [null]) the
    permissive handler does not answer: reading the body throws, and the
    [catch] block, which refers to [idempotencyKey] outside its scope,
    throws a ReferenceError in turn. No storage call is made. *)
Theorem permissive_without_body_throws :
  forall (R : Runtime) body w,
    nullish body = true ->
    Permissive.handleIncomingWebhook body w = (Throw idempotencyKey_is_not_defined, w).
Proof.
  intros R body w Hn.
  unfold Permissive.handleIncomingWebhook, try_catch, Permissive.handle.
  unfold bind at 1, or_else at 1, bind at 1, get at 1. rewrite Hn. reflexivity.
Qed.

Lemma permissive_without_body_throws_witness :
  Permissive.handleIncomingWebhook (H := exampleRuntime) JUndefined smallWorld
  = (Throw idempotencyKey_is_not_defined, smallWorld).
Proof.
  apply (permissive_without_body_throws exampleRuntime JUndefined smallWorld).
  reflexivity.
Defined.

(** X13. With no user in the store the permissive handler writes nothing,
    whatever the storage does, and still answers 200: "Webhook received",
    or the duplicate answer. No row of the webhook log is written, so the
    delivery is not recorded as processed. *)
Theorem permissive_without_users_writes_nothing :
  forall (R : Runtime) body w,
    nullish body = false -> users w = [] ->
    exists r w',
      Permissive.handleIncomingWebhook body w = (Ok r, w')
      /\ unchanged w w'
      /\ (r = Permissive.received
          \/ r = duplicate_webhook (idempotency_key (payload_of body) w)).
Proof.
  intros R body w Hn Hu.
  apply (permissive_run body w
           (fun r w' => unchanged w w'
                        /\ (r = Permissive.received
                            \/ r = duplicate_webhook
                                     (idempotency_key (payload_of body) w)))).
  apply permissive_cases; [exact Hn | | |].
  - intros w1 U. auto.
  - intros w1 U. auto.
  - intros w1 user U Hin. rewrite Hu in Hin. destruct Hin.
Qed.

Lemma permissive_without_users_writes_nothing_witness :
  exists r w',
    Permissive.handleIncomingWebhook (H := exampleRuntime) callBooked emptyStore
    = (Ok r, w')
    /\ unchanged emptyStore w'
    /\ (r = Permissive.received
        \/ r = duplicate_webhook
                 (idempotency_key (H := exampleRuntime) (payload_of callBooked)
                    emptyStore)).
Proof.
  apply (permissive_without_users_writes_nothing exampleRuntime callBooked emptyStore);
    reflexivity.
Defined.

Section FailedLookup.
Context `{Runtime}.

Lemma isWebhookProcessed_fails_open key w fs :
  faults w = true :: fs ->
  Permissive.isWebhookProcessed key w = (Ok false, set_faults fs w).
Proof.
  intros Hf.
  unfold Permissive.isWebhookProcessed, prisma.webhookLog_findUnique, try_catch, bind,
    query, storage.
  rewrite Hf. reflexivity.
Qed.

Lemma isProcessed_fails_open eventId w fs :
  truthy eventId = true -> faults w = true :: fs ->
  Secured.isProcessed eventId w = (Ok false, set_faults fs w).
Proof.
  intros Ht Hf.
  unfold Secured.isProcessed, prisma.webhookLog_findUnique, try_catch, bind,
    query, storage.
  rewrite Ht. cbn [negb]. rewrite Hf. reflexivity.
Qed.

Lemma process_and_log_received payload key user w :
  nullish payload = false ->
  wp (process_and_log payload key user)
     (fun r _ => exists resp, r = Ok resp
                              /\ body_field resp "message" = JStr "Webhook received") w.
Proof.
  intros Hpn. unfold process_and_log.
  apply wp_bind. unfold wp at 1.
  destruct (processContact_returns (email_of payload) (name_of payload)
              (phone_of payload) user w) as [w2 ->].
  cbn [fst snd]. apply wp_bind.
  eapply wp_conseq; [apply processDeal_returns; exact Hpn|]. cbv beta.
  intros r w3 [-> | ->].
  - apply wp_bind.
    eapply wp_conseq; [apply logProcessedWebhook_spec|]. cbv beta.
    intros r w4 [-> _]. apply wp_ret. eexists. split; reflexivity.
  - apply wp_ret. eexists. split; reflexivity.
Qed.

(** Whatever [dispatch] and the write of the log row do, the answer is
    not the duplicate one. *)
Lemma dispatch_and_commit_not_duplicate payload user w :
  wp (dispatch_and_commit payload user)
     (fun r _ => match r with
                 | Ok resp => forall eventId, resp <> duplicate_event eventId
                 | Throw _ => True
                 end) w.
Proof.
  apply dispatch_commit_rule.
  eapply wp_conseq; [apply dispatch_answer|]. cbv beta.
  intros r w2 Hlen.
  destruct r as [[resp|[]]|e]; [ | | exact I].
  - intros eventId ->. specialize (Hlen _ eq_refl). discriminate Hlen.
  - apply wp_bind_any; [intros; exact I|].
    intros _ w3. apply wp_ret. intros eventId. discriminate.
Qed.

End FailedLookup.

(** X14. Deduplication fails open in both variants: when the lookup in
    the webhook log fails, the delivery is treated as new, also when a log
    row for it exists. The permissive handler then answers "Webhook
    received", the secured one anything but the duplicate answer. *)
Theorem failed_lookup_is_not_a_duplicate :
  (forall (R : Runtime) body w fs,
      nullish body = false -> faults w = true :: fs ->
      exists r w',
        Permissive.handleIncomingWebhook body w = (Ok r, w')
        /\ body_field r "message" = JStr "Webhook received")
  /\ (forall (R : Runtime) ICLOSED_SECRET req w fs,
         Secured.secret_rejected (Secured.x_webhook_secret req) ICLOSED_SECRET = false ->
         truthy (event_id_of (Secured.body req)) = true ->
         faults w = true :: fs ->
         exists r w',
           Secured.handleIncomingWebhook ICLOSED_SECRET req w = (Ok r, w')
           /\ forall eventId, r <> duplicate_event eventId).
Proof.
  split.
  - intros R body w fs Hn Hf.
    apply (permissive_run body w
             (fun r _ => body_field r "message" = JStr "Webhook received")).
    apply permissive_steps; [exact Hn|].
    unfold wp at 1. rewrite (isWebhookProcessed_fails_open _ w fs Hf). cbn [fst snd].
    split; [reflexivity|].
    intros w2 user _ _.
    eapply wp_conseq;
      [apply process_and_log_received, payload_not_nullish; exact Hn|].
    cbv beta. intros r w3 (resp & -> & Hm). exact Hm.
  - intros R secret req w fs Hs Hid Hf.
    set (payload := Secured.body req) in *.
    apply (secured_run secret req w
             (fun r _ => forall eventId, r <> duplicate_event eventId) Hs).
    fold payload. unfold Secured.handle.
    destruct (truthy payload) eqn:Hp; simpl negb; cbv iota;
      [|apply wp_ret; intros eventId; discriminate].
    pose proof (truthy_not_nullish _ Hp) as Hn.
    apply wp_bind. unfold get at 1. rewrite Hn. apply wp_ret.
    destruct (truthy (prop payload "event")) eqn:He; simpl negb; cbv iota;
      [|apply wp_ret; intros eventId; discriminate].
    apply wp_bind.
    eapply wp_conseq; [apply wp_event_id; exact Hn|]. cbv beta.
    intros r w' [-> ->].
    assert (Hproc : (if truthy (event_id_of payload)
                     then Secured.isProcessed (event_id_of payload) else ret false) w
                    = (Ok false, set_faults fs w)).
    { rewrite Hid. apply isProcessed_fails_open; assumption. }
    apply wp_bind. unfold wp at 1. rewrite Hproc. cbn [fst snd].
    apply wp_bind.
    eapply wp_conseq; [apply findUser_spec|]. cbv beta.
    intros r w2 [U2 [[u ->] | (resp & -> & Hst & _)]].
    + eapply wp_conseq; [apply dispatch_and_commit_not_duplicate|]. cbv beta.
      intros [resp|e] w3 Hr; [exact Hr | intros eventId; discriminate].
    + apply wp_ret. intros eventId ->. discriminate Hst.
Qed.

Lemma failed_lookup_is_not_a_duplicate_witness :
  (exists r w',
      Permissive.handleIncomingWebhook (H := exampleRuntime) callBooked
        (set_faults [true] afterCallBooked) = (Ok r, w')
      /\ body_field r "message" = JStr "Webhook received")
  /\ (exists r w',
         Secured.handleIncomingWebhook (Some "test-secret") bookingRequest
           (set_faults [true] afterBooking) = (Ok r, w')
         /\ forall eventId, r <> duplicate_event eventId).
Proof.
  split.
  - apply (proj1 failed_lookup_is_not_a_duplicate exampleRuntime callBooked
             (set_faults [true] afterCallBooked) []); reflexivity.
  - apply (proj2 failed_lookup_is_not_a_duplicate exampleRuntime (Some "test-secret")
             bookingRequest (set_faults [true] afterBooking) []); reflexivity.
Defined.

Section SameDay.
Context `{Runtime}.

Lemma processDeal_keeps_logs payload email user :
  preserves (keeps webhookLogs) (Permissive.processDeal payload email user).
Proof.
  unfold Permissive.processDeal, Permissive.processDealBody, Permissive.upsertDeal,
    Permissive.findPipeline, Permissive.findDealContact, Permissive.id_of,
    before_initialization.
  autounfold with js.
  repeat first
    [ apply triggerWorkflow_keeps_logs
    | apply resolveTargetStage_frame; exact _
    | frame_step ].
Qed.

Lemma processContact_keeps_webhookLogs email name phone user :
  preserves (keeps webhookLogs) (Permissive.processContact email name phone user).
Proof. unfold Permissive.processContact. autounfold with js. frame. Qed.

(** A delivery either leaves the webhook log as it is or ends with a row
    for its idempotency key in it. *)
Lemma handle_logs_key body w :
  nullish body = false ->
  wp (Permissive.handle body)
     (fun _ w' =>
        webhookLogs w' = webhookLogs w
        \/ exists l, find (fun l => strict_eq (log_key l)
                                      (JStr (idempotency_key (payload_of body) w)))
                          (webhookLogs w') = Some l) w.
Proof.
  intros Hn. apply permissive_cases; [exact Hn | | |].
  - intros w1 U. left. chain. reflexivity.
  - intros w1 U. left. chain. reflexivity.
  - intros w1 user U _.
    assert (H1 : webhookLogs w1 = webhookLogs w) by (chain; reflexivity).
    unfold process_and_log. apply wp_bind.
    apply (wp_frame (keeps webhookLogs)); [apply processContact_keeps_webhookLogs|].
    intros r w2 K2. unfold keeps in K2.
    destruct r as [[]|e]; [|left; congruence].
    apply wp_bind.
    apply (wp_frame (keeps webhookLogs)); [apply processDeal_keeps_logs|].
    intros r w3 K3. unfold keeps in K3.
    destruct r as [[resp|[]]|e]; [apply wp_ret; left; congruence | | left; congruence].
    apply wp_bind.
    eapply wp_conseq; [apply logProcessedWebhook_spec|]. cbv beta.
    intros r w4 [-> [U4 | (w0 & l & U0 & Hk & _ & ->)]].
    + apply wp_ret. left. chain. simpl. congruence.
    + apply wp_ret. right. cbn [webhookLogs bump set_webhookLogs].
      apply find_app_last. rewrite Hk. simpl. apply String.eqb_refl.
Qed.

End SameDay.

(** X15. The deduplication window of the permissive variant is the day of
    the server clock: once a delivery has been recorded in the webhook log,
    the same body delivered again at any time of the same day (the first
    ten characters of the ISO time) is answered as a duplicate and changes
    nothing, provided the lookup in the log does not fail. *)
Theorem same_day_retry_is_duplicate :
  forall (R : Runtime) body w t,
    nullish body = false ->
    webhookLogs (snd (Permissive.handleIncomingWebhook body w)) <> webhookLogs w ->
    substring 0 10 t = substring 0 10 (clock w) ->
    hd false (faults (snd (Permissive.handleIncomingWebhook body w))) = false ->
    exists w2,
      Permissive.handleIncomingWebhook body
        (set_clock t (snd (Permissive.handleIncomingWebhook body w)))
      = (Ok (duplicate_webhook (idempotency_key (payload_of body) w)), w2)
      /\ unchanged (set_clock t (snd (Permissive.handleIncomingWebhook body w))) w2.
Proof.
  intros R body w t Hn Hchanged Ht Hhd.
  rewrite handler_world in Hchanged, Hhd |- *.
  pose proof (handle_logs_key body w Hn) as Hlogs. unfold wp in Hlogs.
  set (w1 := snd (Permissive.handle body w)) in *.
  destruct Hlogs as [Hsame | [l Hl]]; [contradiction|].
  assert (Hkey : idempotency_key (payload_of body) (set_clock t w1)
                 = idempotency_key (payload_of body) w).
  { unfold idempotency_key. cbn [clock set_clock]. rewrite Ht. reflexivity. }
  rewrite <- Hkey.
  apply (permissive_duplicate body (set_clock t w1) l); auto.
  rewrite Hkey. exact Hl.
Qed.

Lemma same_day_retry_is_duplicate_witness :
  exists w2,
    Permissive.handleIncomingWebhook (H := exampleRuntime) callBooked
      (set_clock "2025-09-01T23:59:59.000Z"
         (snd (Permissive.handleIncomingWebhook (H := exampleRuntime) callBooked
                 smallWorld)))
    = (Ok (duplicate_webhook
             (idempotency_key (H := exampleRuntime) (payload_of callBooked) smallWorld)),
       w2)
    /\ unchanged
         (set_clock "2025-09-01T23:59:59.000Z"
            (snd (Permissive.handleIncomingWebhook (H := exampleRuntime) callBooked
                    smallWorld))) w2.
Proof.
  apply (same_day_retry_is_duplicate exampleRuntime callBooked smallWorld
           "2025-09-01T23:59:59.000Z"); try reflexivity.
  vm_compute. discriminate.
Defined.

(** The same body on the next day is processed again. *)
Example next_day_retry_is_processed :
  let first := Permissive.handleIncomingWebhook (H := exampleRuntime) callBooked
                 smallWorld in
  let second := Permissive.handleIncomingWebhook (H := exampleRuntime) callBooked
                  (set_clock "2025-09-02T00:00:01.000Z" (snd first)) in
  message_of second = Some (JStr "Webhook received")
  /\ List.length (webhookLogs (snd second)) = 2.
Proof. vm_compute. split; reflexivity. Qed.

Section NothingToDo.
Context `{Runtime}.

Lemma processContact_skips email name phone user w :
  usable_email email = false ->
  Permissive.processContact email name phone user w = (Ok tt, w).
Proof.
  intros He. unfold Permissive.processContact, usable_email in *.
  destruct email; try reflexivity. rewrite He. reflexivity.
Qed.

Lemma processDeal_skips payload email user w :
  nullish payload = false -> truthy (prop payload "deal") = false ->
  Permissive.processDeal payload email user w = (Ok (Next tt), w).
Proof.
  intros Hn Hd. unfold Permissive.processDeal, bind, get. rewrite Hn.
  unfold ret at 1. rewrite Hd. reflexivity.
Qed.

End NothingToDo.

(** X16. A delivery whose email is not a string with an [@] and that
    carries no deal creates and updates nothing: contacts, deals,
    pipelines, stages and activities are as before, whatever the storage
    does. It is still answered "Webhook received" (or as a duplicate). *)
Theorem delivery_without_email_and_deal_changes_nothing :
  forall (R : Runtime) body w,
    nullish body = false ->
    usable_email (email_of (payload_of body)) = false ->
    truthy (prop (payload_of body) "deal") = false ->
    exists r w',
      Permissive.handleIncomingWebhook body w = (Ok r, w')
      /\ contacts w' = contacts w /\ deal_view w' = deal_view w
      /\ res_status r = 200%Z.
Proof.
  intros R body w Hn He Hd.
  pose proof (payload_not_nullish body Hn) as Hpn.
  apply (permissive_run body w
           (fun r w' => contacts w' = contacts w /\ deal_view w' = deal_view w
                        /\ res_status r = 200%Z)).
  apply permissive_cases; [exact Hn | | |].
  - intros w1 U. chain. repeat split.
  - intros w1 U. chain. repeat split.
  - intros w1 user U _.
    assert (H1 : contacts w1 = contacts w /\ deal_view w1 = deal_view w)
      by (chain; split; reflexivity).
    destruct H1 as [Hc1 Hd1].
    unfold process_and_log. apply wp_bind. unfold wp at 1.
    rewrite processContact_skips by exact He. cbn [fst snd].
    apply wp_bind. unfold wp at 1.
    rewrite processDeal_skips by assumption. cbn [fst snd].
    apply wp_bind.
    eapply wp_conseq;
      [apply wp_both;
       [apply (wp_frame (keeps contacts) _ (fun _ w' => contacts w' = contacts w1));
        [apply logProcessedWebhook_keeps_contacts | intros r w' K; exact K]
       |apply wp_both;
        [apply (wp_frame (keeps deal_view) _ (fun _ w' => deal_view w' = deal_view w1));
         [apply logProcessedWebhook_keeps_deals | intros r w' K; exact K]
        |apply logProcessedWebhook_spec]]|].
    cbv beta. intros r w2 (Hc2 & Hd2 & -> & _).
    apply wp_ret. repeat split; congruence.
Qed.

Lemma delivery_without_email_and_deal_changes_nothing_witness :
  exists r w',
    Permissive.handleIncomingWebhook (H := exampleRuntime)
      (JObj [("event", JStr "call_booked");
             ("contact", JObj [("email", JStr "not-an-address");
                               ("name", JStr "No Address")])]) smallWorld
    = (Ok r, w')
    /\ contacts w' = contacts smallWorld /\ deal_view w' = deal_view smallWorld
    /\ res_status r = 200%Z.
Proof.
  apply (delivery_without_email_and_deal_changes_nothing exampleRuntime
           (JObj [("event", JStr "call_booked");
                  ("contact", JObj [("email", JStr "not-an-address");
                                    ("name", JStr "No Address")])]) smallWorld);
    reflexivity.
Defined.

(** ** The automation service, function by function *)




(** An action that pushes an entry on the results: every action but a
    [move_deal_stage] for a contact without deals. *)
Definition reported (contact : loadedContact) (action : workflowAction) : bool :=
  negb (andb (is_str (action_type action) "move_deal_stage")
             (match lc_deals contact with [] => true | _ => false end)).

(** An action the service only writes to the console. *)
Definition simulated (action : workflowAction) : bool :=
  orb (is_str (action_type action) "send_email") (is_str (action_type action) "add_tag").

Section AutomationCases.
Context `{Runtime}.




End AutomationCases.





Section ActionResults.
Context `{Runtime}.

Lemma is_str_eq v s : is_str v s = true -> v = JStr s.
Proof.
  unfold is_str. destruct v; simpl; try discriminate.
  intros E. apply String.eqb_eq in E. congruence.
Qed.

(** The entry an action pushes carries the type of the action; an action
    that throws is one that is reported. *)
Lemma executeAction_reports contact action w :
  wp (Automation.executeAction contact action)
     (fun r _ =>
        match r with
        | Ok pushed =>
            map (fun entry => prop entry "actionType") pushed
            = (if reported contact action then [action_type action] else [])
        | Throw _ => reported contact action = true
        end) w.
Proof.
  unfold Automation.executeAction, reported.
  destruct (is_str (action_type action) "send_email") eqn:E1.
  { apply wp_ret. apply is_str_eq in E1. rewrite E1. reflexivity. }
  destruct (is_str (action_type action) "create_task") eqn:E2.
  { apply is_str_eq in E2. rewrite E2. cbn [is_str strict_eq].
    apply wp_bind_any; [reflexivity|]. intros t w'. apply wp_ret. reflexivity. }
  destruct (is_str (action_type action) "add_tag") eqn:E3.
  { apply wp_ret. apply is_str_eq in E3. rewrite E3. reflexivity. }
  destruct (is_str (action_type action) "move_deal_stage") eqn:E4;
    [|apply wp_ret; reflexivity].
  apply is_str_eq in E4.
  destruct (lc_deals contact) as [|deal rest]; [apply wp_ret; reflexivity|].
  cbn [andb negb].
  apply wp_bind_any; [reflexivity|]. intros [targetStage|] w1.
  - apply wp_bind_any; [reflexivity|]. intros _ w2.
    destruct (ld_stage deal); [apply wp_ret | apply wp_throw]; [|reflexivity].
    rewrite E4. reflexivity.
  - apply wp_ret. rewrite E4. reflexivity.
Qed.

Lemma executeActions_reports contact actions : forall results w,
  wp (Automation.executeActions contact actions results)
     (fun r _ =>
        exists pushed,
          r = Ok (results ++ pushed)%list
          /\ map (fun entry => prop entry "actionType") pushed
             = map action_type (filter (reported contact) actions)) w.
Proof.
  induction actions as [|action actions IH]; intros results w.
  - apply wp_ret. exists []. rewrite app_nil_r. auto.
  - cbn [Automation.executeActions filter]. apply wp_bind, wp_try.
    eapply wp_conseq; [apply executeAction_reports|]. cbv beta.
    intros [pushed|e] w1 Hr.
    + eapply wp_conseq; [apply IH|]. cbv beta.
      intros r w2 (more & -> & Hmore).
      exists (pushed ++ more)%list. rewrite app_assoc. split; [reflexivity|].
      rewrite map_app, Hr, Hmore.
      destruct (reported contact action); reflexivity.
    + apply wp_ret.
      eapply wp_conseq; [apply IH|]. cbv beta.
      intros r w2 (more & -> & Hmore).
      eexists (_ :: more). rewrite <- app_assoc. split; [reflexivity|].
      rewrite Hr. cbn. rewrite Hmore. reflexivity.
Qed.

Lemma executeActions_simulated contact actions : forall results w,
  forallb simulated actions = true ->
  exists pushed,
    Automation.executeActions contact actions results w = (Ok (results ++ pushed)%list, w)
    /\ List.length pushed = List.length actions
    /\ Forall (fun entry => prop entry "status" = JStr "simulated") pushed.
Proof.
  induction actions as [|action actions IH]; intros results w Hs.
  - exists []. rewrite app_nil_r. repeat split. constructor.
  - simpl in Hs. apply andb_true_iff in Hs as [Ha Hs].
    cbn [Automation.executeActions]. unfold bind, try_catch.
    assert (Hone : exists entry,
               Automation.executeAction contact action w = (Ok [entry], w)
               /\ prop entry "status" = JStr "simulated").
    { unfold Automation.executeAction, simulated in *.
      destruct (is_str (action_type action) "send_email") eqn:E1;
        [eexists; split; reflexivity|].
      destruct (is_str (action_type action) "create_task") eqn:E2.
      { apply is_str_eq in E2. rewrite E2 in Ha. discriminate Ha. }
      cbn [orb] in Ha. rewrite Ha. eexists; split; reflexivity. }
    destruct Hone as (entry & -> & Hentry).
    destruct (IH (results ++ [entry])%list w Hs) as (more & -> & Hlen & Hall).
    exists (entry :: more). rewrite <- app_assoc. split; [reflexivity|].
    split; [simpl; congruence | constructor; assumption].
Qed.

End ActionResults.

(** X19. [executeWorkflowActions] never throws, whatever the storage
    does: an action that fails is reported in the results and the next
    ones still run. The results are in the order of the actions, one entry
    per action labelled with its type, except that a [move_deal_stage] for
    a contact without deals leaves no entry. *)
Theorem action_results_line_up `{RT : Runtime} :
  forall workflow contact w,
    exists results w',
      Automation.executeWorkflowActions workflow contact w
      = (Ok (JObj [("results", JArr results)]), w')
      /\ map (fun entry => prop entry "actionType") results
         = map action_type (filter (reported contact) (workflow_actions workflow)).
Proof.
  intros workflow contact w.
  enough (wp (Automation.executeWorkflowActions workflow contact)
             (fun r _ =>
                exists results,
                  r = Ok (JObj [("results", JArr results)])
                  /\ map (fun entry => prop entry "actionType") results
                     = map action_type
                         (filter (reported contact) (workflow_actions workflow))) w)
    as Hwp.
  { destruct (wp_runs _ _ _ Hwp) as (r & w' & Hrun & results & -> & Hres).
    exists results, w'. auto. }
  unfold Automation.executeWorkflowActions. apply wp_bind.
  eapply wp_conseq; [apply executeActions_reports|]. cbv beta.
  intros r w1 (pushed & -> & Hp). apply wp_ret. exists pushed. auto.
Qed.

(** X20. The actions [send_email] and [add_tag] are simulated: a workflow
    made of them reports every action as "simulated" and makes no storage
    call, so the world, its failure schedule included, is returned as it
    was. *)
Theorem simulated_actions_change_nothing `{RT : Runtime} :
  forall workflow contact w,
    forallb simulated (workflow_actions workflow) = true ->
    exists results,
      Automation.executeWorkflowActions workflow contact w
      = (Ok (JObj [("results", JArr results)]), w)
      /\ List.length results = List.length (workflow_actions workflow)
      /\ Forall (fun entry => prop entry "status" = JStr "simulated") results.
Proof.
  intros workflow contact w Hs.
  destruct (executeActions_simulated contact (workflow_actions workflow) [] w Hs)
    as (pushed & Hrun & Hlen & Hall).
  exists pushed. unfold Automation.executeWorkflowActions, bind.
  rewrite Hrun. auto.
Qed.

Definition emailAndTag : workflow :=
  {| workflow_id := "wf4"; workflow_name := "Greet";
     workflow_isActive := true; workflow_triggers := ["deal_created"];
     workflow_conditions := JNull;
     workflow_actions :=
       [{| action_type := JStr "send_email"; action_templateId := JStr "welcome";
           action_title := JUndefined; action_description := JUndefined;
           action_dueDate := JUndefined; action_tag := JUndefined;
           action_targetStage := JUndefined |};
        {| action_type := JStr "add_tag"; action_templateId := JUndefined;
           action_title := JUndefined; action_description := JUndefined;
           action_dueDate := JUndefined; action_tag := JStr "lead";
           action_targetStage := JUndefined |}] |}.

Lemma simulated_actions_change_nothing_witness :
  exists results,
    Automation.executeWorkflowActions emailAndTag statusContact
      (set_faults [true; true] smallWorld)
    = (Ok (JObj [("results", JArr results)]), set_faults [true; true] smallWorld)
    /\ List.length results = List.length (workflow_actions emailAndTag)
    /\ Forall (fun entry => prop entry "status" = JStr "simulated") results.
Proof.
  apply (simulated_actions_change_nothing emailAndTag statusContact
           (set_faults [true; true] smallWorld)).
  reflexivity.
Defined.

(** X21. [triggerWorkflow] for a contact id that no contact has reports
    failure and writes nothing, whatever the storage does; when the lookup
    of the contact does not fail the message is "Contact not found". No
    workflow is looked up or run. *)
Theorem unknown_contact_triggers_nothing :
  forall (R : Runtime) eventName contactId w,
    find (fun c => is_str contactId (contact_id c)) (contacts w) = None ->
    exists r w',
      Automation.triggerWorkflow eventName contactId w = (Ok r, w')
      /\ unchanged w w'
      /\ Automation.success r = false
      /\ (hd false (faults w) = false ->
          Automation.result_message r = "Contact not found").
Proof.
  intros R eventName contactId w Hnone.
  enough (wp (Automation.triggerWorkflow eventName contactId)
             (fun r w' =>
                exists x, r = Ok x /\ unchanged w w'
                          /\ Automation.success x = false
                          /\ (hd false (faults w) = false ->
                              Automation.result_message x = "Contact not found")) w)
    as Hwp.
  { destruct (wp_runs _ _ _ Hwp) as (r & w' & Hrun & x & -> & Hx).
    exists x, w'. auto. }
  unfold Automation.triggerWorkflow, prisma.contact_findUnique_with_deals.
  apply wp_try, wp_bind. unfold wp, query, storage.
  destruct (faults w) as [|[|] fs] eqn:Hf; cbn [fst snd].
  - rewrite Hnone. eexists. split; [reflexivity|].
    split; [apply unchanged_refl|]. auto.
  - eexists. split; [reflexivity|]. split; [eexists; reflexivity|].
    split; [reflexivity|]. discriminate.
  - cbn [contacts set_faults]. rewrite Hnone. eexists. split; [reflexivity|].
    split; [eexists; reflexivity|]. auto.
Qed.

Lemma unknown_contact_triggers_nothing_witness :
  exists r w',
    Automation.triggerWorkflow (H := exampleRuntime) "deal_created" (JStr "c9")
      workflowWorld = (Ok r, w')
    /\ unchanged workflowWorld w'
    /\ Automation.success r = false
    /\ (hd false (faults workflowWorld) = false ->
        Automation.result_message r = "Contact not found").
Proof.
  apply (unknown_contact_triggers_nothing exampleRuntime "deal_created" (JStr "c9")
           workflowWorld).
  reflexivity.
Defined.

Definition target_stage_not_found : json :=
  JObj [("actionType", JStr "move_deal_stage"); ("status", JStr "failed");
        ("error", JStr "Target stage not found")].

(** X22. With a working storage, a [move_deal_stage] action looks the
    target stage up by its exact name among the stages of the pipeline of
    the contact's first deal: when there is one, that deal (and no other)
    is moved to it, so a deal never leaves its pipeline; when there is
    none, the action is reported as failed with "Target stage not found"
    and nothing is written. *)
Theorem move_deal_stage_stays_in_pipeline `{RT : Runtime} :
  forall contact action deal rest pid name w,
    faults w = [] ->
    lc_deals contact = deal :: rest ->
    action_type action = JStr "move_deal_stage" ->
    action_targetStage action = JStr name ->
    deal_pipelineId (ld_deal deal) = JStr pid ->
    match find (fun s => andb (String.eqb (stage_name s) name)
                              (String.eqb (stage_pipelineId s) pid)) (stages w) with
    | Some target =>
        snd (Automation.executeAction contact action w)
        = move_to_stage (JStr (deal_id (ld_deal deal))) target w
        /\ stage_pipelineId target = pid /\ stage_name target = name
    | None =>
        Automation.executeAction contact action w = (Ok [target_stage_not_found], w)
    end.
Proof.
  intros contact action deal rest pid name w Hf Hd Ht Hn Hp.
  assert (Hstep : forall Q,
            wp (targetStage <- prisma.pipelineStage_findFirst (JStr name) (JStr pid) ;;
                match targetStage with
                | Some targetStage =>
                    prisma.deal_update (JStr (deal_id (ld_deal deal)))
                      JUndefined (JStr (stage_id targetStage)) JUndefined JUndefined ;;;
                    match ld_stage deal with
                    | Some stage =>
                        ret [JObj [("actionType", JStr "move_deal_stage");
                                   ("status", JStr "success");
                                   ("fromStage", JStr (stage_name stage));
                                   ("toStage", JStr (stage_name targetStage))]]
                    | None =>
                        throw (TypeError
                                 "Cannot read properties of null (reading 'name')")
                    end
                | None => ret [target_stage_not_found]
                end) Q w ->
            wp (Automation.executeAction contact action) Q w).
  { intros Q HQ. unfold Automation.executeAction. rewrite Ht, Hd, Hn, Hp. exact HQ. }
  destruct (find _ (stages w)) as [target|] eqn:E.
  - apply find_some in E as E'. destruct E' as [_ E'].
    apply andb_true_iff in E' as [E1 E2]. apply String.eqb_eq in E1, E2.
    split; [|auto].
    enough (wp (Automation.executeAction contact action)
               (fun _ w' => w' = move_to_stage (JStr (deal_id (ld_deal deal))) target w)
               w) as Hwp by exact Hwp.
    apply Hstep. unfold prisma.pipelineStage_findFirst, prisma.deal_update.
    apply wp_bind, wp_query_ok; [exact Hf|]. cbv beta iota.
    cbn [where_eq strict_eq]. rewrite E.
    apply wp_bind, wp_bind, wp_storage_ok; [exact Hf|]. cbn [fst snd].
    destruct (find _ (deals w)); [|apply wp_throw; reflexivity].
    apply wp_ret. destruct (ld_stage deal); [apply wp_ret | apply wp_throw]; reflexivity.
  - apply wp_equation. apply Hstep. unfold prisma.pipelineStage_findFirst.
    apply wp_bind, wp_query_ok; [exact Hf|]. cbv beta iota.
    cbn [where_eq strict_eq]. rewrite E. apply wp_ret. auto.
Qed.

(** The contact of [dealWorld] as the automation loads it, and an action
    that names a stage its pipeline does not have. *)
Definition contactWithDeal : loadedContact :=
  {| lc_contact := lc_contact statusContact;
     lc_deals := [{| ld_deal := {| deal_id := "d1"; deal_title := JStr "Status Deal";
                                   deal_value := JNum 5000; deal_stageId := JStr "s1";
                                   deal_pipelineId := JStr "p1";
                                   deal_contactId := JStr "c1";
                                   deal_userId := JStr "u1"; deal_data := JNull |};
                     ld_stage := hd_error (stages dealWorld);
                     ld_pipeline := None |}] |}.

Definition moveToWon : workflowAction :=
  {| action_type := JStr "move_deal_stage"; action_templateId := JUndefined;
     action_title := JUndefined; action_description := JUndefined;
     action_dueDate := JUndefined; action_tag := JUndefined;
     action_targetStage := JStr "Closed Won" |}.

Lemma move_deal_stage_stays_in_pipeline_witness :
  Automation.executeAction contactWithDeal moveToWon dealWorld
  = (Ok [target_stage_not_found], dealWorld).
Proof.
  eapply (move_deal_stage_stays_in_pipeline contactWithDeal moveToWon _ []
            "p1" "Closed Won" dealWorld); reflexivity.
Defined.

Section PermissiveRuns.
Context `{Runtime}.

Lemma find_app_fresh {A} (p : A -> bool) (l : list A) (x : A) :
  (forall y, In y l -> p y = false) -> p x = true -> find p (l ++ [x])%list = Some x.
Proof.
  intros Hl Hx. induction l as [|a l IH]; simpl.
  - rewrite Hx. reflexivity.
  - rewrite (Hl a (or_introl eq_refl)). apply IH. intros y Hy. apply Hl. right. exact Hy.
Qed.

End PermissiveRuns.

(** The contact the permissive handler creates for a new email. *)
Definition new_contact (payload : json) (user : user) (w : world) : contact :=
  {| contact_id := fresh_id w;
     contact_email := email_of payload;
     contact_firstName := fst (parseName (name_of payload));
     contact_lastName := snd (parseName (name_of payload));
     contact_phone := stored (phone_of payload);
     contact_userId := JStr (user_id user) |}.

(** X23. With a working storage, a delivery that is no duplicate, has a
    usable email that no contact has yet, and carries no deal, creates
    exactly one contact (email of the payload, first and last name parsed
    from its name, its phone, the resolved user) and records the delivery
    with one log row of status 200 under its idempotency key; deals,
    pipelines, stages and activities stay as they are. *)
Theorem new_email_creates_contact :
  forall (R : Runtime) body w user,
    nullish body = false -> faults w = [] ->
    find (fun l => strict_eq (log_key l) (JStr (idempotency_key (payload_of body) w)))
         (webhookLogs w) = None ->
    resolve_user (payload_of body) w = Some user ->
    usable_email (email_of (payload_of body)) = true ->
    contact_by_email (email_of (payload_of body)) w = None ->
    truthy (prop (payload_of body) "deal") = false ->
    exists l w',
      Permissive.handleIncomingWebhook body w
      = (Ok (webhook_received (idempotency_key (payload_of body) w)), w')
      /\ contacts w' = (contacts w ++ [new_contact (payload_of body) user w])%list
      /\ webhookLogs w' = (webhookLogs w ++ [l])%list
      /\ log_key l = JStr (idempotency_key (payload_of body) w)
      /\ log_status l = 200%Z
      /\ deal_view w' = deal_view w.
Proof.
  intros R body w user Hn Hf Hnew Hu He Hnone Hd.
  pose proof (payload_not_nullish body Hn) as Hpn.
  set (payload := payload_of body) in *.
  set (key := idempotency_key payload w) in *.
  enough (wp (Permissive.handle body)
             (fun r w' =>
                r = Ok (webhook_received key)
                /\ exists l,
                     contacts w' = (contacts w ++ [new_contact payload user w])%list
                     /\ webhookLogs w' = (webhookLogs w ++ [l])%list
                     /\ log_key l = JStr key /\ log_status l = 200%Z
                     /\ deal_view w' = deal_view w) w) as Hwp.
  { unfold Permissive.handleIncomingWebhook, try_catch. unfold wp in Hwp.
    destruct (Permissive.handle body w) as [r w']. simpl in Hwp.
    destruct Hwp as (-> & l & Hrest). exists l, w'. auto. }
  unfold Permissive.handle.
  apply wp_bind.
  eapply wp_conseq; [apply wp_payload; exact Hn|]. cbv beta.
  intros r w' [-> ->]. fold payload.
  apply wp_bind. unfold Permissive.generateIdempotencyKey.
  apply wp_bind. unfold wp at 1, now. cbn [fst snd].
  apply wp_ret. fold (idempotency_key payload w). fold key.
  apply wp_bind. unfold wp at 1.
  rewrite (isWebhookProcessed_new key w Hf Hnew). cbn [fst snd].
  apply wp_bind.
  eapply wp_conseq; [apply wp_email; exact Hpn|]. cbv beta.
  intros r w' [-> ->].
  apply wp_bind.
  eapply wp_conseq; [apply wp_name; exact Hpn|]. cbv beta.
  intros r w' [-> ->].
  apply wp_bind.
  eapply wp_conseq; [apply wp_phone; exact Hpn|]. cbv beta.
  intros r w' [-> ->].
  apply wp_bind. unfold wp at 1.
  rewrite (permissive_findUser_resolves payload w Hpn Hf user Hu). cbn [fst snd].
  apply wp_bind.
  assert (Hcontact :
    wp (Permissive.processContact (email_of payload) (name_of payload)
          (phone_of payload) user)
       (fun r w' => r = Ok tt
                    /\ w' = bump 1 (set_contacts
                                      (contacts w ++ [new_contact payload user w]) w)) w).
  { unfold Permissive.processContact, usable_email in *.
    destruct (email_of payload) as [| | | |e| |] eqn:Email; try discriminate He.
    rewrite He.
    pose proof (parseName_stored (name_of payload)) as [Hfn Hln].
    unfold new_contact. rewrite Email.
    destruct (parseName (name_of payload)) as [firstName lastName].
    cbn [fst snd] in *.
    unfold prisma.contact_findUnique_email, prisma.contact_create.
    apply wp_try, wp_bind, wp_query_ok; [exact Hf|]. cbv beta iota.
    unfold contact_by_email in Hnone. rewrite Hnone.
    apply wp_bind, wp_storage_ok; [exact Hf|]. cbn [fst snd].
    apply wp_ret. split; [reflexivity|]. cbn [stored]. rewrite Hfn, Hln. reflexivity. }
  eapply wp_conseq; [exact Hcontact|]. clear Hcontact. cbv beta.
  intros r w1 [-> ->].
  apply wp_bind. unfold wp at 1.
  rewrite processDeal_skips by assumption. cbn [fst snd].
  apply wp_bind. unfold Permissive.logProcessedWebhook, prisma.webhookLog_create.
  apply wp_try, wp_bind, wp_storage_ok; [exact Hf|]. cbn [fst snd].
  apply wp_ret, wp_ret. split; [reflexivity|].
  eexists. repeat split.
Qed.

Lemma new_email_creates_contact_witness :
  exists l w',
    Permissive.handleIncomingWebhook (H := exampleRuntime) followUp smallWorld
    = (Ok (webhook_received
             (idempotency_key (H := exampleRuntime) (payload_of followUp) smallWorld)),
       w')
    /\ contacts w'
       = (contacts smallWorld
            ++ [new_contact (payload_of followUp) {| user_id := "u1" |} smallWorld])%list
    /\ webhookLogs w' = (webhookLogs smallWorld ++ [l])%list
    /\ log_key l
       = JStr (idempotency_key (H := exampleRuntime) (payload_of followUp) smallWorld)
    /\ log_status l = 200%Z
    /\ deal_view w' = deal_view smallWorld.
Proof.
  apply (new_email_creates_contact exampleRuntime followUp smallWorld
           {| user_id := "u1" |}); reflexivity.
Defined.

(** X24. With a working storage, [findPipeline] for a user who has no
    pipeline creates "Default Pipeline" for that user with the six stages
    Lead, Qualified, Proposal, Negotiation, Closed Won, Closed Lost (orders
    1 to 6) and returns it with exactly these stages, so the first stage is
    "Lead". (The id the storage allocates is not yet that of a pipeline nor
    the pipeline of any stage.) *)
Theorem findPipeline_creates_default_pipeline :
  forall user w,
    faults w = [] ->
    find (fun p => where_eq (pipeline_userId p) (JStr (user_id user))) (pipelines w)
    = None ->
    (forall p, In p (pipelines w) -> String.eqb (fresh_id w) (pipeline_id p) = false) ->
    (forall s, In s (stages w) -> String.eqb (stage_pipelineId s) (fresh_id w) = false) ->
    exists created w',
      Permissive.findPipeline user w
      = (Ok (Some (defaultPipeline (JStr (user_id user)) w, created)), w')
      /\ pipelines w' = (pipelines w ++ [defaultPipeline (JStr (user_id user)) w])%list
      /\ stages w' = (stages w ++ created)%list
      /\ map (fun s => (stage_name s, stage_order s, stage_pipelineId s)) created
         = map (fun n => (fst n, snd n, fresh_id w)) Permissive.defaultStages
      /\ option_map stage_name (hd_error created) = Some "Lead"
      /\ deals w' = deals w /\ contacts w' = contacts w.
Proof.
  intros user w Hf Hnone Hfreshp Hfreshs.
  enough (wp (Permissive.findPipeline user)
             (fun r w' =>
                exists created,
                  r = Ok (Some (defaultPipeline (JStr (user_id user)) w, created))
                  /\ pipelines w'
                     = (pipelines w ++ [defaultPipeline (JStr (user_id user)) w])%list
                  /\ stages w' = (stages w ++ created)%list
                  /\ map (fun s => (stage_name s, stage_order s, stage_pipelineId s))
                         created
                     = map (fun n => (fst n, snd n, fresh_id w)) Permissive.defaultStages
                  /\ option_map stage_name (hd_error created) = Some "Lead"
                  /\ deals w' = deals w /\ contacts w' = contacts w) w) as Hwp.
  { destruct (wp_runs _ _ _ Hwp) as (r & w' & Hrun & created & -> & Hrest).
    exists created, w'. auto. }
  unfold Permissive.findPipeline. autounfold with js.
  apply wp_bind, wp_query_ok; [exact Hf|]. cbv beta iota. rewrite Hnone.
  apply wp_bind, wp_storage_ok; [exact Hf|]. cbn [fst snd].
  apply wp_bind, wp_storage_ok; [exact Hf|]. cbn [fst snd pipeline_id].
  apply wp_query_ok; [exact Hf|].
  cbn [pipelines bump set_stages set_pipelines].
  rewrite (find_app_fresh (fun p => is_str (JStr (fresh_id w)) (pipeline_id p))
             (pipelines w)
             {| pipeline_id := fresh_id w; pipeline_name := "Default Pipeline";
                pipeline_userId := stored (JStr (user_id user)) |});
    [|exact Hfreshp | apply String.eqb_refl].
  unfold stages_of. cbn [stages bump set_stages set_pipelines nextId pipeline_id].
  rewrite filter_app, (filter_none _ _ Hfreshs), filter_number_stages.
  cbn [app Permissive.defaultStages prisma.number_stages].
  eexists. split; [reflexivity|]. repeat split.
Qed.

Lemma findPipeline_creates_default_pipeline_witness :
  exists created w',
    Permissive.findPipeline {| user_id := "u1" |} emptyStore
    = (Ok (Some (defaultPipeline (JStr "u1") emptyStore, created)), w')
    /\ pipelines w' = (pipelines emptyStore ++ [defaultPipeline (JStr "u1") emptyStore])%list
    /\ stages w' = (stages emptyStore ++ created)%list
    /\ map (fun s => (stage_name s, stage_order s, stage_pipelineId s)) created
       = map (fun n => (fst n, snd n, fresh_id emptyStore)) Permissive.defaultStages
    /\ option_map stage_name (hd_error created) = Some "Lead"
    /\ deals w' = deals emptyStore /\ contacts w' = contacts emptyStore.
Proof.
  apply (findPipeline_creates_default_pipeline {| user_id := "u1" |} emptyStore);
    try reflexivity; intros x [].
Defined.

(** ** What the automation leaves alone *)

(** A deal without its stage. *)
Definition deal_but_stage (d : deal)
  : string * json * json * json * json * json * json :=
  (deal_id d, deal_title d, deal_value d, deal_pipelineId d, deal_contactId d,
   deal_userId d, deal_data d).

(** The part of the store the automation never changes. *)
Definition automation_frame (w : world) :=
  (map deal_but_stage (deals w), contacts w, users w, pipelines w, stages w,
   webhookLogs w, workflows w).

#[export] Instance Frame_automation_frame : Frame (keeps automation_frame).
Proof. apply Frame_keeps. reflexivity. Qed.

Lemma patch_stage_only (c : deal -> bool) stageId l :
  map deal_but_stage
      (map (fun d => if c d
                     then prisma.deal_patch JUndefined stageId JUndefined JUndefined d
                     else d) l)
  = map deal_but_stage l.
Proof.
  rewrite map_map. apply map_ext. intros d. destruct (c d); reflexivity.
Qed.

(** X25. Whatever the workflows and the storage do, [triggerWorkflow]
    changes of the existing rows nothing but the stage of deals: every deal
    keeps its id, title, value, pipeline, contact, user and data, no deal is
    added or removed, and contacts, users, pipelines, stages, the webhook
    log and the workflows themselves are as before. *)
Theorem automation_only_moves_deals :
  forall (R : Runtime) eventName contactId w,
    automation_frame (snd (Automation.triggerWorkflow eventName contactId w))
    = automation_frame w.
Proof.
  intros R eventName contactId w.
  apply (preserves_triggerWorkflow (keeps automation_frame)); try exact _;
    intros; unfold keeps, automation_frame; cbn;
    rewrite ?patch_stage_only; reflexivity.
Qed.

(** ** The activity of a booked call *)

(** The activity the permissive handler logs for a new deal of a
    [call_booked] delivery: it refers to the contact, not to the deal. *)
Definition booked_call_activity `{Runtime} (id : string) (payload dealTitle : json)
    (c : contact) (user : user) : activity :=
  {| activity_id := id;
     activity_type := "APPOINTMENT_BOOKED";
     activity_note := "Appointment booked for " ++ js_String dealTitle;
     activity_contactId := JStr (contact_id c);
     activity_dealId := JNull;
     activity_userId := JStr (user_id user);
     activity_data :=
       JObj [("source", JStr "iClosed via Zapier");
             ("deal_name", dealTitle);
             ("booking_details",
              js_or (prop payload "booking_details")
                    (JStr "Details from iClosed payload"))] |}.

Section BookedCall.
Context `{Runtime}.

Lemma upsertDeal_logs_booking payload dealTitle dealValue email targetStage pipeline
    dealContact user w :
  nullish payload = false ->
  faults w = [] -> triggered "deal_created" w = [] ->
  find (fun d => andb (where_eq (deal_title d) dealTitle)
                (andb (where_eq (deal_pipelineId d) (JStr (pipeline_id pipeline)))
                      (where_eq (deal_userId d) (JStr (user_id user)))))
       (deals w) = None ->
  wp (Permissive.upsertDeal payload dealTitle dealValue email (Some targetStage)
        pipeline dealContact user)
     (fun r w' =>
        r = Ok tt
        /\ exists id,
             activities w'
             = (activities w
                  ++ match dealContact with
                     | Some c =>
                         if is_str (prop payload "event") "call_booked"
                         then [booked_call_activity id payload dealTitle c user]
                         else []
                     | None => []
                     end)%list) w.
Proof.
  intros Hn Hf Hidle Hfind.
  unfold Permissive.upsertDeal, prisma.deal_findFirst.
  apply wp_bind, wp_query_ok; [exact Hf|]. cbv beta iota.
  rewrite Hfind. cbv iota.
  apply wp_bind. unfold Permissive.id_of. apply wp_ret.
  apply wp_bind. unfold prisma.deal_create.
  apply wp_storage_ok; [exact Hf|]. cbn [fst snd].
  apply wp_bind. unfold get. rewrite Hn. apply wp_ret.
  destruct dealContact as [c|];
    [|apply wp_ret; split; [reflexivity|]; exists ""; cbn; rewrite app_nil_r; reflexivity].
  apply wp_bind.
  destruct (is_str (prop payload "event") "call_booked").
  - apply wp_bind, wp_ret, wp_bind. unfold prisma.activity_create.
    apply wp_storage_ok; [exact Hf|]. cbn [fst snd]. apply wp_ret.
    apply wp_bind.
    eapply wp_conseq; [apply triggerWorkflow_idle; [exact Hf | exact Hidle]|].
    cbv beta. intros r w' [[x ->] ->]. apply wp_ret. split; [reflexivity|].
    eexists. cbn. reflexivity.
  - apply wp_ret, wp_bind.
    eapply wp_conseq; [apply triggerWorkflow_idle; [exact Hf | exact Hidle]|].
    cbv beta. intros r w' [[x ->] ->]. apply wp_ret. split; [reflexivity|].
    exists "". cbn. rewrite app_nil_r. reflexivity.
Qed.

End BookedCall.

(** X26. In the permissive variant, with a working storage and no
    workflow on the event: a delivery that creates a deal logs one
    APPOINTMENT_BOOKED activity exactly when its event is [call_booked] and
    the deal has a contact; the activity refers to the contact and the
    user but to no deal. A delivery that updates an existing deal logs no
    activity. *)
Theorem booked_call_logs_one_activity :
  (forall (R : Runtime) payload dealTitle dealValue email targetStage pipeline
          dealContact user w,
      nullish payload = false ->
      faults w = [] -> triggered "deal_created" w = [] ->
      find (fun d => andb (where_eq (deal_title d) dealTitle)
                    (andb (where_eq (deal_pipelineId d) (JStr (pipeline_id pipeline)))
                          (where_eq (deal_userId d) (JStr (user_id user)))))
           (deals w) = None ->
      exists id w',
        Permissive.upsertDeal payload dealTitle dealValue email (Some targetStage)
          pipeline dealContact user w = (Ok tt, w')
        /\ activities w'
           = (activities w
                ++ match dealContact with
                   | Some c =>
                       if is_str (prop payload "event") "call_booked"
                       then [booked_call_activity id payload dealTitle c user]
                       else []
                   | None => []
                   end)%list)
  /\ (forall (R : Runtime) payload dealTitle dealValue email targetStage pipeline
             dealContact user existingDeal w,
         faults w = [] -> triggered "pipeline_stage_changed" w = [] ->
         find (fun d => andb (where_eq (deal_title d) dealTitle)
                       (andb (where_eq (deal_pipelineId d) (JStr (pipeline_id pipeline)))
                             (where_eq (deal_userId d) (JStr (user_id user)))))
              (deals w) = Some existingDeal ->
         activities
           (snd (Permissive.upsertDeal payload dealTitle dealValue email
                   (Some targetStage) pipeline dealContact user w))
         = activities w).
Proof.
  split.
  - intros R payload dealTitle dealValue email targetStage pipeline dealContact user w
      Hn Hf Hidle Hfind.
    pose proof (upsertDeal_logs_booking payload dealTitle dealValue email targetStage
                  pipeline dealContact user w Hn Hf Hidle Hfind) as Hwp.
    unfold wp in Hwp.
    destruct (Permissive.upsertDeal _ _ _ _ _ _ _ _ w) as [r w'].
    simpl in Hwp. destruct Hwp as (-> & id & Ha). exists id, w'. auto.
  - intros R payload dealTitle dealValue email targetStage pipeline dealContact user
      existingDeal w Hf Hidle Hfind.
    rewrite (upsertDeal_updates payload dealTitle dealValue email targetStage pipeline
               dealContact user existingDeal w Hf Hidle Hfind).
    reflexivity.
Qed.

Lemma booked_call_logs_one_activity_witness :
  exists id w',
    Permissive.upsertDeal (H := exampleRuntime) callBooked
      (JStr "Second Deal") (JNum 100) (JStr "new.user@test.com")
      (Some {| stage_id := "s1"; stage_name := "New"; stage_order := 1;
               stage_pipelineId := "p1" |})
      {| pipeline_id := "p1"; pipeline_name := "Test Pipeline";
         pipeline_userId := JStr "u1" |}
      (Some {| contact_id := "id0"; contact_email := JStr "new.user@test.com";
               contact_firstName := JStr "New"; contact_lastName := JStr "User";
               contact_phone := JStr "1234567890"; contact_userId := JStr "u1" |})
      {| user_id := "u1" |} smallWorld = (Ok tt, w')
    /\ activities w'
       = (activities smallWorld
            ++ (if is_str (prop callBooked "event") "call_booked"
                then [booked_call_activity id callBooked (JStr "Second Deal")
                        {| contact_id := "id0"; contact_email := JStr "new.user@test.com";
                           contact_firstName := JStr "New";
                           contact_lastName := JStr "User";
                           contact_phone := JStr "1234567890";
                           contact_userId := JStr "u1" |} {| user_id := "u1" |}]
                else []))%list.
Proof.
  apply (proj1 booked_call_logs_one_activity exampleRuntime callBooked
           (JStr "Second Deal") (JNum 100) (JStr "new.user@test.com")
           {| stage_id := "s1"; stage_name := "New"; stage_order := 1;
              stage_pipelineId := "p1" |}
           {| pipeline_id := "p1"; pipeline_name := "Test Pipeline";
              pipeline_userId := JStr "u1" |}
           (Some {| contact_id := "id0"; contact_email := JStr "new.user@test.com";
                    contact_firstName := JStr "New"; contact_lastName := JStr "User";
                    contact_phone := JStr "1234567890"; contact_userId := JStr "u1" |})
           {| user_id := "u1" |} smallWorld); reflexivity.
Defined.

(** ** The answers of the secured handler *)

Section SecuredEnvelope.
Context `{Runtime}.

Lemma dispatch_answer_is_success payload event user w :
  wp (Secured.dispatch payload event user)
     (fun r _ => forall resp, r = Ok (Return resp) ->
                              res_status resp = 200%Z
                              /\ body_field resp "status" = JStr "success") w.
Proof.
  unfold Secured.dispatch.
  destruct (is_str event "appointment_booked").
  - apply wp_bind_any; [intros e w' resp [=]|]. intros a w'. apply wp_ret.
    intros resp [=].
  - destruct (is_str event "status_changed").
    + apply wp_bind_any; [intros e w' resp [=]|]. intros a w'. apply wp_ret.
      intros resp [=].
    + apply wp_ret. intros resp [= <-]. split; reflexivity.
Qed.

End SecuredEnvelope.

(** X27. The secured handler always answers, and with one of four status
    codes: 200 with status "success", or 400, 401 or 500 with status
    "error". *)
Theorem secured_answers_are_enveloped `{RT : Runtime} :
  forall ICLOSED_SECRET req w,
    exists r w',
      Secured.handleIncomingWebhook ICLOSED_SECRET req w = (Ok r, w')
      /\ ((res_status r = 200%Z /\ body_field r "status" = JStr "success")
          \/ (In (res_status r) [400%Z; 401%Z; 500%Z]
              /\ body_field r "status" = JStr "error")).
Proof.
  intros secret req w.
  destruct (Secured.secret_rejected (Secured.x_webhook_secret req) secret) eqn:Hs.
  { exists Secured.unauthorized, w.
    unfold Secured.handleIncomingWebhook, try_catch. rewrite Hs.
    split; [reflexivity|]. right. split; [right; left|]; reflexivity. }
  enough (wp (Secured.handle (Secured.body req))
             (fun r _ =>
                match r with
                | Ok resp =>
                    (res_status resp = 200%Z /\ body_field resp "status" = JStr "success")
                    \/ (In (res_status resp) [400%Z; 401%Z; 500%Z]
                        /\ body_field resp "status" = JStr "error")
                | Throw _ => True
                end) w) as Hwp.
  { unfold Secured.handleIncomingWebhook, try_catch. rewrite Hs. unfold wp in Hwp.
    destruct (Secured.handle (Secured.body req) w) as [[resp|e] w']; simpl in Hwp.
    - exists resp, w'. auto.
    - eexists _, w'. split; [reflexivity|]. right.
      split; [right; right; left|]; reflexivity. }
  unfold Secured.handle.
  destruct (negb (truthy (Secured.body req)));
    [apply wp_ret; right; split; [left|]; reflexivity|].
  apply wp_bind_any; [intros; exact I|]. intros event w1.
  destruct (negb (truthy event));
    [apply wp_ret; right; split; [left|]; reflexivity|].
  apply wp_bind_any; [intros; exact I|]. intros eventId w2.
  apply wp_bind_any; [intros; exact I|]. intros [|] w3;
    [apply wp_ret; left; split; reflexivity|].
  apply wp_bind.
  eapply wp_conseq; [apply findUser_in|]. cbv beta.
  intros r w4 [_ [(u & -> & _) | [[-> _] | ->]]].
  - apply wp_bind.
    eapply wp_conseq; [apply dispatch_answer_is_success|]. cbv beta.
    intros [[resp|[]]|e] w5 Hr; [apply wp_ret; left; apply Hr; reflexivity | | exact I].
    apply wp_bind_any; [intros; exact I|]. intros _ w6.
    apply wp_ret. left. split; reflexivity.
  - apply wp_ret. right. split; [right; right; left|]; reflexivity.
  - apply wp_ret. right. split; [right; right; left|]; reflexivity.
Qed.

(** ** The stage and the contact of a new deal *)

Section NewDeal.
Context `{Runtime}.

Lemma strict_eq_eq a b : strict_eq a b = true -> a = b.
Proof.
  destruct a, b; simpl; try discriminate; intros E; try reflexivity.
  - apply Bool.eqb_prop in E. congruence.
  - apply Z.eqb_eq in E. congruence.
  - apply String.eqb_eq in E. congruence.
Qed.

Lemma wp_or3 (o : json) (a b c : string) w :
  nullish o = false ->
  wp (get o a ||> get o b ||> get o c)
     (fun r w' => r = Ok (js_or (prop o a) (js_or (prop o b) (prop o c))) /\ w' = w) w.
Proof.
  intros Hn. unfold or_else, get, js_or. rewrite Hn. repeat (wp_step; auto).
Qed.

End NewDeal.

(** X28. With a working storage, [createDeal] called without pipeline
    and stage for a user who has a pipeline with stages puts the new deal
    in the first stage of the user's first pipeline, and creates no
    pipeline and no stage. *)
Theorem createDeal_uses_first_stage :
  forall title value stageId pipelineId contactId userId source w p first rest,
    faults w = [] -> truthy pipelineId = false -> truthy stageId = false ->
    find (fun p => where_eq (pipeline_userId p) userId) (pipelines w) = Some p ->
    stages_of (pipeline_id p) w = first :: rest ->
    exists d w',
      Secured.createDeal title value stageId pipelineId contactId userId source w
      = (Ok d, w')
      /\ deal_pipelineId d = JStr (pipeline_id p)
      /\ deal_stageId d = JStr (stage_id first)
      /\ deals w' = (deals w ++ [d])%list
      /\ pipelines w' = pipelines w /\ stages w' = stages w.
Proof.
  intros title value stageId pipelineId contactId userId source w p first rest
    Hf Hp Hs Hfind Hstages.
  enough (wp (Secured.createDeal title value stageId pipelineId contactId userId source)
             (fun r w' =>
                exists d, r = Ok d
                          /\ deal_pipelineId d = JStr (pipeline_id p)
                          /\ deal_stageId d = JStr (stage_id first)
                          /\ deals w' = (deals w ++ [d])%list
                          /\ pipelines w' = pipelines w /\ stages w' = stages w) w)
    as Hwp.
  { destruct (wp_runs _ _ _ Hwp) as (r & w' & Hrun & d & -> & Hrest).
    exists d, w'. auto. }
  unfold Secured.createDeal. rewrite Hp, Hs. simpl negb. cbv iota.
  autounfold with js.
  apply wp_bind, wp_bind, wp_query_ok; [exact Hf|]. cbv beta iota. rewrite Hfind.
  apply wp_ret, wp_bind, wp_bind, wp_query_ok; [exact Hf|]. cbv beta iota.
  assert (Hex : exists p', find (fun q => is_str (JStr (pipeline_id p)) (pipeline_id q))
                                (pipelines w) = Some p'
                           /\ pipeline_id p' = pipeline_id p).
  { destruct (find (fun q => is_str (JStr (pipeline_id p)) (pipeline_id q))
                (pipelines w)) as [p'|] eqn:E.
    - exists p'. split; [reflexivity|]. apply find_some in E as [_ E].
      unfold is_str, strict_eq in E. apply String.eqb_eq in E. congruence.
    - exfalso. apply find_some in Hfind as [Hin _].
      apply (find_none _ _ E) in Hin. unfold is_str, strict_eq in Hin.
      rewrite String.eqb_refl in Hin. discriminate. }
  destruct Hex as (p' & -> & Hid). rewrite Hid, Hstages.
  apply wp_ret. unfold prisma.deal_create. apply wp_storage_ok; [exact Hf|].
  cbn [fst snd]. eexists. repeat split.
Qed.

Lemma createDeal_uses_first_stage_witness :
  exists d w',
    Secured.createDeal (JStr "D1") (JNum 1000) JUndefined JUndefined (JStr "c1")
      (JStr "u1") (JStr "iClosed") smallWorld = (Ok d, w')
    /\ deal_pipelineId d = JStr "p1"
    /\ deal_stageId d = JStr "s1"
    /\ deals w' = (deals smallWorld ++ [d])%list
    /\ pipelines w' = pipelines smallWorld /\ stages w' = stages smallWorld.
Proof.
  apply (createDeal_uses_first_stage (JStr "D1") (JNum 1000) JUndefined JUndefined
           (JStr "c1") (JStr "u1") (JStr "iClosed") smallWorld
           {| pipeline_id := "p1"; pipeline_name := "Test Pipeline";
              pipeline_userId := JStr "u1" |}
           {| stage_id := "s1"; stage_name := "New"; stage_order := 1;
              stage_pipelineId := "p1" |}
           [{| stage_id := "s2"; stage_name := "Proposal Sent"; stage_order := 2;
               stage_pipelineId := "p1" |}]); reflexivity.
Defined.

(** X29. With a working storage, the contact [findDealContact] gives a
    deal is a contact of the store whose email is the deal's contact email
    (the email the deal carries, else the main one). A contact is created
    only when the deal carries an email of its own, different from the main
    one, that no contact has; when no contact is returned, nothing was
    written. *)
Theorem deal_contact_is_in_the_store :
  forall dealData explicit email user w,
    faults w = [] -> nullish dealData = false ->
    exists r w',
      Permissive.findDealContact dealData explicit email user w = (Ok r, w')
      /\ match r with
         | Some c =>
             In c (contacts w') /\ contact_email c = js_or explicit email
             /\ (contacts w' = contacts w
                 \/ (contacts w' = (contacts w ++ [c])%list
                     /\ truthy explicit = true /\ strict_eq explicit email = false
                     /\ contact_by_email explicit w = None))
         | None => w' = w
         end.
Proof.
  intros dealData explicit email user w Hf Hn.
  enough (wp (Permissive.findDealContact dealData explicit email user)
             (fun r w' =>
                exists x, r = Ok x
                  /\ match x with
                     | Some c =>
                         In c (contacts w') /\ contact_email c = js_or explicit email
                         /\ (contacts w' = contacts w
                             \/ (contacts w' = (contacts w ++ [c])%list
                                 /\ truthy explicit = true
                                 /\ strict_eq explicit email = false
                                 /\ contact_by_email explicit w = None))
                     | None => w' = w
                     end) w) as Hwp.
  { destruct (wp_runs _ _ _ Hwp) as (r & w' & Hrun & x & -> & Hx).
    exists x, w'. auto. }
  unfold Permissive.findDealContact.
  destruct (truthy (js_or explicit email)) eqn:Ht;
    [|apply wp_ret; exists None; split; reflexivity].
  unfold prisma.contact_findUnique_email.
  apply wp_bind, wp_query_ok; [exact Hf|]. cbv beta iota.
  destruct (find _ (contacts w)) as [c|] eqn:Hfind.
  - apply wp_ret. exists (Some c). split; [reflexivity|].
    apply find_some in Hfind as [Hin Heq]. apply strict_eq_eq in Heq. auto.
  - destruct (andb (truthy explicit) (negb (strict_eq explicit email))) eqn:Hnew;
      [|apply wp_ret; exists None; split; reflexivity].
    apply andb_true_iff in Hnew as [He Hne]. apply negb_true_iff in Hne.
    assert (Hje : js_or explicit email = explicit) by (unfold js_or; rewrite He; reflexivity).
    apply wp_bind.
    eapply wp_conseq;
      [apply (wp_or3 dealData "contactName" "contact_name" "ContactName" w Hn)|].
    cbv beta. intros r w0 [-> ->].
    destruct (parseName _) as [firstName lastName].
    apply wp_bind.
    eapply wp_conseq;
      [apply (wp_or3 dealData "contactPhone" "contact_phone" "ContactPhone" w Hn)|].
    cbv beta. intros r w0 [-> ->].
    apply wp_bind. unfold prisma.contact_create.
    apply wp_storage_ok; [exact Hf|]. cbn [fst snd]. apply wp_ret.
    eexists. split; [reflexivity|]. cbn.
    split; [apply in_or_app; right; left; reflexivity|].
    split; [apply truthy_stored, Ht|].
    right. repeat split; auto.
    unfold contact_by_email. rewrite <- Hje. exact Hfind.
Qed.

Lemma deal_contact_is_in_the_store_witness :
  exists r w',
    Permissive.findDealContact
      (JObj [("title", JStr "Referral"); ("contactEmail", JStr "friend@example.com");
             ("contactName", JStr "Good Friend")])
      (JStr "friend@example.com") (JStr "status@example.com") {| user_id := "u1" |}
      dealWorld = (Ok r, w')
    /\ match r with
       | Some c =>
           In c (contacts w')
           /\ contact_email c
              = js_or (JStr "friend@example.com") (JStr "status@example.com")
           /\ (contacts w' = contacts dealWorld
               \/ (contacts w' = (contacts dealWorld ++ [c])%list
                   /\ truthy (JStr "friend@example.com") = true
                   /\ strict_eq (JStr "friend@example.com") (JStr "status@example.com")
                      = false
                   /\ contact_by_email (JStr "friend@example.com") dealWorld = None))
       | None => w' = dealWorld
       end.
Proof.
  apply (deal_contact_is_in_the_store
           (JObj [("title", JStr "Referral"); ("contactEmail", JStr "friend@example.com");
                  ("contactName", JStr "Good Friend")])
           (JStr "friend@example.com") (JStr "status@example.com") {| user_id := "u1" |}
           dealWorld); reflexivity.
Defined.
